(** * Arachne: the synthetic fraud-ring pipeline and its graph loader

    A shallow embedding of the four stages of the repository,

      - [src/arachne/simulator/generate_bronze.py]      (Entity Generator),
      - [src/arachne/simulator/enrich_infrastructure.py] (Reuse Sampler),
      - [src/arachne/simulator/inject_fraud_rings.py]    (Ring Injector),
      - [src/arachne/graph_load/load_bronze.py]          (Graph Loader),

    and of the script that runs the Cypher files, [scripts/run_cypher.py],
    followed by the properties of the specification that were checked
    against them.

    Conventions.  Python's [int] is [Z], except for counts, lengths and
    indices, which are [nat]; Python's [float] is the kernel's binary64
    ([PrimFloat.float]), so products and comparisons round exactly as in
    the interpreter; [str] is [string]; a [datetime] is its number of
    microseconds since the Unix epoch.  A function that draws random
    numbers or may raise lives in the monad [M]: it takes the state of the
    generator and returns either a value with the next state, or the
    exception that ended the run. *)

From Stdlib Require Import ZArith Floats Uint63 Lia.
From Stdlib Require Import Strings.String Strings.Ascii DecimalString DecimalNat.
From stdpp Require Import base option list strings gmap.

Set Warnings "-inexact-float,-abstract-large-number".
Set Default Proof Using "Type".

Open Scope Z_scope.
Open Scope nat_scope.

(** ** Exceptions and results *)

(** The exception classes the four stages can end with. *)
Inductive exn : Type :=
| ValueError (msg : string)
| IndexError
| RuntimeError (msg : string)
| FileNotFoundError (msg : string)
| ColumnNotFoundError (name : string)
| TypeError
| OverflowError.

Inductive result (A : Type) : Type :=
| Ok (a : A)
| Raise (e : exn).
Arguments Ok {A} a.
Arguments Raise {A} e.

#[global] Instance Ok_inj {A} : Inj (=) (=) (@Ok A).
Proof. by intros x y [= ->]. Qed.

Definition is_ok {A} (r : result A) : bool :=
  match r with Ok _ => true | Raise _ => false end.

(** ** Cell values of the bronze tables *)

(** What [Series.to_list()] hands back for the columns of this pipeline. *)
Inductive value : Type :=
| VStr (s : string)
| VInt (z : Z)
| VFloat (f : float)
| VTime (us : Z).

#[global] Instance float_eq_dec : EqDecision float.
Proof.
  intros x y. destruct (PrimFloat.Leibniz.eqb x y) eqn:E.
  - left. by apply FloatAxioms.Leibniz.eqb_spec.
  - right. intros Hxy. apply FloatAxioms.Leibniz.eqb_spec in Hxy. congruence.
Defined.

#[global] Instance value_eq_dec : EqDecision value.
Proof. solve_decision. Defined.

(** ** Floats and integers *)

(** [float(n)] for a length or a count [n] (below [2^63], as every
    length is). *)
Definition float_of_nat (n : nat) : float :=
  PrimFloat.of_uint63 (Uint63.of_Z (Z.of_nat n)).

(** [int(x)]: truncation towards zero; infinities raise [OverflowError]
    and NaN raises [ValueError]. *)
Definition py_int (x : float) : result Z :=
  match Prim2SF x with
  | S754_zero _ => Ok 0%Z
  | S754_finite s m e =>
      let a := if (0 <=? e)%Z then (Z.pos m * 2 ^ e)%Z
               else (Z.pos m / 2 ^ (- e))%Z in
      Ok (if s then (- a)%Z else a)
  | S754_infinity _ => Raise OverflowError
  | S754_nan => Raise (ValueError "cannot convert float NaN to integer")
  end.

(** The built-ins [min(a, b)] and [max(a, b)] on two floats: the first
    argument wins unless the second is strictly better. *)
Definition py_min (a b : float) : float := if PrimFloat.ltb b a then b else a.
Definition py_max (a b : float) : float := if PrimFloat.ltb a b then b else a.

(** [float(z)] for an integer of magnitude below [2^63]. *)
Definition float_of_Z (z : Z) : float :=
  let a := PrimFloat.of_uint63 (Uint63.of_Z (Z.abs z)) in
  if (z <? 0)%Z then (- a)%float else a.

(** The nearest integer to [n / d] for [d > 0], ties to the even one. *)
Definition div_half_even (n d : Z) : Z :=
  let q := (n / d)%Z in
  let r := (n mod d)%Z in
  if (2 * r <? d)%Z then q
  else if (d <? 2 * r)%Z then (q + 1)%Z
  else if Z.even q then q else (q + 1)%Z.

(** [round(x, 2)]: the exact value of [x] is rounded to a whole number of
    hundredths, ties to even, and the float nearest to that decimal is
    returned.  Infinities, NaN and floats without a fractional part come
    back unchanged.  (Exact for [|x| < 2^46], far above any amount.) *)
Definition py_round2 (x : float) : float :=
  match Prim2SF x with
  | S754_finite s m e =>
      if (0 <=? e)%Z then x
      else
        let a := (float_of_Z (div_half_even (Z.pos m * 100) (2 ^ (- e))) / 100)%float in
        if s then (- a)%float else a
  | _ => x
  end.

(** ** Dates *)

(** [datetime.min] and [datetime.max], in microseconds since the epoch. *)
Definition datetime_min : Z := (-62135596800 * 1000000)%Z.
Definition datetime_max : Z := (253402300799 * 1000000 + 999999)%Z.

(** [timedelta.min] and [timedelta.max] in microseconds. *)
Definition timedelta_min : Z := (-999999999 * 86400 * 1000000)%Z.
Definition timedelta_max : Z := ((999999999 * 86400 + 86399) * 1000000 + 999999)%Z.

(** [timedelta(hours=h)] and [timedelta(seconds=s)]. *)
Definition timedelta (us : Z) : result Z :=
  if ((timedelta_min <=? us) && (us <=? timedelta_max))%Z then Ok us
  else Raise OverflowError.
Definition timedelta_hours (h : Z) : result Z := timedelta (h * 3600 * 1000000)%Z.
Definition timedelta_seconds (s : Z) : result Z := timedelta (s * 1000000)%Z.

(** [t + delta] for a cell [t]: only a datetime can be shifted, and the
    sum must stay within the years 1..9999. *)
Definition datetime_add (t : value) (delta : Z) : result value :=
  match t with
  | VTime us =>
      let us' := (us + delta)%Z in
      if ((datetime_min <=? us') && (us' <=? datetime_max))%Z then Ok (VTime us')
      else Raise OverflowError
  | _ => Raise TypeError
  end.

(** ** Formatting *)

(** [str(n)] for a natural number. *)
Definition decimal (n : nat) : string := NilZero.string_of_uint (Nat.to_uint n).

Fixpoint zeros (k : nat) : string :=
  match k with
  | O => EmptyString
  | S k' => String "0"%char (zeros k')
  end.

(** [f"{n:0{width}d}"]: zero-padded on the left up to [width]. *)
Definition zfill (width : nat) (s : string) : string :=
  (zeros (width - String.length s) +:+ s)%string.

(** ** Lists as Python uses them *)

(** [l[i]] for an index [i >= 0]. *)
Definition getitem {A} (l : list A) (i : nat) : result A :=
  match l !! i with
  | Some x => Ok x
  | None => Raise IndexError
  end.

(** [l[i] = x] for an index [i >= 0]. *)
Definition setitem {A} (l : list A) (i : nat) (x : A) : result (list A) :=
  if decide (i < length l) then Ok (<[i:=x]> l) else Raise IndexError.

(** [[l[i] for i in idx]]. *)
Fixpoint getitems {A} (l : list A) (idx : list nat) : result (list A) :=
  match idx with
  | [] => Ok []
  | i :: idx' =>
      match getitem l i with
      | Ok x =>
          match getitems l idx' with
          | Ok xs => Ok (x :: xs)
          | Raise e => Raise e
          end
      | Raise e => Raise e
      end
  end.

(** [l[a:b]] for [0 <= a <= b]: out-of-range bounds are clipped. *)
Definition slice {A} (l : list A) (a b : nat) : list A := take (b - a) (drop a l).

(** ** Data frames and the bronze directory *)

(** A [polars.DataFrame]: its columns by name, in order. *)
Definition DataFrame : Type := list (string * list value).

Definition height (df : DataFrame) : nat :=
  match df with
  | [] => 0
  | (_, c) :: _ => length c
  end.

Fixpoint lookup_column (df : DataFrame) (name : string) : option (list value) :=
  match df with
  | [] => None
  | (n, c) :: df' => if decide (n = name) then Some c else lookup_column df' name
  end.

(** [df[name].to_list()]. *)
Definition column (df : DataFrame) (name : string) : result (list value) :=
  match lookup_column df name with
  | Some c => Ok c
  | None => Raise (ColumnNotFoundError name)
  end.

(** [df.with_columns(pl.Series(name, c))]: replaces the column in place
    when the name exists, appends it otherwise. *)
Fixpoint with_column (name : string) (c : list value) (df : DataFrame) : DataFrame :=
  match df with
  | [] => [(name, c)]
  | (n, c') :: df' =>
      if decide (n = name) then (n, c) :: df' else (n, c') :: with_column name c df'
  end.

Definition with_columns (cs : list (string * list value)) (df : DataFrame) : DataFrame :=
  foldl (λ d nc, with_column nc.1 nc.2 d) df cs.

(** The directory [data/bronze]: parquet files by name. *)
Abbreviation bronze_dir := (gmap string DataFrame).

Definition read_parquet (fs : bronze_dir) (name : string) : result DataFrame :=
  match fs !! name with
  | Some df => Ok df
  | None => Raise (FileNotFoundError name)
  end.

Definition write_parquet (name : string) (df : DataFrame) (fs : bronze_dir) : bronze_dir :=
  <[name := df]> fs.

(** ** The random module *)

(** The generator behind Python's [random] module, by the operations the
    stages call.  [randbelow] and [random] are the two primitives of
    [random.Random]; [sample_indices n k] is the list of positions that
    [random.sample] picks in a population of [n] elements.  The laws are
    the documented contract: a draw below [n] is below [n], and a sample
    holds [k] distinct positions. *)
Class PyRandom (G : Type) : Type := {
  seed : Z → G;
  randbelow : nat → G → nat * G;
  random : G → float * G;
  sample_indices : nat → nat → G → list nat * G;
  randbelow_lt : ∀ n g, 0 < n → (randbelow n g).1 < n;
  sample_indices_length : ∀ n k g, k ≤ n → length (sample_indices n k g).1 = k;
  sample_indices_lt : ∀ n k g i, k ≤ n → i ∈ (sample_indices n k g).1 → i < n;
  sample_indices_NoDup : ∀ n k g, k ≤ n → NoDup (sample_indices n k g).1;
}.

(** The monad of a stage: the generator state goes in, a value and the
    next state come out, unless an exception ends the run. *)
Definition M (G A : Type) : Type := G → result (A * G).

#[global] Instance M_ret {G} : MRet (M G) := λ A a g, Ok (a, g).
#[global] Instance M_bind {G} : MBind (M G) := λ A B f m g,
  match m g with
  | Ok (a, g') => f a g'
  | Raise e => Raise e
  end.

Definition raise {G A} (e : exn) : M G A := λ _, Raise e.

Definition lift {G A} (r : result A) : M G A := λ g,
  match r with
  | Ok a => Ok (a, g)
  | Raise e => Raise e
  end.

Definition draw {G A} (f : G → A * G) : M G A := λ g, Ok (f g).

(** [for x in l: acc = body(acc, x)]. *)
Fixpoint for_each {G A B} (l : list B) (body : A → B → M G A) (acc : A) : M G A :=
  match l with
  | [] => mret acc
  | x :: l' => acc' ← body acc x; for_each l' body acc'
  end.

(** [[f() for _ in range(n)]]. *)
Fixpoint repeatM {G A} (n : nat) (f : M G A) : M G (list A) :=
  match n with
  | O => mret []
  | S n' => x ← f; xs ← repeatM n' f; mret (x :: xs)
  end.

Section Random.
Context `{PyRandom G}.

(** [random.seed(s)]: whatever the generator held is forgotten. *)
Definition random_seed (s : Z) : M G () := λ _, Ok ((), seed s).

(** [random.randrange(n)]. *)
Definition randrange (n : nat) : M G nat :=
  if decide (0 < n) then draw (randbelow n)
  else raise (ValueError "empty range for randrange()").

(** [random.randint(a, b)], both ends included. *)
Definition randint (a b : Z) : M G Z :=
  if decide (a ≤ b)%Z then
    j ← draw (randbelow (Z.to_nat (b - a + 1)));
    mret (a + Z.of_nat j)%Z
  else raise (ValueError "empty range for randrange()").

(** [random.choice(seq)]. *)
Definition choice {A} (l : list A) : M G A :=
  match l with
  | [] => raise IndexError
  | _ :: _ => j ← draw (randbelow (length l)); lift (getitem l j)
  end.

(** [random.uniform(a, b)]. *)
Definition uniform (a b : float) : M G float :=
  u ← draw random; mret (a + (b - a) * u)%float.

(** [x[i], x[j] = x[j], x[i]]. *)
Definition swap {A} (l : list A) (i j : nat) : list A :=
  match l !! i, l !! j with
  | Some a, Some b => <[j:=a]> (<[i:=b]> l)
  | _, _ => l
  end.

(** [random.shuffle(x)]: for [i] from [len(x) - 1] down to [1], swap
    position [i] with a position drawn below [i + 1]. *)
Fixpoint shuffle_from {A} (i : nat) (l : list A) : M G (list A) :=
  match i with
  | O => mret l
  | S i' => j ← draw (randbelow (S (S i'))); shuffle_from i' (swap l (S i') j)
  end.

Definition shuffle {A} (l : list A) : M G (list A) :=
  shuffle_from (length l - 1) l.

(** [random.sample(population, k)] for [k >= 0]. *)
Definition sample {A} (l : list A) (k : nat) : M G (list A) :=
  if decide (k ≤ length l) then
    idx ← draw (sample_indices (length l) k);
    lift (getitems l idx)
  else raise (ValueError "Sample larger than population or is negative").
End Random.

(** [result] is a monad too: the pure steps that may raise. *)
#[global] Instance result_ret : MRet result := λ A a, Ok a.
#[global] Instance result_bind : MBind result := λ A B f r,
  match r with
  | Ok a => f a
  | Raise e => Raise e
  end.

(** ** Ring Injector: [inject_fraud_rings.py] *)

Module inject_fraud_rings.

(** [RingConfig].  [n_rings] and the two ring sizes are counts and are
    taken in [nat]: a negative ring size is no configuration of the
    stage. *)
Record RingConfig : Type := {
  ring_seed : Z;
  n_rings : nat;
  ring_size_min : nat;
  ring_size_max : nat;
  fraud_tx_share : float;
  shared_device_prob : float;
  shared_ip_prob : float;
  shared_card_prob : float;
  shared_address_prob : float;
  burst_hours_window : Z;
}.

(** [RingConfig()], the defaults of the dataclass. *)
Definition default_config : RingConfig := {|
  ring_seed := 42;
  n_rings := 12;
  ring_size_min := 6;
  ring_size_max := 20;
  fraud_tx_share := 0.08;
  shared_device_prob := 0.70;
  shared_ip_prob := 0.55;
  shared_card_prob := 0.35;
  shared_address_prob := 0.45;
  burst_hours_window := 48;
|}.

Definition _choose_hot {A} (pool : list A) (k : Z) : list A :=
  let k := Z.max 1 (Z.min k (Z.of_nat (length pool))) in
  take (Z.to_nat k) pool.

(** [max(lo, int(len(pool) * frac))], the size asked of [_choose_hot]. *)
Definition hot_size (lo : Z) (frac : float) (pool : list value) : result Z :=
  k ← py_int (float_of_nat (length pool) * frac)%float; mret (Z.max lo k).

(** [n_fraud = int(n_total * cfg.fraud_tx_share)]. *)
Definition fraud_count (cfg : RingConfig) (n_total : nat) : result Z :=
  py_int (float_of_nat n_total * fraud_tx_share cfg)%float.

(** The entry of [ring_shared] for one ring. *)
Record shared_infra : Type := {
  sh_device : value;
  sh_ip : value;
  sh_card : value;
  sh_addr : value;
}.

(** The six columns the coercion loop mutates by index. *)
Record tx_lists : Type := {
  tx_person : list value;
  tx_ts : list value;
  tx_device : list value;
  tx_ip : list value;
  tx_card : list value;
  tx_addr : list value;
}.

(** Everything [main] computes before it writes the table back. *)
Record injection : Type := {
  shuffled : list value;
  rings : list (list value);
  fraud_idx : list nat;
  ring_shared : list shared_infra;
  anchor_times : list value;
  tx_out : DataFrame;
}.

(** [is_fraud = [0] * n_total], then [is_fraud[idx] = 1] for every
    selected index. *)
Fixpoint mark_fraud (is_fraud : list value) (idxs : list nat) : result (list value) :=
  match idxs with
  | [] => Ok is_fraud
  | idx :: idxs' => l ← setitem is_fraud idx (VInt 1); mark_fraud l idxs'
  end.

Section WithRandom.
Context `{PyRandom G}.

(** The ring-membership loop: [n] iterations are left, [rings] and
    [cursor] are the loop's two variables.  The [break] returns the
    rings built so far. *)
Fixpoint build_rings (cfg : RingConfig) (person_ids : list value) (n : nat)
    (rings : list (list value)) (cursor : nat) : M G (list (list value)) :=
  match n with
  | O => mret rings
  | S n' =>
      size ← randint (Z.of_nat (ring_size_min cfg)) (Z.of_nat (ring_size_max cfg));
      let size := Z.to_nat size in
      if decide (length person_ids < cursor + size) then mret rings
      else build_rings cfg person_ids n'
             (rings ++ [slice person_ids cursor (cursor + size)]) (cursor + size)
  end.

(** [if random.random() < p: l[idx] = x]. *)
Definition overwrite_with_prob (p : float) (l : list value) (idx : nat) (x : value)
    : M G (list value) :=
  u ← draw random;
  if PrimFloat.ltb u p then lift (setitem l idx x) else mret l.

(** The body of [for idx in fraud_idx]. *)
Definition coerce (cfg : RingConfig) (rings : list (list value))
    (ring_shared : list shared_infra) (anchor_times : list value)
    (st : tx_lists) (idx : nat) : M G tx_lists :=
  r_i ← randrange (length rings);
  ring_members ← lift (getitem rings r_i);
  shared ← lift (getitem ring_shared r_i);
  anchor ← lift (getitem anchor_times r_i);
  member ← choice ring_members;
  person' ← lift (setitem (tx_person st) idx member);
  h ← randint (- burst_hours_window cfg) (burst_hours_window cfg);
  jitter ← lift (timedelta_hours h);
  t ← lift (datetime_add anchor jitter);
  ts' ← lift (setitem (tx_ts st) idx t);
  device' ← overwrite_with_prob (shared_device_prob cfg) (tx_device st) idx (sh_device shared);
  ip' ← overwrite_with_prob (shared_ip_prob cfg) (tx_ip st) idx (sh_ip shared);
  card' ← overwrite_with_prob (shared_card_prob cfg) (tx_card st) idx (sh_card shared);
  addr' ← overwrite_with_prob (shared_address_prob cfg) (tx_addr st) idx (sh_addr shared);
  mret {| tx_person := person'; tx_ts := ts'; tx_device := device';
          tx_ip := ip'; tx_card := card'; tx_addr := addr' |}.

(** The body of [for _ in rings]: one hot representative per kind. *)
Definition choose_shared (hot_devices hot_ips hot_cards hot_addrs : list value)
    : M G shared_infra :=
  d ← choice hot_devices;
  i ← choice hot_ips;
  c ← choice hot_cards;
  a ← choice hot_addrs;
  mret {| sh_device := d; sh_ip := i; sh_card := c; sh_addr := a |}.

(** Choosing ring membership: the shuffle, the loop, and the check
    that follows it.  Returns the shuffled ids with the rings. *)
Definition ring_membership (cfg : RingConfig) (person_ids : list value)
    : M G (list value * list (list value)) :=
  person_ids ← shuffle person_ids;
  rings ← build_rings cfg person_ids (n_rings cfg) [] 0;
  if decide (rings = []) then
    raise (RuntimeError "No rings created; increase n_people or reduce ring sizes.")
  else mret (person_ids, rings).

(** Picking the rows to modify: [n_fraud] must be positive, and at
    most [n_total] rows are asked of [random.sample]. *)
Definition pick_fraud_idx (cfg : RingConfig) (n_total : nat) : M G (list nat) :=
  n_fraud ← lift (fraud_count cfg n_total);
  if decide (n_fraud ≤ 0)%Z then
    raise (ValueError "fraud_tx_share too small; yields 0 fraud transactions.")
  else sample (seq 0 n_total) (Z.to_nat (Z.min n_fraud (Z.of_nat n_total))).

(** [main], from the shuffle to the table it writes. *)
Definition inject (cfg : RingConfig) (people tx : DataFrame)
    (devices ips cards addrs : list value) : M G injection :=
  person_ids ← lift (column people "person_id");
  '(person_ids, rings) ← ring_membership cfg person_ids;
  let n_total := height tx in
  fraud_idx ← pick_fraud_idx cfg n_total;
  tx_person ← lift (column tx "person_id");
  tx_ts ← lift (column tx "ts");
  tx_device ← lift (column tx "device_id");
  tx_ip ← lift (column tx "ip");
  tx_card ← lift (column tx "card_hash");
  tx_addr ← lift (column tx "address_hash");
  k_devices ← lift (hot_size 30 0.03 devices);
  let hot_devices := _choose_hot devices k_devices in
  k_ips ← lift (hot_size 40 0.04 ips);
  let hot_ips := _choose_hot ips k_ips in
  k_cards ← lift (hot_size 30 0.03 cards);
  let hot_cards := _choose_hot cards k_cards in
  k_addrs ← lift (hot_size 25 0.03 addrs);
  let hot_addrs := _choose_hot addrs k_addrs in
  ring_shared ← repeatM (length rings) (choose_shared hot_devices hot_ips hot_cards hot_addrs);
  anchor_times ← sample tx_ts (length rings);
  st ← for_each fraud_idx (coerce cfg rings ring_shared anchor_times)
         {| tx_person := tx_person; tx_ts := tx_ts; tx_device := tx_device;
            tx_ip := tx_ip; tx_card := tx_card; tx_addr := tx_addr |};
  is_fraud ← lift (mark_fraud (replicate n_total (VInt 0)) fraud_idx);
  mret {| shuffled := person_ids; rings := rings; fraud_idx := fraud_idx;
          ring_shared := ring_shared; anchor_times := anchor_times;
          tx_out := with_columns
            [("person_id", inject_fraud_rings.tx_person st);
             ("ts", inject_fraud_rings.tx_ts st);
             ("device_id", inject_fraud_rings.tx_device st);
             ("ip", inject_fraud_rings.tx_ip st);
             ("card_hash", inject_fraud_rings.tx_card st);
             ("address_hash", inject_fraud_rings.tx_addr st);
             ("is_fraud", is_fraud)] tx |}.

Definition main (cfg : RingConfig) (fs : bronze_dir) : M G bronze_dir :=
  random_seed (ring_seed cfg);;
  people ← lift (read_parquet fs "people.parquet");
  tx ← lift (read_parquet fs "transactions.parquet");
  devices ← lift (df ← read_parquet fs "devices.parquet"; column df "device_id");
  ips ← lift (df ← read_parquet fs "ips.parquet"; column df "ip");
  cards ← lift (df ← read_parquet fs "cards.parquet"; column df "card_hash");
  addrs ← lift (df ← read_parquet fs "addresses.parquet"; column df "address_hash");
  r ← inject cfg people tx devices ips cards addrs;
  mret (write_parquet "transactions.parquet" (tx_out r) fs).
End WithRandom.
End inject_fraud_rings.

(** ** Entity Generator: [generate_bronze.py] *)

Module generate_bronze.

Record SimConfig : Type := {
  sim_seed : Z;
  n_people : nat;
  n_merchants : nat;
  n_transactions : nat;
}.

(** [SimConfig()]. *)
Definition default_config : SimConfig := {|
  sim_seed := 42;
  n_people := 2000;
  n_merchants := 120;
  n_transactions := 50000;
|}.

(** [datetime(2024, 1, 1, tzinfo=utc)] and [datetime(2025, 1, 1, tzinfo=utc)]. *)
Definition created_at : value := VTime (1704067200 * 1000000).
Definition start : value := VTime (1735689600 * 1000000).

Definition mccs : list value :=
  [VStr "5411"; VStr "5812"; VStr "5999"; VStr "5732"; VStr "4111"; VStr "4814";
   VStr "6011"].

Definition generate_people (cfg : SimConfig) : DataFrame :=
  [("person_id", (λ idx, VStr ("P" +:+ zfill 6 (decimal idx))) <$> seq 0 (n_people cfg));
   ("created_at", replicate (n_people cfg) created_at)].

Definition write_bronze (people merchants tx : DataFrame) (fs : bronze_dir) : bronze_dir :=
  write_parquet "transactions.parquet" tx
    (write_parquet "merchants.parquet" merchants
       (write_parquet "people.parquet" people fs)).

Section WithRandom.
Context `{PyRandom G}.

Definition generate_merchants (cfg : SimConfig) : M G DataFrame :=
  mcc ← repeatM (n_merchants cfg) (choice mccs);
  mret [("merchant_id",
         (λ idx, VStr ("M" +:+ zfill 5 (decimal idx))) <$> seq 0 (n_merchants cfg));
        ("mcc", mcc);
        ("country", replicate (n_merchants cfg) (VStr "GB"))].

Definition generate_transactions (cfg : SimConfig) (people merchants : DataFrame)
    : M G DataFrame :=
  person_ids ← lift (column people "person_id");
  merchant_ids ← lift (column merchants "merchant_id");
  let tx_ids :=
    (λ idx, VStr ("T" +:+ zfill 8 (decimal idx))) <$> seq 0 (n_transactions cfg) in
  ts ← repeatM (n_transactions cfg)
         (s ← randint 0 (60 * 60 * 24 * 30);
          delta ← lift (timedelta_seconds s);
          lift (datetime_add start delta));
  amounts ← repeatM (n_transactions cfg)
              (x ← uniform 1.5 400.0; mret (VFloat (py_round2 x)));
  tx_person ← repeatM (n_transactions cfg) (choice person_ids);
  tx_merchant ← repeatM (n_transactions cfg) (choice merchant_ids);
  mret [("tx_id", tx_ids);
        ("ts", ts);
        ("amount", amounts);
        ("currency", replicate (n_transactions cfg) (VStr "GBP"));
        ("person_id", tx_person);
        ("merchant_id", tx_merchant)].

Definition main (cfg : SimConfig) (fs : bronze_dir) : M G bronze_dir :=
  random_seed (sim_seed cfg);;
  let people := generate_people cfg in
  merchants ← generate_merchants cfg;
  tx ← generate_transactions cfg people merchants;
  mret (write_bronze people merchants tx fs).
End WithRandom.
End generate_bronze.

(** ** Reuse Sampler: [enrich_infrastructure.py] *)

Module enrich_infrastructure.

Record InfraConfig : Type := {
  infra_seed : Z;
  n_devices : nat;
  n_ips : nat;
  n_cards : nat;
  n_addresses : nat;
  reuse_strength : float;
}.

(** [InfraConfig()]. *)
Definition default_config : InfraConfig := {|
  infra_seed := 42;
  n_devices := 2500;
  n_ips := 1800;
  n_cards := 2200;
  n_addresses := 1600;
  reuse_strength := 0.25;
|}.

Definition _make_ids (prefix : string) (n width : nat) : list value :=
  (λ i, VStr (prefix +:+ zfill width (decimal i))) <$> seq 0 n.

(** [hot_k = max(10, int(len(pool) * max(0.02, min(0.2, reuse_strength))))]. *)
Definition hot_k (n : nat) (reuse_strength : float) : result Z :=
  k ← py_int (float_of_nat n * py_max 0.02 (py_min 0.2 reuse_strength))%float;
  mret (Z.max 10 k).

Section WithRandom.
Context `{PyRandom G}.

(** [str(random.randint(a, b))] inside the f-strings. *)
Definition octet (a b : Z) : M G string :=
  z ← randint a b; mret (decimal (Z.to_nat z)).

Definition _random_ipv4 : M G value :=
  a ← choice [10; 172; 192]%Z;
  if decide (a = 10)%Z then
    b ← octet 0 255; c ← octet 0 255; d ← octet 1 254;
    mret (VStr ("10." +:+ b +:+ "." +:+ c +:+ "." +:+ d))
  else if decide (a = 172)%Z then
    b ← octet 16 31; c ← octet 0 255; d ← octet 1 254;
    mret (VStr ("172." +:+ b +:+ "." +:+ c +:+ "." +:+ d))
  else
    c ← octet 0 255; d ← octet 1 254;
    mret (VStr ("192.168." +:+ c +:+ "." +:+ d)).

(** The body of the sampling loop: one draw decides between the hot
    slice and the whole pool, a second picks the value. *)
Definition sample_one {A} (hot pool : list A) (reuse_strength : float) : M G A :=
  u ← draw random;
  if PrimFloat.ltb u reuse_strength then choice hot else choice pool.

Definition _sample_with_reuse {A} (pool : list A) (n : nat) (reuse_strength : float)
    : M G (list A) :=
  match pool with
  | [] => raise (ValueError "empty pool")
  | _ :: _ =>
      k ← lift (hot_k (length pool) reuse_strength);
      let hot := take (Z.to_nat k) pool in
      for_each (seq 0 n)
        (λ out _, x ← sample_one hot pool reuse_strength; mret (out ++ [x])) []
  end.

Definition main (cfg : InfraConfig) (fs : bronze_dir) : M G bronze_dir :=
  random_seed (infra_seed cfg);;
  tx ← lift (match fs !! "transactions.parquet" with
             | Some df => Ok df
             | None => Raise (FileNotFoundError
                 "Expected data/bronze/transactions.parquet to exist. Run generate_bronze first.")
             end);
  let device_ids := _make_ids "D" (n_devices cfg) 7 in
  ip_values ← repeatM (n_ips cfg) _random_ipv4;
  let card_hashes := _make_ids "C" (n_cards cfg) 8 in
  let address_hashes := _make_ids "A" (n_addresses cfg) 7 in
  let devices : DataFrame :=
    [("device_id", device_ids);
     ("device_type", replicate (n_devices cfg) (VStr "mobile"))] in
  let ips : DataFrame := [("ip", ip_values)] in
  let cards : DataFrame := [("card_hash", card_hashes)] in
  let addresses : DataFrame :=
    [("address_hash", address_hashes);
     ("postcode", replicate (n_addresses cfg) (VStr "UK"))] in
  let n := height tx in
  tx_device ← _sample_with_reuse device_ids n (reuse_strength cfg);
  tx_ip ← _sample_with_reuse ip_values n (reuse_strength cfg);
  tx_card ← _sample_with_reuse card_hashes n (reuse_strength cfg);
  tx_addr ← _sample_with_reuse address_hashes n (reuse_strength cfg);
  let tx_enriched :=
    with_columns [("device_id", tx_device); ("ip", tx_ip);
                  ("card_hash", tx_card); ("address_hash", tx_addr)] tx in
  mret (write_parquet "transactions.parquet" tx_enriched
          (write_parquet "addresses.parquet" addresses
             (write_parquet "cards.parquet" cards
                (write_parquet "ips.parquet" ips
                   (write_parquet "devices.parquet" devices fs))))).
End WithRandom.
End enrich_infrastructure.

(** ** The three generation stages, one after the other *)

Section Pipeline.
Context `{PyRandom G}.

Definition pipeline (sim : generate_bronze.SimConfig)
    (infra : enrich_infrastructure.InfraConfig)
    (ring : inject_fraud_rings.RingConfig) (fs : bronze_dir) : M G bronze_dir :=
  fs1 ← generate_bronze.main sim fs;
  fs2 ← enrich_infrastructure.main infra fs1;
  inject_fraud_rings.main ring fs2.
End Pipeline.

(** ** Graph Loader: [load_bronze.py] *)

Module load_bronze.

(** [chunked(seq, size)] for [size > 0]: the slices [seq[i : i + size]]
    for [i = 0, size, 2 * size, ...]. *)
Fixpoint chunked_from {A} (fuel : nat) (seq : list A) (size : nat) : list (list A) :=
  match fuel with
  | O => []
  | S fuel' =>
      match seq with
      | [] => []
      | _ :: _ => take size seq :: chunked_from fuel' (drop size seq) size
      end
  end.

Definition chunked {A} (seq : list A) (size : nat) : list (list A) :=
  chunked_from (length seq) seq size.

(** *** The property graph *)

Inductive label : Type :=
| Person | Merchant | Device | IP | Card | Address | Transaction.

Inductive rel_type : Type :=
| MADE | TO_MERCHANT | USED_DEVICE | FROM_IP | PAID_WITH | BILLED_TO.

#[global] Instance label_eq_dec : EqDecision label.
Proof. solve_decision. Defined.
#[global] Instance rel_type_eq_dec : EqDecision rel_type.
Proof. solve_decision. Defined.

(** A node is addressed by its label and the value of the label's key
    property ([person_id] for [Person], [tx_id] for [Transaction], ...):
    the uniqueness constraints of the schema make the pair the node's
    identity.  [n_props] are its other properties. *)
Definition node_id : Type := label * value.

Record node : Type := {
  n_id : node_id;
  n_props : list (string * value);
}.

Record rel : Type := {
  r_type : rel_type;
  r_src : node_id;
  r_dst : node_id;
}.

#[global] Instance rel_eq_dec : EqDecision rel.
Proof. solve_decision. Defined.

(** The store keeps its nodes and relationships in creation order. *)
Record graph : Type := {
  nodes : list node;
  rels : list rel;
}.

Definition empty_graph : graph := {| nodes := []; rels := [] |}.

Definition node_ids (g : graph) : list node_id := n_id <$> nodes g.

(** *** The clauses the queries are made of *)

(** [MERGE (:L {key: k})]: match the node or create it. *)
Definition merge_node (i : node_id) (g : graph) : graph :=
  if decide (i ∈ node_ids g) then g
  else {| nodes := nodes g ++ [{| n_id := i; n_props := [] |}]; rels := rels g |}.

(** [SET n.name = v] on one property list. *)
Fixpoint set_prop (name : string) (v : value) (ps : list (string * value))
    : list (string * value) :=
  match ps with
  | [] => [(name, v)]
  | (n, v') :: ps' =>
      if decide (n = name) then (n, v) :: ps' else (n, v') :: set_prop name v ps'
  end.

(** [SET n.a = .., n.b = ..] on the nodes matched as [i]. *)
Definition set_props (i : node_id) (assignments : list (string * value)) (g : graph)
    : graph :=
  {| nodes :=
       (λ n, if decide (n_id n = i)
             then {| n_id := n_id n;
                     n_props := foldl (λ ps a, set_prop a.1 a.2 ps) (n_props n) assignments |}
             else n) <$> nodes g;
     rels := rels g |}.

(** [MERGE (a)-[:T]->(b)] for two matched nodes: create the
    relationship unless it exists. *)
Definition merge_rel (r : rel) (g : graph) : graph :=
  if decide (r ∈ rels g) then g
  else {| nodes := nodes g; rels := rels g ++ [r] |}.

(** *** Rows: what [select([...]).to_dicts()] returns *)

(** A row of an entity table: its key and the properties its query sets. *)
Record entity_row : Type := {
  e_key : value;
  e_attrs : list (string * value);
}.

Record tx_row : Type := {
  r_tx_id : value;
  r_ts : value;
  r_amount : value;
  r_currency : value;
  r_person_id : value;
  r_merchant_id : value;
  r_device_id : value;
  r_ip : value;
  r_card_hash : value;
  r_address_hash : value;
  r_is_fraud : value;
}.

(** Rows of a table with a key column only. *)
Definition key_rows (df : DataFrame) (key : string) : result (list entity_row) :=
  ks ← column df key;
  mret (map (λ k, {| e_key := k; e_attrs := [] |}) ks).

(** Rows of a table with a key column and the listed attribute columns. *)
Fixpoint attr_rows (df : DataFrame) (rows : list entity_row) (attrs : list string)
    : result (list entity_row) :=
  match attrs with
  | [] => Ok rows
  | a :: attrs' =>
      c ← column df a;
      attr_rows df
        (zip_with (λ r v, {| e_key := e_key r; e_attrs := e_attrs r ++ [(a, v)] |}) rows c)
        attrs'
  end.

Definition entity_rows (df : DataFrame) (key : string) (attrs : list string)
    : result (list entity_row) :=
  rows ← key_rows df key; attr_rows df rows attrs.

Definition tx_row_at (c : list (list value)) (i : nat) : option tx_row :=
  match (λ col, col !! i) <$> c with
  | [Some a1; Some a2; Some a3; Some a4; Some a5; Some a6; Some a7; Some a8; Some a9;
     Some a10; Some a11] =>
      Some {| r_tx_id := a1; r_ts := a2; r_amount := a3; r_currency := a4;
              r_person_id := a5; r_merchant_id := a6; r_device_id := a7; r_ip := a8;
              r_card_hash := a9; r_address_hash := a10; r_is_fraud := a11 |}
  | _ => None
  end.

Fixpoint columns (df : DataFrame) (names : list string) : result (list (list value)) :=
  match names with
  | [] => Ok []
  | n :: names' => c ← column df n; cs ← columns df names'; mret (c :: cs)
  end.

Definition tx_rows (df : DataFrame) : result (list tx_row) :=
  cs ← columns df ["tx_id"; "ts"; "amount"; "currency"; "person_id"; "merchant_id";
                   "device_id"; "ip"; "card_hash"; "address_hash"; "is_fraud"];
  mret (omap (tx_row_at cs) (seq 0 (height df))).

(** *** The queries *)

(** [UNWIND $rows AS r  MERGE (n:L {key: r.key})  SET n.a = r.a, ...]:
    each clause runs over all rows of the batch before the next one
    starts. *)
Definition node_query (l : label) (batch : list entity_row) (g : graph) : graph :=
  let g1 := foldl (λ g r, merge_node (l, e_key r) g) g batch in
  foldl (λ g r, set_props (l, e_key r) (e_attrs r) g) g1 batch.

(** Cypher's [datetime()], [toFloat()] and [toInteger()] on the cells
    the bronze tables hold. *)
Definition cy_datetime (v : value) : value := v.
Definition cy_toFloat (v : value) : value :=
  match v with
  | VInt z => VFloat (float_of_Z z)
  | _ => v
  end.
Definition cy_toInteger (v : value) : value :=
  match v with
  | VFloat f => match py_int f with Ok z => VInt z | Raise _ => v end
  | _ => v
  end.

Definition tx_node (r : tx_row) : node_id := (Transaction, r_tx_id r).

(** The six nodes the [MATCH] clause of [tx_query] looks for. *)
Definition referenced (r : tx_row) : list node_id :=
  [(Person, r_person_id r); (Merchant, r_merchant_id r); (Device, r_device_id r);
   (IP, r_ip r); (Card, r_card_hash r); (Address, r_address_hash r)].

(** [MATCH (p:Person {..}), (m:Merchant {..}), ...]: a row goes on only
    if all six nodes exist; otherwise it is dropped. *)
Definition matches (g : graph) (r : tx_row) : Prop :=
  Forall (λ i, i ∈ node_ids g) (referenced r).

#[global] Instance matches_dec g r : Decision (matches g r).
Proof. unfold matches. apply _. Defined.

Definition made (r : tx_row) : rel :=
  {| r_type := MADE; r_src := (Person, r_person_id r); r_dst := tx_node r |}.
Definition to_merchant (r : tx_row) : rel :=
  {| r_type := TO_MERCHANT; r_src := tx_node r; r_dst := (Merchant, r_merchant_id r) |}.
Definition used_device (r : tx_row) : rel :=
  {| r_type := USED_DEVICE; r_src := tx_node r; r_dst := (Device, r_device_id r) |}.
Definition from_ip (r : tx_row) : rel :=
  {| r_type := FROM_IP; r_src := tx_node r; r_dst := (IP, r_ip r) |}.
Definition paid_with (r : tx_row) : rel :=
  {| r_type := PAID_WITH; r_src := tx_node r; r_dst := (Card, r_card_hash r) |}.
Definition billed_to (r : tx_row) : rel :=
  {| r_type := BILLED_TO; r_src := tx_node r; r_dst := (Address, r_address_hash r) |}.

(** The six relationships of a transaction row. *)
Definition six_rels (r : tx_row) : list rel :=
  [made r; to_merchant r; used_device r; from_ip r; paid_with r; billed_to r].

(** One [MERGE (a)-[:T]->(b)] clause over the rows that are left. *)
Definition rel_clause (f : tx_row → rel) (rows : list tx_row) (g : graph) : graph :=
  foldl (λ g r, merge_rel (f r) g) g rows.

(** [tx_query], clause by clause. *)
Definition tx_query (batch : list tx_row) (g : graph) : graph :=
  let g1 := foldl (λ g r, merge_node (tx_node r) g) g batch in
  let g2 := foldl (λ g r, set_props (tx_node r)
              [("ts", cy_datetime (r_ts r));
               ("amount", cy_toFloat (r_amount r));
               ("currency", r_currency r);
               ("is_fraud", cy_toInteger (r_is_fraud r))] g) g1 batch in
  let rows := filter (matches g2) batch in
  rel_clause billed_to rows
    (rel_clause paid_with rows
       (rel_clause from_ip rows
          (rel_clause used_device rows
             (rel_clause to_merchant rows
                (rel_clause made rows g2))))).

(** [merge_nodes(query, rows, batch_size)]. *)
Definition merge_nodes (query : list entity_row → graph → graph)
    (rows : list entity_row) (batch_size : nat) (g : graph) : graph :=
  foldl (λ g batch, query batch g) g (chunked rows batch_size).

(** The seven lists of rows [main] extracts from the bronze tables. *)
Record tables : Type := {
  people_rows : list entity_row;
  merchant_rows : list entity_row;
  device_rows : list entity_row;
  ip_rows : list entity_row;
  card_rows : list entity_row;
  addr_rows : list entity_row;
  transaction_rows : list tx_row;
}.

(** Phase 1: the six node upserts, in the order of [main]. *)
Definition load_nodes (t : tables) (g : graph) : graph :=
  let g := merge_nodes (node_query Person) (people_rows t) 5000 g in
  let g := merge_nodes (node_query Merchant) (merchant_rows t) 5000 g in
  let g := merge_nodes (node_query Device) (device_rows t) 5000 g in
  let g := merge_nodes (node_query IP) (ip_rows t) 5000 g in
  let g := merge_nodes (node_query Card) (card_rows t) 5000 g in
  merge_nodes (node_query Address) (addr_rows t) 5000 g.

(** Phase 2: [for batch in chunked(tx_rows, 1500): session.run(tx_query, rows=batch)]. *)
Definition load_transactions (rows : list tx_row) (g : graph) : graph :=
  foldl (λ g batch, tx_query batch g) g (chunked rows 1500).

(** The session of [main]: both phases against the store [g]. *)
Definition load (t : tables) (g : graph) : graph :=
  load_transactions (transaction_rows t) (load_nodes t g).

Definition read_tables (fs : bronze_dir) : result tables :=
  people ← read_parquet fs "people.parquet";
  merchants ← read_parquet fs "merchants.parquet";
  devices ← read_parquet fs "devices.parquet";
  ips ← read_parquet fs "ips.parquet";
  cards ← read_parquet fs "cards.parquet";
  addrs ← read_parquet fs "addresses.parquet";
  tx ← read_parquet fs "transactions.parquet";
  people_rows ← entity_rows people "person_id" [];
  merchant_rows ← entity_rows merchants "merchant_id" ["mcc"; "country"];
  device_rows ← entity_rows devices "device_id" ["device_type"];
  ip_rows ← entity_rows ips "ip" [];
  card_rows ← entity_rows cards "card_hash" [];
  addr_rows ← entity_rows addrs "address_hash" ["postcode"];
  transaction_rows ← tx_rows tx;
  mret {| people_rows := people_rows; merchant_rows := merchant_rows;
          device_rows := device_rows; ip_rows := ip_rows; card_rows := card_rows;
          addr_rows := addr_rows; transaction_rows := transaction_rows |}.

(** [main] against the store [g]: the store it leaves, or the exception
    raised before the first write. *)
Definition main (fs : bronze_dir) (g : graph) : result graph :=
  t ← read_tables fs; mret (load t g).
End load_bronze.

(** ** The Cypher runner: [scripts/run_cypher.py] *)

Module run_cypher.
Section Text.
(** A text is the list of its characters; [isspace] is [str.isspace] on
    one character and [semi] the semicolon. *)
Context {char : Type} `{EqDecision char}.
Context (isspace : char → bool) (semi : char).
Implicit Types (c : char) (s p : list char).

(** [s.lstrip()], [s.rstrip()] and [s.strip()]. *)
Fixpoint lstrip s : list char :=
  match s with
  | [] => []
  | c :: s' => if isspace c then lstrip s' else s
  end.

Definition rstrip s : list char := reverse (lstrip (reverse s)).

Definition strip s : list char := rstrip (lstrip s).

(** [s.split(";")]: the pieces between the semicolons, one more than
    there are semicolons. *)
Fixpoint split s : list (list char) :=
  match s with
  | [] => [[]]
  | c :: s' =>
      if decide (c = semi) then [] :: split s'
      else match split s' with
           | p :: ps => (c :: p) :: ps
           | [] => [[c]]
           end
  end.

(** [split_statements(cypher)]. *)
Definition split_statements (cypher : list char) : list (list char) :=
  let parts := strip <$> split cypher in
  filter (λ p, p ≠ []) parts.

(** [";".join(statements)]. *)
Fixpoint join (statements : list (list char)) : list char :=
  match statements with
  | [] => []
  | [p] => p
  | p :: ps => p ++ semi :: join ps
  end.
End Text.

Section Runner.
Context {char : Type} `{EqDecision char}.
Context (isspace : char → bool) (semi : char).
(** [session.run(stmt).consume()] against the store, as one auto-commit
    transaction: the store it leaves, or the error it raises. *)
Context {db E : Type} (run : list char → db → E + db).

(** [read_cypher(path)]. *)
Definition read_cypher (fs : gmap string (list char)) (path : string)
    : option (list char) :=
  txt ← fs !! path; Some (strip isspace txt).

(** What [main] prints. *)
Inductive line : Type :=
| Usage
| FileNotFound (f : string)
| Header (f : string) (n : nat)
| ErrorIn (f : string) (i : nat) (stmt : list char)
| AllExecuted.

(** How [main] ends: with its return value, or with the exception that
    leaves it. *)
Inductive failure : Type :=
| Unreadable (f : string)
| Neo4jError (e : E).

Inductive outcome : Type :=
| Return (code : Z)
| Raised (e : failure).

(** [for i, stmt in enumerate(statements, start=i)]. *)
Fixpoint run_statements (f : string) (i : nat) (statements : list (list char)) (d : db)
    : option failure * db * list line :=
  match statements with
  | [] => (None, d, [])
  | stmt :: rest =>
      match run stmt d with
      | inl e => (Some (Neo4jError e), d, [ErrorIn f i stmt])
      | inr d' => run_statements f (S i) rest d'
      end
  end.

(** [for f in files] inside the session. *)
Fixpoint run_files (fs : gmap string (list char)) (files : list string) (d : db)
    : option failure * db * list line :=
  match files with
  | [] => (None, d, [])
  | f :: files' =>
      match read_cypher fs f with
      | None => (Some (Unreadable f), d, [])
      | Some cypher =>
          let statements := split_statements isspace semi cypher in
          match run_statements f 1 statements d with
          | (None, d', out) =>
              let '(r, d'', out') := run_files fs files' d' in
              (r, d'', Header f (length statements) :: out ++ out')
          | (Some e, d', out) => (Some e, d', Header f (length statements) :: out)
          end
      end
  end.

(** The first file of the command line that does not exist. *)
Fixpoint first_missing (fs : gmap string (list char)) (files : list string)
    : option string :=
  match files with
  | [] => None
  | f :: files' => if decide (fs !! f = None) then Some f else first_missing fs files'
  end.

(** [main()] for the command line [argv], the directory [fs] and the
    store [d]; [connect] is what [verify_connectivity] raises, if it
    does. *)
Definition main (argv : list string) (connect : option E)
    (fs : gmap string (list char)) (d : db) : outcome * db * list line :=
  match argv with
  | [] | [_] => (Return 2, d, [Usage])
  | _ :: files =>
      match first_missing fs files with
      | Some f => (Return 2, d, [FileNotFound f])
      | None =>
          match connect with
          | Some e => (Raised (Neo4jError e), d, [])
          | None =>
              match run_files fs files d with
              | (None, d', out) => (Return 0, d', out ++ [AllExecuted])
              | (Some e, d', out) => (Raised e, d', out)
              end
          end
      end
  end.
End Runner.
End run_cypher.

(** The statement list of [run_cypher_file] in [scripts/setup_neo4j.py]:
    [[s.strip() for s in text.split(";") if s.strip()]]. *)
Module setup_neo4j.
Section Text.
Context {char : Type} `{EqDecision char}.
Context (isspace : char → bool) (semi : char).

Definition statements (text : list char) : list (list char) :=
  run_cypher.strip isspace
    <$> filter (λ s, run_cypher.strip isspace s ≠ []) (run_cypher.split semi text).
End Text.
End setup_neo4j.

(** ** A concrete generator

    The counter generator: its state is a counter [c], a draw below [n] is
    [c mod n], and every draw advances the counter by one.  It meets the
    contract of [PyRandom], and its runs can be followed by hand. *)

Module CounterGen.

Definition randbelow (n : nat) (c : nat) : nat * nat := (c mod n, S c).

(** One of [0.0], [0.25], [0.5], [0.75]. *)
Definition random (c : nat) : float * nat :=
  ((float_of_nat (c mod 4) * 0.25)%float, S c).

(** [k] positions picked one after the other among those still free. *)
Fixpoint pick (k : nat) (free : list nat) (c : nat) : list nat * nat :=
  match k with
  | O => ([], c)
  | S k' =>
      let j := c mod length free in
      match free !! j with
      | Some x => let '(xs, c') := pick k' (delete j free) (S c) in (x :: xs, c')
      | None => ([], c)
      end
  end.

Definition sample_indices (n k : nat) (c : nat) : list nat * nat := pick k (seq 0 n) c.

End CounterGen.

(** * Properties *)

(** ** The counter generator meets the contract *)

Lemma pick_length k : ∀ free c, k ≤ length free → length (CounterGen.pick k free c).1 = k.
Proof.
  induction k as [|k IH]; intros free c Hk; simpl; [done|].
  assert (Hj : c mod length free < length free) by (apply Nat.mod_upper_bound; lia).
  destruct (lookup_lt_is_Some_2 _ _ Hj) as [x Hx]. rewrite Hx.
  specialize (IH (delete (c mod length free) free) (S c)).
  destruct (CounterGen.pick k _ _) as [xs c'] eqn:E. simpl in *.
  f_equal. apply IH. rewrite length_delete by eauto. lia.
Qed.

Lemma pick_elem_of k : ∀ free c x, x ∈ (CounterGen.pick k free c).1 → x ∈ free.
Proof.
  induction k as [|k IH]; intros free c x; simpl; [by intros ?%elem_of_nil|].
  destruct (free !! (c mod length free)) as [y|] eqn:Hy; [|by intros ?%elem_of_nil].
  specialize (IH (delete (c mod length free) free) (S c) x).
  destruct (CounterGen.pick k _ _) as [xs c'] eqn:E. simpl in *.
  intros [->|Hx]%elem_of_cons.
  - by eapply list_elem_of_lookup_2.
  - eapply list_elem_of_delete_inv; eauto.
Qed.

Lemma pick_NoDup k : ∀ free c, NoDup free → NoDup (CounterGen.pick k free c).1.
Proof.
  induction k as [|k IH]; intros free c Hnd; simpl; [constructor|].
  destruct (free !! (c mod length free)) as [y|] eqn:Hy; [|constructor].
  pose proof (delete_Permutation _ _ _ Hy) as Hp.
  rewrite Hp in Hnd. apply NoDup_cons in Hnd as [Hy' Hnd'].
  pose proof (IH (delete (c mod length free) free) (S c) Hnd') as IH'.
  pose proof (pick_elem_of k (delete (c mod length free) free) (S c)) as Hin.
  destruct (CounterGen.pick k _ _) as [xs c'] eqn:E. simpl in *.
  apply NoDup_cons. split; [|done]. intros Hx. by apply Hy', Hin.
Qed.

#[global] Program Instance counter_gen : PyRandom nat := {|
  seed := Z.abs_nat;
  randbelow := CounterGen.randbelow;
  random := CounterGen.random;
  sample_indices := CounterGen.sample_indices;
|}.
Next Obligation. intros n g Hn. simpl. apply Nat.mod_upper_bound. lia. Qed.
Next Obligation.
  intros n k g Hk. apply pick_length. by rewrite length_seq.
Qed.
Next Obligation.
  intros n k g i Hk Hi. apply pick_elem_of in Hi.
  apply elem_of_seq in Hi. lia.
Qed.
Next Obligation. intros n k g Hk. apply pick_NoDup, NoDup_seq. Qed.

(** ** Runs of the monad *)

Section Runs.
Context {G : Type}.
Implicit Types g : G.

Lemma bind_Ok {A B} (m : M G A) (f : A → M G B) g r :
  (m ≫= f) g = Ok r ↔ ∃ a g1, m g = Ok (a, g1) ∧ f a g1 = Ok r.
Proof.
  unfold mbind, M_bind. split.
  - destruct (m g) as [[a g1]|e]; [eauto|done].
  - intros (a & g1 & -> & Hf). done.
Qed.

Lemma bind_run {A B} (m : M G A) (f : A → M G B) g :
  (m ≫= f) g = match m g with Ok (a, g1) => f a g1 | Raise e => Raise e end.
Proof. done. Qed.

Lemma bind_Raise {A B} (m : M G A) (f : A → M G B) g e :
  m g = Raise e → (m ≫= f) g = Raise e.
Proof. unfold mbind, M_bind. by intros ->. Qed.

Lemma bind_step {A B} (m : M G A) (f : A → M G B) g a g1 :
  m g = Ok (a, g1) → (m ≫= f) g = f a g1.
Proof. unfold mbind, M_bind. by intros ->. Qed.

Lemma ret_Ok {A} (a : A) g r : mret (M := M G) a g = Ok r ↔ r = (a, g).
Proof. unfold mret, M_ret. naive_solver. Qed.

Lemma lift_Ok {A} (x : result A) g r : lift x g = Ok r ↔ ∃ a, x = Ok a ∧ r = (a, g).
Proof.
  unfold lift. destruct x as [a|e]; split.
  - intros [= <-]. eauto.
  - by intros (a' & [= <-] & ->).
  - done.
  - by intros (a' & [=] & _).
Qed.

Lemma draw_Ok {A} (f : G → A * G) g r : draw f g = Ok r ↔ r = f g.
Proof. unfold draw. naive_solver. Qed.

Lemma raise_Ok {A} e g (r : A * G) : raise e g = Ok r ↔ False.
Proof. unfold raise. split; [done|tauto]. Qed.

Lemma result_bind_Ok {A B} (x : result A) (f : A → result B) b :
  x ≫= f = Ok b ↔ ∃ a, x = Ok a ∧ f a = Ok b.
Proof.
  unfold mbind, result_bind. destruct x as [a|e]; split.
  - eauto.
  - by intros (a' & [= <-] & ?).
  - done.
  - by intros (a' & [=] & _).
Qed.

Lemma result_ret_Ok {A} (a b : A) : mret (M := result) a = Ok b ↔ a = b.
Proof. unfold mret, result_ret. naive_solver. Qed.
End Runs.

(** Takes a successful run apart, one step at a time. *)
Ltac run_inv :=
  repeat match goal with
  | H : (_ ≫= _) _ = Ok _ |- _ => apply bind_Ok in H as (? & ? & ? & H)
  | H : mret _ _ = Ok _ |- _ => apply ret_Ok in H
  | H : lift _ _ = Ok _ |- _ => apply lift_Ok in H as (? & ? & ?)
  | H : draw _ _ = Ok _ |- _ => apply draw_Ok in H
  | H : raise _ _ = Ok _ |- _ => by apply raise_Ok in H
  | H : _ ≫= _ = Ok _ |- _ => apply result_bind_Ok in H as (? & ? & H)
  | H : mret _ = Ok _ |- _ => apply result_ret_Ok in H
  | H : (_, _) = (_, _) |- _ => apply pair_equal_spec in H as [??]
  | H : Ok _ = Ok _ |- _ => apply (inj Ok) in H
  | H : Raise _ = Ok _ |- _ => discriminate H
  end; subst.

(** ** Lists *)

Lemma getitem_Ok {A} (l : list A) i x : getitem l i = Ok x ↔ l !! i = Some x.
Proof. unfold getitem. destruct (l !! i); naive_solver. Qed.

Lemma setitem_Ok {A} (l : list A) i x l' :
  setitem l i x = Ok l' ↔ i < length l ∧ l' = <[i:=x]> l.
Proof.
  unfold setitem. case_decide; split.
  - by intros [= <-].
  - by intros [_ ->].
  - done.
  - intros [? _]. lia.
Qed.

Lemma getitems_Ok {A} (l : list A) idx : ∀ xs,
  getitems l idx = Ok xs ↔ Forall2 (λ i x, l !! i = Some x) idx xs.
Proof.
  induction idx as [|i idx IH]; intros xs; simpl.
  - split; [intros [= <-]; constructor|by intros ->%Forall2_nil_inv_l].
  - destruct (getitem l i) as [x|e] eqn:Hi.
    + apply getitem_Ok in Hi. destruct (getitems l idx) as [ys|e] eqn:Hys.
      * split.
        -- intros [= <-]. constructor; [done|by apply IH].
        -- intros (y & ys' & Hy & Hys' & ->)%Forall2_cons_inv_l.
           apply IH in Hys'. congruence.
      * split; [done|].
        intros (y & ys' & Hy & Hys' & ->)%Forall2_cons_inv_l.
        apply IH in Hys'. done.
    + split; [done|].
      intros (y & ys' & Hy & Hys' & ->)%Forall2_cons_inv_l.
      apply getitem_Ok in Hy. congruence.
Qed.

Lemma getitems_seq n idx xs :
  getitems (seq 0 n) idx = Ok xs → xs = idx.
Proof.
  intros Hxs%getitems_Ok. symmetry. apply list_eq_Forall2.
  eapply Forall2_impl; [done|]. simpl. intros i x [-> _]%lookup_seq. done.
Qed.

Lemma slice_length {A} (l : list A) a n :
  a + n ≤ length l → length (slice l a (a + n)) = n.
Proof.
  intros Hn. unfold slice. rewrite length_take, length_drop. lia.
Qed.

Lemma slice_take_drop {A} (l : list A) a n : slice l a (a + n) = take n (drop a l).
Proof. unfold slice. f_equal. lia. Qed.

(** ** Identifiers

    A zero-padded decimal names its number: padding adds leading zeros
    only, and a numeral with leading zeros still reads as the number. *)

(** The digits [str(n)] prints: a numeral without digits prints as [0]. *)
Definition digits (d : Decimal.uint) : Decimal.uint :=
  match d with
  | Decimal.Nil => Decimal.D0 Decimal.Nil
  | _ => d
  end.

Lemma decimal_digits n :
  decimal n = NilEmpty.string_of_uint (digits (Nat.to_uint n)).
Proof. unfold decimal. by destruct (Nat.to_uint n). Qed.

Lemma zeros_digits k d :
  (zeros k +:+ NilEmpty.string_of_uint d)%string
  = NilEmpty.string_of_uint (Nat.iter k Decimal.D0 d).
Proof.
  induction k as [|k IH]; [done|].
  change (String "0" (zeros k +:+ NilEmpty.string_of_uint d)
          = String "0" (NilEmpty.string_of_uint (Nat.iter k Decimal.D0 d))).
  by rewrite IH.
Qed.

Lemma of_uint_zeros k d : Nat.of_uint (Nat.iter k Decimal.D0 d) = Nat.of_uint d.
Proof. induction k as [|k IH]; simpl; [done|]. rewrite <-IH. reflexivity. Qed.

Lemma of_uint_digits d : Nat.of_uint (digits d) = Nat.of_uint d.
Proof. by destruct d. Qed.

Lemma string_of_uint_inj d d' :
  NilEmpty.string_of_uint d = NilEmpty.string_of_uint d' → d = d'.
Proof.
  intros Heq. apply (f_equal NilEmpty.uint_of_string) in Heq.
  rewrite !NilEmpty.usu in Heq. by injection Heq.
Qed.

(** Whatever the width, two numbers with the same padded numeral are
    the same number. *)
Lemma zfill_decimal_inj w w' n n' :
  zfill w (decimal n) = zfill w' (decimal n') → n = n'.
Proof.
  unfold zfill. rewrite !decimal_digits, !zeros_digits.
  intros Heq%string_of_uint_inj. apply (f_equal Nat.of_uint) in Heq.
  by rewrite !of_uint_zeros, !of_uint_digits, !DecimalNat.Unsigned.of_to in Heq.
Qed.

(** The identifiers [prefix + f"{i:0{width}d}"] for [i] in [range(n)]
    are pairwise distinct. *)
Lemma padded_ids_NoDup (prefix : string) (width n : nat) :
  NoDup ((λ i, VStr (prefix +:+ zfill width (decimal i))) <$> seq 0 n).
Proof.
  apply NoDup_fmap_2; [|apply NoDup_seq].
  intros i j [= Heq%String.app_inj]. by apply zfill_decimal_inj in Heq.
Qed.

(** The people table of the Entity Generator holds every Person id once. *)
Lemma generate_people_NoDup (sim : generate_bronze.SimConfig) :
  ∃ ids, column (generate_bronze.generate_people sim) "person_id" = Ok ids ∧ NoDup ids.
Proof. eexists. split; [reflexivity|]. apply padded_ids_NoDup. Qed.

Section GeneratedIdentifiers.
Context `{PyRandom G}.
Implicit Types g : G.

(** The identifiers the stages make by counting are unique within their
    table: those of [_make_ids] (devices, cards, addresses), and the
    Person, Merchant and Transaction ids of the Entity Generator. *)
Theorem identifiers_unique (sim : generate_bronze.SimConfig) (prefix : string)
    (n width : nat) :
  NoDup (enrich_infrastructure._make_ids prefix n width)
  ∧ (∃ ids, column (generate_bronze.generate_people sim) "person_id" = Ok ids ∧ NoDup ids)
  ∧ (∀ g merchants g', generate_bronze.generate_merchants sim g = Ok (merchants, g') →
       ∃ ids, column merchants "merchant_id" = Ok ids ∧ NoDup ids)
  ∧ (∀ people merchants g tx g',
       generate_bronze.generate_transactions sim people merchants g = Ok (tx, g') →
       ∃ ids, column tx "tx_id" = Ok ids ∧ NoDup ids).
Proof.
  split_and!.
  - apply padded_ids_NoDup.
  - apply generate_people_NoDup.
  - intros g merchants g' Hr. unfold generate_bronze.generate_merchants in Hr.
    apply bind_Ok in Hr as (mcc & g1 & _ & Hr). apply ret_Ok in Hr as [= -> ->].
    eexists. split; [reflexivity|]. apply padded_ids_NoDup.
  - intros people merchants g tx g' Hr.
    unfold generate_bronze.generate_transactions in Hr.
    apply bind_Ok in Hr as (pids & g1 & _ & Hr).
    apply bind_Ok in Hr as (mids & g2 & _ & Hr). cbv zeta in Hr.
    apply bind_Ok in Hr as (ts & g3 & _ & Hr).
    apply bind_Ok in Hr as (amounts & g4 & _ & Hr).
    apply bind_Ok in Hr as (tx_person & g5 & _ & Hr).
    apply bind_Ok in Hr as (tx_merchant & g6 & _ & Hr).
    apply ret_Ok in Hr as [= -> ->].
    eexists. split; [reflexivity|]. apply padded_ids_NoDup.
Qed.
End GeneratedIdentifiers.

(** ** The random module *)

Section RandomFacts.
Context `{PyRandom G}.
Implicit Types g : G.

Lemma randrange_Ok n g j g' : randrange n g = Ok (j, g') → j < n.
Proof.
  unfold randrange. case_decide; intros Hr; run_inv.
  pose proof (randbelow_lt n g). destruct (randbelow n g). simplify_eq/=. auto.
Qed.

Lemma randint_Ok a b g z g' :
  randint a b g = Ok (z, g') → (a ≤ z ≤ b)%Z.
Proof.
  unfold randint. case_decide; intros Hr; run_inv.
  pose proof (randbelow_lt (Z.to_nat (b - a + 1)) g) as Hlt.
  destruct (randbelow _ g) as [j g1]. simplify_eq/=. lia.
Qed.

Lemma randint_total a b g :
  (a ≤ b)%Z → ∃ z g', randint a b g = Ok (z, g').
Proof.
  intros Hab. unfold randint. rewrite decide_True by done.
  unfold mbind, M_bind, draw. destruct (randbelow _ g). eauto.
Qed.

Lemma choice_Ok {A} (l : list A) g x g' : choice l g = Ok (x, g') → x ∈ l.
Proof.
  unfold choice. destruct l as [|y l]; intros Hr; run_inv.
  match goal with Hg : getitem _ _ = Ok _ |- _ => apply getitem_Ok in Hg; by eapply list_elem_of_lookup_2 end.
Qed.

Lemma choice_total {A} (l : list A) g :
  l ≠ [] → ∃ x g', choice l g = Ok (x, g').
Proof.
  intros Hl. unfold choice. destruct l as [|y l]; [done|].
  pose proof (randbelow_lt (length (y :: l)) g) as Hlt.
  unfold mbind, M_bind, draw. destruct (randbelow _ g) as [j g1].
  destruct (lookup_lt_is_Some_2 (y :: l) j) as [x Hx]; [simpl in *; lia|].
  exists x, g1. unfold lift, getitem. by rewrite Hx.
Qed.

Lemma swap_Permutation {A} (l : list A) i j : swap l i j ≡ₚ l.
Proof.
  unfold swap. destruct (l !! i) eqn:Hi, (l !! j) eqn:Hj; try done.
  by apply Permutation_insert_swap.
Qed.

Lemma shuffle_from_Ok {A} i : ∀ (l : list A) g,
  ∃ l' g', shuffle_from i l g = Ok (l', g') ∧ l' ≡ₚ l.
Proof.
  induction i as [|i IH]; intros l g; simpl.
  - by exists l, g.
  - unfold mbind, M_bind, draw. destruct (randbelow _ g) as [j g1].
    destruct (IH (swap l (S i) j) g1) as (l' & g' & -> & Hp).
    exists l', g'. split; [done|]. by rewrite Hp, swap_Permutation.
Qed.

(** [random.shuffle] always returns, with a rearrangement of its list. *)
Lemma shuffle_Ok {A} (l : list A) g :
  ∃ l' g', shuffle l g = Ok (l', g') ∧ l' ≡ₚ l.
Proof. apply shuffle_from_Ok. Qed.

Lemma sample_Ok {A} (l : list A) k g xs g' :
  sample l k g = Ok (xs, g') →
  ∃ idx, length idx = k ∧ NoDup idx ∧ Forall2 (λ i x, l !! i = Some x) idx xs.
Proof.
  unfold sample. case_decide as Hk; intros Hr; run_inv.
  exists (sample_indices (length l) k g).1. split_and!.
  - by apply sample_indices_length.
  - by apply sample_indices_NoDup.
  - apply getitems_Ok. by destruct (sample_indices _ _ g); simplify_eq/=.
Qed.

Lemma sample_total {A} (l : list A) k g :
  k ≤ length l → ∃ xs g', sample l k g = Ok (xs, g').
Proof.
  intros Hk. unfold sample. rewrite decide_True by done.
  unfold mbind, M_bind, draw.
  pose proof (sample_indices_lt (length l) k g) as Hlt.
  destruct (sample_indices _ _ g) as [idx g1]. simpl in Hlt.
  assert (∃ xs, getitems l idx = Ok xs) as [xs Hxs].
  { clear -Hlt Hk. induction idx as [|i idx IH]; simpl; [eauto|].
    destruct (lookup_lt_is_Some_2 l i) as [x Hx].
    { apply Hlt; [done|]. by left. }
    unfold getitem. rewrite Hx.
    destruct IH as [xs ->]; [|eauto].
    intros j ? Hj. apply Hlt; [done|]. by right. }
  exists xs, g1. unfold lift. by rewrite Hxs.
Qed.

(** A sample of [range(n)] is a list of [k] distinct row numbers. *)
Lemma sample_range_Ok n k g idx g' :
  sample (seq 0 n) k g = Ok (idx, g') →
  length idx = k ∧ NoDup idx ∧ ∀ i, i ∈ idx → i < n.
Proof.
  intros (idx' & Hlen & Hnd & Hall)%sample_Ok.
  assert (idx = idx') as ->.
  { symmetry. apply list_eq_Forall2. eapply Forall2_impl; [done|].
    simpl. by intros i x [-> _]%lookup_seq. }
  split_and!; [done..|].
  intros i [j Hj]%list_elem_of_lookup.
  destruct (Forall2_lookup_l _ _ _ _ _ Hall Hj) as (x & _ & [_ ?]%lookup_seq). done.
Qed.
End RandomFacts.

(** ** The Entity Generator returns *)

Lemma timedelta_in_range us :
  (timedelta_min ≤ us ≤ timedelta_max)%Z → timedelta us = Ok us.
Proof.
  intros Hus. unfold timedelta.
  assert ((timedelta_min <=? us)%Z && (us <=? timedelta_max)%Z = true) as ->; [|done].
  apply andb_true_intro. split; apply Z.leb_le; lia.
Qed.

Lemma datetime_add_in_range us delta :
  (datetime_min ≤ us + delta ≤ datetime_max)%Z →
  datetime_add (VTime us) delta = Ok (VTime (us + delta)).
Proof.
  intros Hus. unfold datetime_add. cbv zeta.
  assert ((datetime_min <=? us + delta)%Z && (us + delta <=? datetime_max)%Z = true)
    as ->; [|done].
  apply andb_true_intro. split; apply Z.leb_le; lia.
Qed.

Section GeneratorFacts.
Context `{PyRandom G}.
Implicit Types g : G.

Lemma lift_step {A} (x : result A) a g : x = Ok a → lift x g = Ok (a, g).
Proof. by intros ->. Qed.

Lemma repeatM_total {A} (f : M G A) n : ∀ g,
  (∀ g1, ∃ x g2, f g1 = Ok (x, g2)) →
  ∃ xs g', repeatM n f g = Ok (xs, g').
Proof.
  induction n as [|n IH]; intros g Hf; simpl; [by eexists _, _|].
  destruct (Hf g) as (x & g1 & Hx). rewrite (bind_step _ _ _ _ _ Hx).
  destruct (IH g1 Hf) as (xs & g2 & Hxs). rewrite (bind_step _ _ _ _ _ Hxs).
  by eexists _, _.
Qed.

(** A timestamp of the thirty-day window always comes out. *)
Lemma timestamp_total g :
  ∃ t g', (s ← randint 0 (60 * 60 * 24 * 30);
           delta ← lift (timedelta_seconds s);
           lift (datetime_add generate_bronze.start delta)) g = Ok (t, g').
Proof.
  destruct (randint_total 0 (60 * 60 * 24 * 30) g) as (s & g1 & Hs); [lia|].
  rewrite (bind_step _ _ _ _ _ Hs). apply randint_Ok in Hs.
  assert (timedelta_seconds s = Ok (s * 1000000)%Z) as Hd.
  { apply timedelta_in_range. unfold timedelta_min, timedelta_max. lia. }
  rewrite (bind_step _ _ _ _ _ (lift_step _ _ g1 Hd)).
  eexists _, _. apply lift_step. apply datetime_add_in_range.
  unfold datetime_min, datetime_max. lia.
Qed.

Lemma amount_total g :
  ∃ x g', (x ← uniform 1.5 400.0; mret (VFloat (py_round2 x))) g = Ok (x, g').
Proof.
  unfold uniform. rewrite !bind_run. unfold draw.
  destruct (random g) as [u g1]. by eexists _, _.
Qed.

(** The Entity Generator has no failure of its own: with at least one
    person and one merchant to draw from, it returns, whatever the
    directory held and whatever state the generator was in. *)
Theorem generate_total (sim : generate_bronze.SimConfig) (fs : bronze_dir) g :
  0 < generate_bronze.n_people sim → 0 < generate_bronze.n_merchants sim →
  ∃ fs' g', generate_bronze.main sim fs g = Ok (fs', g').
Proof.
  intros Hp Hm. unfold generate_bronze.main.
  rewrite (bind_step _ _ g () (seed (generate_bronze.sim_seed sim))) by done.
  cbv zeta. set (g0 := seed (generate_bronze.sim_seed sim)).
  destruct (repeatM_total (choice generate_bronze.mccs)
              (generate_bronze.n_merchants sim) g0)
    as (mcc & g1 & Hmcc); [intros ?; by apply choice_total|].
  unfold generate_bronze.generate_merchants.
  rewrite (bind_run _ _ g0), (bind_step _ _ _ _ _ Hmcc). cbn [mret M_ret].
  unfold generate_bronze.generate_transactions.
  rewrite (bind_run _ _ g1).
  do 2 match goal with |- context [lift ?x ≫= _] =>
    rewrite (bind_step _ _ g1 _ g1 (lift_step x _ g1 eq_refl)) end.
  cbv zeta.
  match goal with |- context [repeatM ?n ?f ≫= _] =>
    destruct (repeatM_total f n g1) as (ts & g2 & Hts); [apply timestamp_total|] end.
  rewrite (bind_step _ _ _ _ _ Hts).
  match goal with |- context [repeatM ?n ?f ≫= _] =>
    destruct (repeatM_total f n g2) as (am & g3 & Ham); [apply amount_total|] end.
  rewrite (bind_step _ _ _ _ _ Ham).
  match goal with |- context [repeatM ?n ?f ≫= _] =>
    destruct (repeatM_total f n g3) as (ps & g4 & Hps) end.
  { intros ?. apply choice_total. destruct (generate_bronze.n_people sim); [lia|done]. }
  rewrite (bind_step _ _ _ _ _ Hps).
  match goal with |- context [repeatM ?n ?f ≫= _] =>
    destruct (repeatM_total f n g4) as (ms & g5 & Hms) end.
  { intros ?. apply choice_total. destruct (generate_bronze.n_merchants sim); [lia|done]. }
  rewrite (bind_step _ _ _ _ _ Hms). by eexists _, _.
Qed.
End GeneratorFacts.

Section GeneratorEdges.
Context `{PyRandom G}.
Implicit Types (g : G) (fs : bronze_dir).

Lemma repeatM_first_Raise {A} (f : M G A) n g e :
  f g = Raise e → repeatM (S n) f g = Raise e.
Proof. intros Hf. simpl. by apply bind_Raise. Qed.

(** With transactions to generate and nobody to make them, or no
    merchant to receive them, the Entity Generator ends with the
    [IndexError] of a choice from an empty list, and writes nothing. *)
Theorem generate_without_entities sim fs g :
  0 < generate_bronze.n_transactions sim →
  generate_bronze.n_people sim = 0 ∨ generate_bronze.n_merchants sim = 0 →
  generate_bronze.main sim fs g = Raise IndexError.
Proof.
  intros Hn Hzero. unfold generate_bronze.main.
  rewrite (bind_step _ _ g () (seed (generate_bronze.sim_seed sim))) by done.
  cbv zeta. set (g0 := seed (generate_bronze.sim_seed sim)).
  destruct (repeatM_total (choice generate_bronze.mccs)
              (generate_bronze.n_merchants sim) g0)
    as (mcc & g1 & Hmcc); [intros ?; by apply choice_total|].
  unfold generate_bronze.generate_merchants.
  rewrite (bind_run _ _ g0), (bind_step _ _ _ _ _ Hmcc). cbn [mret M_ret].
  unfold generate_bronze.generate_transactions.
  rewrite (bind_run _ _ g1).
  do 2 match goal with |- context [lift ?x ≫= _] =>
    rewrite (bind_step _ _ g1 _ g1 (lift_step x _ g1 eq_refl)) end.
  cbv zeta.
  match goal with |- context [repeatM ?n ?f ≫= _] =>
    destruct (repeatM_total f n g1) as (ts & g2 & Hts); [apply timestamp_total|] end.
  rewrite (bind_step _ _ _ _ _ Hts).
  match goal with |- context [repeatM ?n ?f ≫= _] =>
    destruct (repeatM_total f n g2) as (am & g3 & Ham); [apply amount_total|] end.
  rewrite (bind_step _ _ _ _ _ Ham).
  destruct (generate_bronze.n_transactions sim) as [|n]; [lia|].
  destruct (generate_bronze.n_people sim) as [|np] eqn:Hp.
  - match goal with |- context [repeatM (S ?k) ?f ≫= _] =>
      by rewrite (bind_Raise (repeatM (S k) f) _ g3 IndexError
                    (repeatM_first_Raise f k g3 IndexError eq_refl))
    end.
  - destruct Hzero as [?|Hm]; [done|]. rewrite Hm.
    match goal with |- context [repeatM ?n ?f ≫= _] =>
      destruct (repeatM_total f n g3) as (ps & g4 & Hps); [intros ?; by apply choice_total|]
    end.
    rewrite (bind_step _ _ _ _ _ Hps).
    match goal with |- context [repeatM (S ?k) ?f ≫= _] =>
      by rewrite (bind_Raise (repeatM (S k) f) _ g4 IndexError
                    (repeatM_first_Raise f k g4 IndexError eq_refl))
    end.
Qed.
End GeneratorEdges.

(** ** Ring construction *)

Lemma elem_of_concat {A} (ls : list (list A)) x :
  x ∈ concat ls ↔ ∃ l, l ∈ ls ∧ x ∈ l.
Proof.
  induction ls as [|l ls IH]; simpl.
  - split; [by intros ?%elem_of_nil|by intros (? & ?%elem_of_nil & _)].
  - rewrite elem_of_app, IH. split.
    + intros [?|(l' & ? & ?)]; [exists l|exists l']; split; auto; by constructor.
    + intros (l' & [->|?]%elem_of_cons & ?); eauto.
Qed.

(** Distinct entries of a list of lists without repetition share nothing. *)
Lemma NoDup_concat_disjoint {A} (ls : list (list A)) i j l1 l2 x :
  NoDup (concat ls) → i ≠ j → ls !! i = Some l1 → ls !! j = Some l2 →
  x ∈ l1 → x ∉ l2.
Proof.
  revert i j. induction ls as [|l ls IH]; intros i j Hnd Hij Hi Hj Hx1 Hx2; [done|].
  simpl in Hnd. apply NoDup_app in Hnd as (_ & Hdisj & Hnd).
  destruct i as [|i], j as [|j]; simplify_eq/=.
  - eapply Hdisj; [done|]. apply elem_of_concat. eauto using list_elem_of_lookup_2.
  - eapply Hdisj; [done|]. apply elem_of_concat. eauto using list_elem_of_lookup_2.
  - eapply (IH i j); eauto.
Qed.



Section RingFacts.
Context `{PyRandom G}.
Import inject_fraud_rings.
Implicit Types (g : G) (cfg : RingConfig).

(** A ring has a size the configuration allows. *)
Definition ring_size_ok cfg (r : list value) : Prop :=
  ring_size_min cfg ≤ length r ≤ ring_size_max cfg.

Lemma build_rings_Ok cfg ids n : ∀ rings cursor g rings' g',
  cursor ≤ length ids →
  build_rings cfg ids n rings cursor g = Ok (rings', g') →
  ∃ new, rings' = rings ++ new
    ∧ length new ≤ n
    ∧ Forall (ring_size_ok cfg) new
    ∧ concat new = take (length (concat new)) (drop cursor ids)
    ∧ cursor + length (concat new) ≤ length ids
    ∧ (length new = n ∨
       ∃ size, ring_size_min cfg ≤ size ≤ ring_size_max cfg
               ∧ length ids < cursor + length (concat new) + size).
Proof.
  induction n as [|n IH]; intros rings cursor g rings' g' Hc Hr; simpl in Hr.
  - run_inv. exists []. rewrite app_nil_r. simpl. split_and!; auto with lia.
  - apply bind_Ok in Hr as (z & g1 & Hz & Hr).
    apply randint_Ok in Hz. set (size := Z.to_nat z) in *.
    assert (ring_size_min cfg ≤ size ≤ ring_size_max cfg) as Hsize by lia.
    case_decide as Hfit.
    + run_inv. exists []. rewrite app_nil_r. simpl.
      split_and!; auto with lia. right. exists size. lia.
    + apply IH in Hr as (new & -> & Hlen & Hall & Hcat & Hle & Hend); [|lia].
      assert (length (slice ids cursor (cursor + size)) = size) as Hsl
        by (apply slice_length; lia).
      exists (slice ids cursor (cursor + size) :: new).
      simpl. rewrite length_app, Hsl. split_and!.
      * by rewrite <-app_assoc.
      * lia.
      * constructor; [by unfold ring_size_ok; rewrite Hsl|done].
      * rewrite Hcat at 1. rewrite slice_take_drop.
        rewrite <-(drop_drop ids size cursor). apply take_take_drop.
      * lia.
      * destruct Hend as [->|(size' & ? & ?)]; [by left|].
        right. exists size'. split; [done|lia].
Qed.

Lemma build_rings_total cfg ids n : ∀ rings cursor g,
  ring_size_min cfg ≤ ring_size_max cfg →
  ∃ rings' g', build_rings cfg ids n rings cursor g = Ok (rings', g').
Proof.
  induction n as [|n IH]; intros rings cursor g Hmm; simpl; [by eexists _, _|].
  destruct (randint_total (Z.of_nat (ring_size_min cfg))
              (Z.of_nat (ring_size_max cfg)) g) as (z & g1 & Hz); [lia|].
  rewrite (bind_step _ _ _ _ _ Hz). case_decide; [by eexists _, _|].
  by apply IH.
Qed.



(** What a successful [ring_membership] returns. *)
Lemma ring_membership_Ok cfg ids g sh rings g' :
  ring_membership cfg ids g = Ok ((sh, rings), g') →
  sh ≡ₚ ids
  ∧ rings ≠ []
  ∧ length rings ≤ n_rings cfg
  ∧ Forall (ring_size_ok cfg) rings
  ∧ concat rings `prefix_of` sh
  ∧ length (concat rings) ≤ length sh.
Proof.
  unfold ring_membership. intros Hr.
  apply bind_Ok in Hr as (sh' & g1 & Hsh & Hr).
  destruct (shuffle_Ok ids g) as (sh'' & g1' & Hsh' & Hperm).
  rewrite Hsh in Hsh'. simplify_eq.
  apply bind_Ok in Hr as (built & g2 & Hb & Hr).
  case_decide as Hne; run_inv.
  apply build_rings_Ok in Hb as (new & -> & Hlen & Hall & Hcat & Hle & Hend); [|lia].
  simpl in *. rewrite drop_0 in Hcat.
  split_and!; try done.
  rewrite Hcat. apply prefix_take.
Qed.

Lemma rings_total_size cfg (built : list (list value)) :
  Forall (ring_size_ok cfg) built →
  length built * ring_size_min cfg ≤ length (concat built)
  ≤ length built * ring_size_max cfg.
Proof.
  induction 1 as [|r built [Hlo Hhi] _ IH]; simpl; [lia|].
  rewrite length_app. lia.
Qed.

(** When the people suffice for [n_rings] rings of the largest size, the
    loop never breaks: exactly [n_rings] rings are built, and they hold
    between [n_rings * ring_size_min] and [n_rings * ring_size_max]
    members (12 rings of 72 to 240 members for the defaults and 2,000
    people). *)
Theorem rings_when_people_suffice cfg (person_ids : list value) g :
  0 < n_rings cfg →
  ring_size_min cfg ≤ ring_size_max cfg →
  n_rings cfg * ring_size_max cfg ≤ length person_ids →
  ∃ sh built g',
    ring_membership cfg person_ids g = Ok ((sh, built), g')
    ∧ length built = n_rings cfg
    ∧ n_rings cfg * ring_size_min cfg ≤ length (concat built)
      ≤ n_rings cfg * ring_size_max cfg.
Proof.
  intros Hn Hmm Hpool.
  destruct (shuffle_Ok person_ids g) as (sh & g0 & Hsh & Hperm).
  destruct (build_rings_total cfg sh (n_rings cfg) [] 0 g0 Hmm) as (built & g1 & Hb).
  pose proof Hb as (new & -> & Hlen & Hall & _ & _ & Hend)%build_rings_Ok; [|lia].
  simpl in *. pose proof (rings_total_size cfg new Hall) as Hsize.
  assert (length new = n_rings cfg) as Hfull.
  { destruct Hend as [?|(size & ? & Hshort)]; [done|].
    apply Permutation_length in Hperm. nia. }
  exists sh, new, g1. rewrite <-Hfull. split_and!; [|done|lia..].
  unfold ring_membership.
  rewrite (bind_step _ _ _ _ _ Hsh), (bind_step _ _ _ _ _ Hb).
  rewrite decide_False; [done|]. intros ->. simpl in *. lia.
Qed.
End RingFacts.

(** ** Data frames *)

Lemma lookup_with_column name c df name' :
  lookup_column (with_column name c df) name' =
  if decide (name = name') then Some c else lookup_column df name'.
Proof.
  induction df as [|[n c'] df IH]; simpl.
  - done.
  - destruct (decide (n = name)) as [->|Hn]; simpl.
    + by destruct (decide (name = name')).
    + destruct (decide (n = name')) as [->|Hn'].
      * by rewrite decide_False by done.
      * done.
Qed.

Lemma height_with_column name c df :
  length c = height df → height (with_column name c df) = height df.
Proof.
  destruct df as [|[n c'] df]; simpl; [done|].
  by destruct (decide (n = name)).
Qed.

(** ** The coercion loop *)

Lemma filter_insert_fresh {A} `{EqDecision A} (l : list A) i x y :
  l !! i = Some y → y ≠ x →
  length (filter (λ v, v = x) (<[i:=x]> l)) = S (length (filter (λ v, v = x) l)).
Proof.
  intros Hi Hy.
  rewrite insert_take_drop by (by eapply lookup_lt_Some).
  rewrite <-(take_drop_middle l i y) at 3 by done.
  rewrite !filter_app, !filter_cons, !length_app.
  rewrite decide_True by done. rewrite decide_False by done. simpl. lia.
Qed.

Lemma filter_replicate_ne {A} `{EqDecision A} n (x y : A) :
  x ≠ y → filter (λ v, v = y) (replicate n x) = [].
Proof.
  intros Hxy. induction n as [|n IH]; [done|].
  simpl. rewrite filter_cons, decide_False by done. apply IH.
Qed.

Section CoercionFacts.
Context `{PyRandom G}.
Import inject_fraud_rings.
Implicit Types (g : G) (cfg : RingConfig) (st : tx_lists).

(** Row [i] holds the same six cells in [st'] as in [st]. *)
Definition same_row st st' (i : nat) : Prop :=
  tx_person st' !! i = tx_person st !! i
  ∧ tx_ts st' !! i = tx_ts st !! i
  ∧ tx_device st' !! i = tx_device st !! i
  ∧ tx_ip st' !! i = tx_ip st !! i
  ∧ tx_card st' !! i = tx_card st !! i
  ∧ tx_addr st' !! i = tx_addr st !! i.

(** What the loop body leaves in row [idx] of [st'], for a row that
    held the infrastructure cells of [st] before: a member of one ring,
    that ring's anchor moved by at most the burst window, and per facet
    either the ring's shared value or the cell as it was. *)
Definition coerced_row cfg (rings : list (list value))
    (ring_shared : list shared_infra) (anchor_times : list value)
    st st' (idx : nat) : Prop :=
  ∃ r_i members sh anchor member h t,
    rings !! r_i = Some members
    ∧ ring_shared !! r_i = Some sh
    ∧ anchor_times !! r_i = Some anchor
    ∧ member ∈ members
    ∧ (- burst_hours_window cfg ≤ h ≤ burst_hours_window cfg)%Z
    ∧ datetime_add anchor (h * 3600 * 1000000)%Z = Ok t
    ∧ tx_person st' !! idx = Some member
    ∧ tx_ts st' !! idx = Some t
    ∧ (tx_device st' !! idx = Some (sh_device sh) ∨ tx_device st' !! idx = tx_device st !! idx)
    ∧ (tx_ip st' !! idx = Some (sh_ip sh) ∨ tx_ip st' !! idx = tx_ip st !! idx)
    ∧ (tx_card st' !! idx = Some (sh_card sh) ∨ tx_card st' !! idx = tx_card st !! idx)
    ∧ (tx_addr st' !! idx = Some (sh_addr sh) ∨ tx_addr st' !! idx = tx_addr st !! idx).

Lemma same_row_refl st i : same_row st st i.
Proof. by repeat split. Qed.

Lemma same_row_trans st1 st2 st3 i :
  same_row st1 st2 i → same_row st2 st3 i → same_row st1 st3 i.
Proof. unfold same_row. intros (?&?&?&?&?&?) (?&?&?&?&?&?). split_and!; congruence. Qed.

Lemma overwrite_with_prob_Ok p l idx x g l' g' :
  overwrite_with_prob p l idx x g = Ok (l', g') →
  l' = l ∨ (idx < length l ∧ l' = <[idx:=x]> l).
Proof.
  unfold overwrite_with_prob. intros Hr.
  apply bind_Ok in Hr as (u & g1 & _ & Hr).
  destruct (PrimFloat.ltb u p); run_inv; [|by left].
  match goal with Hs : setitem _ _ _ = Ok _ |- _ => apply setitem_Ok in Hs as [? ->] end.
  by right.
Qed.

Lemma overwrite_lookup (l : list value) idx x l' i :
  l' = l ∨ (idx < length l ∧ l' = <[idx:=x]> l) →
  (i ≠ idx → l' !! i = l !! i)
  ∧ (l' !! idx = Some x ∨ l' !! idx = l !! idx).
Proof.
  intros [->|[Hlt ->]].
  - split; [done|by right].
  - split; [intros ?; by apply list_lookup_insert_ne|].
    left. by apply list_lookup_insert_eq.
Qed.

(** One pass of the loop body: row [idx] is coerced, the others stand. *)
Lemma coerce_Ok cfg rings ring_shared anchor_times st idx g st' g' :
  coerce cfg rings ring_shared anchor_times st idx g = Ok (st', g') →
  coerced_row cfg rings ring_shared anchor_times st st' idx
  ∧ ∀ i, i ≠ idx → same_row st st' i.
Proof.
  unfold coerce. intros Hr.
  apply bind_Ok in Hr as (r_i & g1 & Hri & Hr).
  apply bind_Ok in Hr as (members & g2 & Hm & Hr).
  apply bind_Ok in Hr as (sh & g3 & Hsh & Hr).
  apply bind_Ok in Hr as (anchor & g4 & Han & Hr).
  apply bind_Ok in Hr as (member & g5 & Hmem & Hr).
  apply bind_Ok in Hr as (person' & g6 & Hp & Hr).
  apply bind_Ok in Hr as (h & g7 & Hh & Hr).
  apply bind_Ok in Hr as (jitter & g8 & Hj & Hr).
  apply bind_Ok in Hr as (t & g9 & Ht & Hr).
  apply bind_Ok in Hr as (ts' & g10 & Hts & Hr).
  apply bind_Ok in Hr as (device' & g11 & Hd & Hr).
  apply bind_Ok in Hr as (ip' & g12 & Hi & Hr).
  apply bind_Ok in Hr as (card' & g13 & Hc & Hr).
  apply bind_Ok in Hr as (addr' & g14 & Ha & Hr).
  apply ret_Ok in Hr as [= -> ->].
  apply lift_Ok in Hm as (? & Hm & [= <- <-]).
  apply lift_Ok in Hsh as (? & Hsh & [= <- <-]).
  apply lift_Ok in Han as (? & Han & [= <- <-]).
  apply lift_Ok in Hp as (? & Hp & [= <- <-]).
  apply lift_Ok in Hj as (? & Hj & [= <- <-]).
  apply lift_Ok in Ht as (? & Ht & [= <- <-]).
  apply lift_Ok in Hts as (? & Hts & [= <- <-]).
  apply getitem_Ok in Hm, Hsh, Han.
  apply setitem_Ok in Hp as [Hlt ->], Hts as [Hlt' ->].
  apply choice_Ok in Hmem. apply randint_Ok in Hh.
  unfold timedelta_hours, timedelta in *. case_match; [|done]. simplify_eq.
  apply overwrite_with_prob_Ok in Hd, Hi, Hc, Ha.
  pose proof (overwrite_lookup _ _ _ _ idx Hd) as [_ Hd'].
  pose proof (overwrite_lookup _ _ _ _ idx Hi) as [_ Hi'].
  pose proof (overwrite_lookup _ _ _ _ idx Hc) as [_ Hc'].
  pose proof (overwrite_lookup _ _ _ _ idx Ha) as [_ Ha'].
  split.
  - exists r_i, members, sh, anchor, member, h, t. simpl.
    split_and!; first [done | lia | by apply list_lookup_insert_eq].
  - intros i Hne. unfold same_row. simpl.
    rewrite !list_lookup_insert_ne by done.
    split_and!; try done; by eapply overwrite_lookup.
Qed.

Lemma coerced_row_before cfg rings ring_shared anchor_times st0 st st' idx :
  same_row st0 st idx →
  coerced_row cfg rings ring_shared anchor_times st st' idx →
  coerced_row cfg rings ring_shared anchor_times st0 st' idx.
Proof.
  intros (_ & _ & Hd & Hi & Hc & Ha).
  intros (r_i & members & sh & anchor & member & h & t & H1 & H2 & H3 & H4 & H5
          & H6 & H7 & H8 & H9 & H10 & H11 & H12).
  exists r_i, members, sh, anchor, member, h, t.
  rewrite <-Hd, <-Hi, <-Hc, <-Ha. split_and!; first [done|lia].
Qed.

Lemma coerced_row_after cfg rings ring_shared anchor_times st0 st st' idx :
  coerced_row cfg rings ring_shared anchor_times st0 st idx →
  same_row st st' idx →
  coerced_row cfg rings ring_shared anchor_times st0 st' idx.
Proof.
  intros (r_i & members & sh & anchor & member & h & t & H1 & H2 & H3 & H4 & H5
          & H6 & H7 & H8 & H9 & H10 & H11 & H12).
  intros (Hp & Ht & Hd & Hi & Hc & Ha).
  exists r_i, members, sh, anchor, member, h, t.
  rewrite Hp, Ht, Hd, Hi, Hc, Ha. split_and!; first [done|lia].
Qed.

(** The whole loop over distinct rows: the selected rows are coerced,
    all others keep their cells. *)
Lemma coerce_loop_Ok cfg rings ring_shared anchor_times idxs : ∀ st g st' g',
  NoDup idxs →
  for_each idxs (coerce cfg rings ring_shared anchor_times) st g = Ok (st', g') →
  (∀ i, i ∉ idxs → same_row st st' i)
  ∧ (∀ idx, idx ∈ idxs → coerced_row cfg rings ring_shared anchor_times st st' idx).
Proof.
  induction idxs as [|idx idxs IH]; intros st g st' g' Hnd Hr; simpl in Hr.
  - run_inv. split; [intros; apply same_row_refl|by intros ? ?%elem_of_nil].
  - apply NoDup_cons in Hnd as [Hidx Hnd].
    apply bind_Ok in Hr as (st1 & g1 & Hc & Hr).
    apply coerce_Ok in Hc as [Hrow Hframe].
    apply IH in Hr as [Hframe' Hrows]; [|done].
    split.
    + intros i Hi. apply not_elem_of_cons in Hi as [? ?].
      eapply same_row_trans; eauto.
    + intros i [->|Hi]%elem_of_cons.
      * eapply coerced_row_after; eauto.
      * eapply coerced_row_before; [|eauto]. apply Hframe. by intros ->.
Qed.

(** Labels: ones at the selected rows, the rest as they were. *)
Lemma mark_fraud_Ok idxs : ∀ l l',
  mark_fraud l idxs = Ok l' →
  length l' = length l
  ∧ (∀ i, i ∈ idxs → i < length l ∧ l' !! i = Some (VInt 1))
  ∧ (∀ i, i ∉ idxs → l' !! i = l !! i).
Proof.
  induction idxs as [|idx idxs IH]; intros l l' Hr; simpl in Hr.
  - simplify_eq. split_and!; [done|by intros ? ?%elem_of_nil|done].
  - apply result_bind_Ok in Hr as (l1 & [Hlt ->]%setitem_Ok & Hr).
    apply IH in Hr as (Hlen & Hin & Hout). rewrite length_insert in Hlen, Hin.
    split_and!; [done|..].
    + intros i [->|Hi]%elem_of_cons; [|by apply Hin].
      split; [done|]. destruct (decide (idx ∈ idxs)) as [Hi|Hi]; [by apply Hin|].
      rewrite Hout by done. by apply list_lookup_insert_eq.
    + intros i [? ?]%not_elem_of_cons.
      rewrite Hout by done. by apply list_lookup_insert_ne.
Qed.

Lemma mark_fraud_count idxs : ∀ l l',
  NoDup idxs →
  (∀ i, i ∈ idxs → l !! i = Some (VInt 0)) →
  mark_fraud l idxs = Ok l' →
  length (filter (λ v, v = VInt 1) l') =
  length idxs + length (filter (λ v, v = VInt 1) l).
Proof.
  induction idxs as [|idx idxs IH]; intros l l' Hnd Hzero Hr; simpl in Hr.
  - by simplify_eq.
  - apply NoDup_cons in Hnd as [Hidx Hnd].
    apply result_bind_Ok in Hr as (l1 & [Hlt ->]%setitem_Ok & Hr).
    apply IH in Hr; [|done|].
    + rewrite Hr. erewrite filter_insert_fresh; [simpl; lia|..].
      * apply Hzero. by left.
      * done.
    + intros i Hi. rewrite list_lookup_insert_ne by (by intros ->).
      apply Hzero. by right.
Qed.
End CoercionFacts.

(** ** A successful injection, step by step *)

Section InjectFacts.
Context `{PyRandom G}.
Import inject_fraud_rings.
Implicit Types (g : G) (cfg : RingConfig).

Lemma inject_Ok cfg people tx devices ips cards addrs g r g' :
  inject cfg people tx devices ips cards addrs g = Ok (r, g') →
  ∃ ids person0 ts0 device0 ip0 card0 addr0 kd ki kc ka st is_fraud g1 g2 g3 g4,
    column people "person_id" = Ok ids
    ∧ ring_membership cfg ids g = Ok ((shuffled r, rings r), g1)
    ∧ pick_fraud_idx cfg (height tx) g1 = Ok (fraud_idx r, g2)
    ∧ (column tx "person_id" = Ok person0
       ∧ column tx "ts" = Ok ts0
       ∧ column tx "device_id" = Ok device0
       ∧ column tx "ip" = Ok ip0
       ∧ column tx "card_hash" = Ok card0
       ∧ column tx "address_hash" = Ok addr0)
    ∧ (hot_size 30 0.03 devices = Ok kd
       ∧ hot_size 40 0.04 ips = Ok ki
       ∧ hot_size 30 0.03 cards = Ok kc
       ∧ hot_size 25 0.03 addrs = Ok ka)
    ∧ repeatM (length (rings r))
        (choose_shared (_choose_hot devices kd) (_choose_hot ips ki)
           (_choose_hot cards kc) (_choose_hot addrs ka)) g2
      = Ok (ring_shared r, g3)
    ∧ sample ts0 (length (rings r)) g3 = Ok (anchor_times r, g4)
    ∧ for_each (fraud_idx r)
        (coerce cfg (rings r) (ring_shared r) (anchor_times r))
        {| tx_person := person0; tx_ts := ts0; tx_device := device0;
           tx_ip := ip0; tx_card := card0; tx_addr := addr0 |} g4
      = Ok (st, g')
    ∧ mark_fraud (replicate (height tx) (VInt 0)) (fraud_idx r) = Ok is_fraud
    ∧ tx_out r = with_columns
        [("person_id", tx_person st); ("ts", tx_ts st);
         ("device_id", tx_device st); ("ip", tx_ip st);
         ("card_hash", tx_card st); ("address_hash", tx_addr st);
         ("is_fraud", is_fraud)] tx.
Proof.
  unfold inject. intros Hr.
  apply bind_Ok in Hr as (ids & g0 & Hids & Hr).
  apply lift_Ok in Hids as (? & Hids & [= <- ->]).
  apply bind_Ok in Hr as ([sh rs] & g1 & Hrings & Hr).
  apply bind_Ok in Hr as (fidx & g2 & Hfidx & Hr).
  apply bind_Ok in Hr as (person0 & ? & (? & Hc1 & [= <- ->])%lift_Ok & Hr).
  apply bind_Ok in Hr as (ts0 & ? & (? & Hc2 & [= <- ->])%lift_Ok & Hr).
  apply bind_Ok in Hr as (device0 & ? & (? & Hc3 & [= <- ->])%lift_Ok & Hr).
  apply bind_Ok in Hr as (ip0 & ? & (? & Hc4 & [= <- ->])%lift_Ok & Hr).
  apply bind_Ok in Hr as (card0 & ? & (? & Hc5 & [= <- ->])%lift_Ok & Hr).
  apply bind_Ok in Hr as (addr0 & ? & (? & Hc6 & [= <- ->])%lift_Ok & Hr).
  apply bind_Ok in Hr as (kd & ? & (? & Hk1 & [= <- ->])%lift_Ok & Hr).
  apply bind_Ok in Hr as (ki & ? & (? & Hk2 & [= <- ->])%lift_Ok & Hr).
  apply bind_Ok in Hr as (kc & ? & (? & Hk3 & [= <- ->])%lift_Ok & Hr).
  apply bind_Ok in Hr as (ka & ? & (? & Hk4 & [= <- ->])%lift_Ok & Hr).
  apply bind_Ok in Hr as (rsh & g3 & Hrsh & Hr).
  apply bind_Ok in Hr as (anchors & g4 & Han & Hr).
  apply bind_Ok in Hr as (st & g5 & Hloop & Hr).
  apply bind_Ok in Hr as (is_fraud & ? & (? & Hmark & [= <- ->])%lift_Ok & Hr).
  apply ret_Ok in Hr as [= -> ->]. simpl.
  exists ids, person0, ts0, device0, ip0, card0, addr0, kd, ki, kc, ka, st, is_fraud.
  exists g1, g2, g3, g4. split_and!; done.
Qed.

(** [pick_fraud_idx] returns [min(n_fraud, n_total)] distinct rows. *)
Lemma pick_fraud_idx_Ok cfg n_total g idxs g' :
  pick_fraud_idx cfg n_total g = Ok (idxs, g') →
  ∃ n_fraud, fraud_count cfg n_total = Ok n_fraud
    ∧ (0 < n_fraud)%Z
    ∧ length idxs = Z.to_nat (Z.min n_fraud (Z.of_nat n_total))
    ∧ NoDup idxs
    ∧ ∀ i, i ∈ idxs → i < n_total.
Proof.
  unfold pick_fraud_idx. intros Hr.
  apply bind_Ok in Hr as (n_fraud & ? & (? & Hn & [= <- <-])%lift_Ok & Hr).
  case_decide as Hpos; [by apply raise_Ok in Hr|].
  apply sample_range_Ok in Hr as (Hlen & Hnd & Hlt).
  exists n_fraud. split_and!; auto with lia.
Qed.

(** With [n_fraud >= 1] the selection returns, whatever the state of
    the generator. *)
Lemma pick_fraud_idx_total cfg n_total g n_fraud :
  fraud_count cfg n_total = Ok n_fraud → (1 ≤ n_fraud)%Z →
  ∃ idxs g', pick_fraud_idx cfg n_total g = Ok (idxs, g').
Proof.
  intros Hn Hpos. unfold pick_fraud_idx, mbind, M_bind, lift. rewrite Hn.
  rewrite decide_False by lia. apply sample_total. rewrite length_seq. lia.
Qed.

(** With [n_fraud <= 0], or no [n_fraud] at all, the stage raises. *)
Lemma pick_fraud_idx_Raise cfg n_total g :
  match fraud_count cfg n_total with
  | Ok n_fraud => (n_fraud ≤ 0)%Z
  | Raise _ => True
  end →
  ∃ e, pick_fraud_idx cfg n_total g = Raise e.
Proof.
  unfold pick_fraud_idx, mbind, M_bind, lift.
  destruct (fraud_count cfg n_total) as [n_fraud|e]; [|by eauto].
  intros Hle. rewrite decide_True by done. unfold raise. eauto.
Qed.
End InjectFacts.

(** ** The table the Ring Injector writes *)

(** The cell of column [name] in row [i]. *)
Definition cell (df : DataFrame) (name : string) (i : nat) : option value :=
  lookup_column df name ≫= (.!! i).

(** The columns the Ring Injector passes to [with_columns]. *)
Definition written_columns : list string :=
  ["person_id"; "ts"; "device_id"; "ip"; "card_hash"; "address_hash"; "is_fraud"].

Lemma lookup_tx_out (st : inject_fraud_rings.tx_lists) is_fraud tx name :
  lookup_column
    (with_columns
       [("person_id", inject_fraud_rings.tx_person st);
        ("ts", inject_fraud_rings.tx_ts st);
        ("device_id", inject_fraud_rings.tx_device st);
        ("ip", inject_fraud_rings.tx_ip st);
        ("card_hash", inject_fraud_rings.tx_card st);
        ("address_hash", inject_fraud_rings.tx_addr st);
        ("is_fraud", is_fraud)] tx) name =
  if decide ("is_fraud" = name) then Some is_fraud
  else if decide ("address_hash" = name) then Some (inject_fraud_rings.tx_addr st)
  else if decide ("card_hash" = name) then Some (inject_fraud_rings.tx_card st)
  else if decide ("ip" = name) then Some (inject_fraud_rings.tx_ip st)
  else if decide ("device_id" = name) then Some (inject_fraud_rings.tx_device st)
  else if decide ("ts" = name) then Some (inject_fraud_rings.tx_ts st)
  else if decide ("person_id" = name) then Some (inject_fraud_rings.tx_person st)
  else lookup_column tx name.
Proof. unfold with_columns. simpl. by rewrite !lookup_with_column. Qed.

Lemma column_Ok df name c : column df name = Ok c ↔ lookup_column df name = Some c.
Proof.
  unfold column. destruct (lookup_column df name); split; congruence.
Qed.

Section InjectorRows.
Context `{PyRandom G}.
Import inject_fraud_rings.
Implicit Types (g : G) (cfg : RingConfig).

(** The rows of [tx_out] against those of [tx]: shared groundwork of
    the theorems below. *)
Lemma inject_rows cfg people tx devices ips cards addrs g r g' :
  inject cfg people tx devices ips cards addrs g = Ok (r, g') →
  ∃ st0 st is_fraud,
    (column tx "person_id" = Ok (tx_person st0)
     ∧ column tx "ts" = Ok (tx_ts st0)
     ∧ column tx "device_id" = Ok (tx_device st0)
     ∧ column tx "ip" = Ok (tx_ip st0)
     ∧ column tx "card_hash" = Ok (tx_card st0)
     ∧ column tx "address_hash" = Ok (tx_addr st0))
    ∧ NoDup (fraud_idx r)
    ∧ (∀ i, i ∉ fraud_idx r → same_row st0 st i)
    ∧ (∀ idx, idx ∈ fraud_idx r →
         coerced_row cfg (rings r) (ring_shared r) (anchor_times r) st0 st idx)
    ∧ mark_fraud (replicate (height tx) (VInt 0)) (fraud_idx r) = Ok is_fraud
    ∧ ∀ name, lookup_column (tx_out r) name =
        if decide ("is_fraud" = name) then Some is_fraud
        else if decide ("address_hash" = name) then Some (tx_addr st)
        else if decide ("card_hash" = name) then Some (tx_card st)
        else if decide ("ip" = name) then Some (tx_ip st)
        else if decide ("device_id" = name) then Some (tx_device st)
        else if decide ("ts" = name) then Some (tx_ts st)
        else if decide ("person_id" = name) then Some (tx_person st)
        else lookup_column tx name.
Proof.
  intros (ids & person0 & ts0 & device0 & ip0 & card0 & addr0 & kd & ki & kc & ka
          & st & is_fraud & g1 & g2 & g3 & g4 & Hids & Hrings & Hidx & Hcols
          & Hhot & Hshared & Hanchor & Hloop & Hmark & Hout)%inject_Ok.
  apply pick_fraud_idx_Ok in Hidx as (n_fraud & _ & _ & _ & Hnd & _).
  apply coerce_loop_Ok in Hloop as [Hframe Hrows]; [|done].
  destruct Hcols as (? & ? & ? & ? & ? & ?).
  exists {| tx_person := person0; tx_ts := ts0; tx_device := device0;
            tx_ip := ip0; tx_card := card0; tx_addr := addr0 |}, st, is_fraud.
  simpl. split_and!; try done.
  intros name. rewrite Hout. apply lookup_tx_out.
Qed.
End InjectorRows.

Section InjectorTheorems.
Context `{PyRandom G}.
Import inject_fraud_rings.
Implicit Types (g : G) (cfg : RingConfig).

(** C2, as amended.  A run of the Ring Injector that returns has
    computed [n_fraud = int(n_total * fraud_tx_share) >= 1] and selected
    exactly [min(n_fraud, n_total)] distinct rows (so exactly [n_fraud]
    rows whenever [n_fraud <= n_total]); in the table it writes,
    [is_fraud] is 1 at the selected rows and 0 at all others, and the
    number of rows with [is_fraud = 1] is the number of selected rows.
    With [n_fraud >= 1] the selection itself always returns; when
    [n_fraud] computes to zero or less, the run raises. *)
Theorem label_cardinality cfg people tx devices ips cards addrs g :
  (∀ r g', inject cfg people tx devices ips cards addrs g = Ok (r, g') →
    ∃ n_fraud is_fraud,
      fraud_count cfg (height tx) = Ok n_fraud
      ∧ (1 ≤ n_fraud)%Z
      ∧ length (fraud_idx r) = Z.to_nat (Z.min n_fraud (Z.of_nat (height tx)))
      ∧ ((n_fraud ≤ Z.of_nat (height tx))%Z → Z.of_nat (length (fraud_idx r)) = n_fraud)
      ∧ NoDup (fraud_idx r)
      ∧ (∀ i, i ∈ fraud_idx r → i < height tx)
      ∧ column (tx_out r) "is_fraud" = Ok is_fraud
      ∧ length is_fraud = height tx
      ∧ (∀ i, i < height tx →
           is_fraud !! i = Some (VInt (if decide (i ∈ fraud_idx r) then 1 else 0)))
      ∧ length (filter (λ v, v = VInt 1) is_fraud) = length (fraud_idx r))
  ∧ (∀ n_fraud g1, fraud_count cfg (height tx) = Ok n_fraud → (1 ≤ n_fraud)%Z →
       ∃ idxs g2, pick_fraud_idx cfg (height tx) g1 = Ok (idxs, g2))
  ∧ (∀ n_fraud, fraud_count cfg (height tx) = Ok n_fraud → (n_fraud ≤ 0)%Z →
       ∃ e, inject cfg people tx devices ips cards addrs g = Raise e).
Proof.
  split_and!.
  - intros r g' Hr.
    pose proof Hr as (ids & person0 & ts0 & device0 & ip0 & card0 & addr0 & kd & ki
          & kc & ka & st & is_fraud & g1 & g2 & g3 & g4 & Hids & Hrings & Hidx
          & Hcols & Hhot & Hshared & Hanchor & Hloop & Hmark & Hout)%inject_Ok.
    apply pick_fraud_idx_Ok in Hidx as (n_fraud & Hn & Hpos & Hlen & Hnd & Hlt).
    pose proof (mark_fraud_Ok _ _ _ Hmark) as (Hl & Hin & Hnotin).
    rewrite length_replicate in Hl, Hin.
    exists n_fraud, is_fraud. split_and!; try done; try lia.
    + apply column_Ok. rewrite Hout, lookup_tx_out. by rewrite decide_True.
    + intros i Hi. case_decide as Hsel.
      * by apply Hin.
      * rewrite Hnotin by done. by apply lookup_replicate_2.
    + erewrite mark_fraud_count; [|done| |done].
      * rewrite filter_replicate_ne by done. simpl. lia.
      * intros i Hi. apply lookup_replicate_2. by apply Hlt.
  - intros n_fraud g1 Hn Hpos. by eapply pick_fraud_idx_total.
  - intros n_fraud Hn Hle. unfold inject.
    destruct (lift (column people "person_id") g) as [[ids g0]|e] eqn:E1;
      [rewrite (bind_step _ _ _ _ _ E1)|rewrite (bind_Raise _ _ _ _ E1); eauto].
    destruct (ring_membership cfg ids g0) as [[[sh rs] g1]|e] eqn:E2;
      [rewrite (bind_step _ _ _ _ _ E2)|rewrite (bind_Raise _ _ _ _ E2); eauto].
    destruct (pick_fraud_idx_Raise cfg (height tx) g1) as [e E3]; [by rewrite Hn|].
    rewrite (bind_Raise _ _ _ _ E3). eauto.
Qed.


(** C8.  When the Person ids of the people table are distinct, the
    rings the Ring Injector constructs are disjoint sets of Person ids:
    no id occurs twice across the rings, two different rings share no
    id, and every member is an id of the people table. *)
Theorem ring_disjointness cfg people tx devices ips cards addrs g r g' ids :
  column people "person_id" = Ok ids →
  NoDup ids →
  inject cfg people tx devices ips cards addrs g = Ok (r, g') →
  NoDup (concat (rings r))
  ∧ (∀ i j r1 r2 x, i ≠ j → rings r !! i = Some r1 → rings r !! j = Some r2 →
       x ∈ r1 → x ∉ r2)
  ∧ (∀ r1 x, r1 ∈ rings r → x ∈ r1 → x ∈ ids).
Proof.
  intros Hids Hnd (ids' & person0 & ts0 & device0 & ip0 & card0 & addr0 & kd & ki
          & kc & ka & st & is_fraud & g1 & g2 & g3 & g4 & Hids' & Hrings & _)%inject_Ok.
  rewrite Hids in Hids'. simplify_eq.
  apply ring_membership_Ok in Hrings as (Hperm & _ & _ & _ & Hpre & _).
  assert (NoDup (concat (rings r))) as Hnd'.
  { destruct Hpre as [k Hk]. rewrite <-Hperm, Hk in Hnd.
    by apply NoDup_app in Hnd as (? & _ & _). }
  split_and!; [done|..].
  - intros i j r1 r2 x Hij Hi Hj. by eapply NoDup_concat_disjoint.
  - intros r1 x Hr1 Hx. rewrite <-Hperm. destruct Hpre as [k ->].
    apply elem_of_app. left. apply elem_of_concat. eauto.
Qed.

(** C9.  One anchor timestamp is drawn per ring, at distinct positions
    of the timestamp column as it was read (a sample without
    replacement), and every coerced row ends with the anchor of the ring
    chosen for it, moved by a whole number of hours [h] with
    [|h| <= burst_hours_window]; its person is a member of that ring. *)
Theorem burst_timing cfg people tx devices ips cards addrs g r g' :
  inject cfg people tx devices ips cards addrs g = Ok (r, g') →
  ∃ ts0 positions,
    column tx "ts" = Ok ts0
    ∧ length (anchor_times r) = length (rings r)
    ∧ NoDup positions
    ∧ Forall2 (λ p anchor, ts0 !! p = Some anchor) positions (anchor_times r)
    ∧ ∀ idx, idx ∈ fraud_idx r →
        ∃ r_i members member a h,
          rings r !! r_i = Some members
          ∧ member ∈ members
          ∧ cell (tx_out r) "person_id" idx = Some member
          ∧ anchor_times r !! r_i = Some (VTime a)
          ∧ (Z.abs h ≤ burst_hours_window cfg)%Z
          ∧ cell (tx_out r) "ts" idx = Some (VTime (a + h * 3600 * 1000000)).
Proof.
  intros Hr.
  pose proof Hr as (ids & person0 & ts0 & device0 & ip0 & card0 & addr0 & kd & ki
          & kc & ka & st & is_fraud & g1 & g2 & g3 & g4 & Hids & Hrings & Hidx
          & Hcols & Hhot & Hshared & Hanchor & Hloop & Hmark & Hout)%inject_Ok.
  apply pick_fraud_idx_Ok in Hidx as (n_fraud & _ & _ & _ & Hnd & _).
  apply coerce_loop_Ok in Hloop as [_ Hrows]; [|done].
  apply sample_Ok in Hanchor as (positions & Hlen & Hndp & Hpos).
  exists ts0, positions. split_and!; try tauto.
  - by rewrite <-(Forall2_length _ _ _ Hpos).
  - intros idx Hidx. apply Hrows in Hidx
      as (r_i & members & sh & anchor & member & h & t & Hri & _ & Han & Hmem & Hh
          & Ht & Hp & Hts & _).
    unfold datetime_add in Ht. destruct anchor as [| | |a]; try done.
    case_match; [|done]. simplify_eq.
    exists r_i, members, member, a, h. unfold cell.
    rewrite Hout, !lookup_tx_out. simpl.
    split_and!; try done. lia.
Qed.

(** C10.  The Ring Injector leaves every column it does not write as it
    was (among them [tx_id], [amount], [currency] and [merchant_id]); in
    a row that was not selected, every cell other than the label is what
    it was, and the label is 0. *)
Theorem injection_frame cfg people tx devices ips cards addrs g r g' :
  inject cfg people tx devices ips cards addrs g = Ok (r, g') →
  (∀ name, name ∉ written_columns →
     lookup_column (tx_out r) name = lookup_column tx name)
  ∧ Forall (λ name, lookup_column (tx_out r) name = lookup_column tx name)
      ["tx_id"; "amount"; "currency"; "merchant_id"]
  ∧ (∀ name i, name ≠ "is_fraud" → i ∉ fraud_idx r →
       cell (tx_out r) name i = cell tx name i)
  ∧ (∀ i, i < height tx → i ∉ fraud_idx r →
       cell (tx_out r) "is_fraud" i = Some (VInt 0)).
Proof.
  intros (st0 & st & is_fraud & (Hc1 & Hc2 & Hc3 & Hc4 & Hc5 & Hc6) & Hnd
          & Hframe & _ & Hmark & Hout)%inject_rows.
  apply column_Ok in Hc1, Hc2, Hc3, Hc4, Hc5, Hc6.
  assert (∀ name, name ∉ written_columns →
            lookup_column (tx_out r) name = lookup_column tx name) as Hother.
  { intros name Hname. rewrite Hout.
    repeat (case_decide; [subst; exfalso; apply Hname; unfold written_columns;
                          set_solver|]).
    done. }
  split_and!; [done|..].
  - repeat constructor; apply Hother; compute_done.
  - intros name i Hname Hi. unfold cell. rewrite Hout.
    destruct (Hframe i Hi) as (Hp & Ht & Hd & Hip & Hca & Ha).
    repeat (case_decide; [subst; try done;
      first [rewrite Hc1|rewrite Hc2|rewrite Hc3|rewrite Hc4|rewrite Hc5|rewrite Hc6];
      done|]).
    done.
  - intros i Hi Hsel. unfold cell. rewrite Hout. simpl.
    apply mark_fraud_Ok in Hmark as (_ & _ & Hnotin).
    rewrite Hnotin by done. by apply lookup_replicate_2.
Qed.
End InjectorTheorems.

(** ** The Reuse Sampler against its concentration model *)






Section ConcentrationModel.
Context `{PyRandom G}.



End ConcentrationModel.



(** *** Comparisons with a positive finite float *)






Section SamplerFacts.
Context `{PyRandom G}.
Import enrich_infrastructure.
Implicit Types g : G.





End SamplerFacts.

(** ** Generated IP addresses, and the table the Reuse Sampler needs *)

(** The address [a.b.c.d]. *)
Definition dotted (a b c d : Z) : value :=
  VStr (decimal (Z.to_nat a) +:+ "." +:+ decimal (Z.to_nat b) +:+ "."
        +:+ decimal (Z.to_nat c) +:+ "." +:+ decimal (Z.to_nat d)).

(** [10.0.0.0/8], [172.16.0.0/12] or [192.168.0.0/16], with a last octet
    between 1 and 254. *)
Definition private_ipv4 (a b c d : Z) : Prop :=
  ((a = 10 ∧ 0 ≤ b ≤ 255) ∨ (a = 172 ∧ 16 ≤ b ≤ 31) ∨ (a = 192 ∧ b = 168))%Z
  ∧ (0 ≤ c ≤ 255)%Z ∧ (1 ≤ d ≤ 254)%Z.

Section EnrichFacts.
Context `{PyRandom G}.
Import enrich_infrastructure.
Implicit Types g : G.

Lemma octet_total a b g :
  (a ≤ b)%Z → ∃ z g', octet a b g = Ok (decimal (Z.to_nat z), g') ∧ (a ≤ z ≤ b)%Z.
Proof.
  intros Hab. destruct (randint_total a b g Hab) as (z & g' & Hz).
  exists z, g'. split; [|by eapply randint_Ok].
  unfold octet. by rewrite (bind_step _ _ _ _ _ Hz).
Qed.

Lemma random_ipv4_returns g :
  ∃ a b c d g', _random_ipv4 g = Ok (dotted a b c d, g') ∧ private_ipv4 a b c d.
Proof.
  unfold _random_ipv4.
  destruct (choice_total [10; 172; 192]%Z g) as (a & g1 & Ha); [done|].
  rewrite (bind_step _ _ _ _ _ Ha). apply choice_Ok in Ha.
  apply elem_of_cons in Ha as [-> | Ha]; [|apply elem_of_cons in Ha as [-> | Ha]].
  - rewrite decide_True by done.
    destruct (octet_total 0 255 g1) as (b & g2 & Hb & ?); [lia|].
    destruct (octet_total 0 255 g2) as (c & g3 & Hc & ?); [lia|].
    destruct (octet_total 1 254 g3) as (d & g4 & Hd & ?); [lia|].
    rewrite (bind_step _ _ _ _ _ Hb), (bind_step _ _ _ _ _ Hc), (bind_step _ _ _ _ _ Hd).
    exists 10%Z, b, c, d, g4. split; [reflexivity|]. unfold private_ipv4. lia.
  - rewrite decide_False by done. rewrite decide_True by done.
    destruct (octet_total 16 31 g1) as (b & g2 & Hb & ?); [lia|].
    destruct (octet_total 0 255 g2) as (c & g3 & Hc & ?); [lia|].
    destruct (octet_total 1 254 g3) as (d & g4 & Hd & ?); [lia|].
    rewrite (bind_step _ _ _ _ _ Hb), (bind_step _ _ _ _ _ Hc), (bind_step _ _ _ _ _ Hd).
    exists 172%Z, b, c, d, g4. split; [reflexivity|]. unfold private_ipv4. lia.
  - apply list_elem_of_singleton in Ha as ->.
    rewrite decide_False by done. rewrite decide_False by done.
    destruct (octet_total 0 255 g1) as (c & g3 & Hc & ?); [lia|].
    destruct (octet_total 1 254 g3) as (d & g4 & Hd & ?); [lia|].
    rewrite (bind_step _ _ _ _ _ Hc), (bind_step _ _ _ _ _ Hd).
    exists 192%Z, 168%Z, c, d, g4. split; [reflexivity|]. unfold private_ipv4. lia.
Qed.

(** [_random_ipv4] always returns, and what it returns is an address of
    one of the three private ranges. *)
Theorem random_ipv4_private g :
  ∃ a b c d g', _random_ipv4 g = Ok (dotted a b c d, g') ∧ private_ipv4 a b c d.
Proof. apply random_ipv4_returns. Qed.

(** Without a transactions table the Reuse Sampler refuses to run, and
    its message names the file and the stage that writes it. *)
Theorem enrich_missing_transactions infra fs g :
  fs !! "transactions.parquet" = None →
  enrich_infrastructure.main infra fs g =
  Raise (FileNotFoundError
    "Expected data/bronze/transactions.parquet to exist. Run generate_bronze first.").
Proof.
  intros Hfs. unfold enrich_infrastructure.main.
  rewrite (bind_step _ _ g () (seed (enrich_infrastructure.infra_seed infra))) by done.
  apply bind_Raise. by rewrite Hfs.
Qed.
End EnrichFacts.

(** ** Match-or-create on lists *)

(** What a run of [MERGE]s does to the list of keys the store holds: each
    key that is not there yet is appended. *)
Definition add_new {A} `{EqDecision A} (xs : list A) (l : list A) : list A :=
  foldl (λ l x, if decide (x ∈ l) then l else l ++ [x]) l xs.

Section AddNew.
Context {A : Type} `{EqDecision A}.
Implicit Types (x : A) (xs l : list A).

Lemma add_new_app xs ys l : add_new (xs ++ ys) l = add_new ys (add_new xs l).
Proof. unfold add_new. apply foldl_app. Qed.

Lemma elem_of_add_new xs : ∀ l x, x ∈ add_new xs l ↔ x ∈ l ∨ x ∈ xs.
Proof.
  induction xs as [|y xs IH]; intros l x; simpl.
  - rewrite elem_of_nil. tauto.
  - rewrite IH, elem_of_cons. case_decide as Hy.
    + split; [tauto|]. intros [?|[->|?]]; auto.
    + rewrite elem_of_app, list_elem_of_singleton. tauto.
Qed.

Lemma add_new_NoDup xs : ∀ l, NoDup l → NoDup (add_new xs l).
Proof.
  induction xs as [|y xs IH]; intros l Hl; simpl; [done|].
  apply IH. case_decide as Hy; [done|].
  apply NoDup_app. split_and!; [done| |apply NoDup_singleton].
  intros x Hx ->%list_elem_of_singleton. done.
Qed.

Lemma add_new_present xs : ∀ l, (∀ x, x ∈ xs → x ∈ l) → add_new xs l = l.
Proof.
  induction xs as [|y xs IH]; intros l Hin; simpl; [done|].
  rewrite decide_True by (apply Hin; by left).
  apply IH. intros x Hx. apply Hin. by right.
Qed.

Lemma add_new_prefix xs : ∀ l, l `prefix_of` add_new xs l.
Proof.
  induction xs as [|y xs IH]; intros l; simpl; [done|].
  case_decide; [apply IH|].
  etrans; [|apply IH]. by apply prefix_app_r.
Qed.

Lemma add_new_idemp xs l : add_new xs (add_new xs l) = add_new xs l.
Proof. apply add_new_present. intros x Hx. apply elem_of_add_new. by right. Qed.
End AddNew.

(** ** The Graph Loader *)

Section LoaderFacts.
Import load_bronze.
Implicit Types (g : graph) (i : node_id) (r : tx_row).

(** *** Batches *)

Lemma concat_chunked_from {A} fuel : ∀ (l : list A) size,
  0 < size → length l ≤ fuel → concat (chunked_from fuel l size) = l.
Proof.
  induction fuel as [|fuel IH]; intros l size Hsize Hlen.
  - destruct l; [done|simpl in Hlen; lia].
  - destruct l as [|x l]; [done|].
    cbn [chunked_from concat]. rewrite IH; [apply take_drop|done|].
    rewrite length_drop. simpl in *. lia.
Qed.

Lemma concat_chunked {A} (l : list A) size : 0 < size → concat (chunked l size) = l.
Proof. intros. by apply concat_chunked_from. Qed.

Lemma chunked_from_sizes {A} fuel : ∀ (l : list A) size,
  0 < size → Forall (λ batch, 0 < length batch ≤ size) (chunked_from fuel l size).
Proof.
  induction fuel as [|fuel IH]; intros l size Hsize; [constructor|].
  destruct l as [|x l]; [constructor|].
  cbn [chunked_from]. constructor; [|by apply IH].
  rewrite length_take. simpl. lia.
Qed.

(** [chunked] cuts a list into consecutive batches: put end to end they
    are the list, none is empty and none is longer than the batch size. *)
Theorem chunked_partition {A} (l : list A) (size : nat) :
  0 < size →
  concat (chunked l size) = l
  ∧ Forall (λ batch, 0 < length batch ≤ size) (chunked l size).
Proof.
  intros Hsize. split; [by apply concat_chunked|by apply chunked_from_sizes].
Qed.

(** *** Clauses *)

Lemma node_ids_merge_node i g :
  node_ids (merge_node i g) = add_new [i] (node_ids g).
Proof.
  unfold merge_node, add_new. simpl. case_decide; [done|].
  unfold node_ids. simpl. by rewrite fmap_app.
Qed.

Lemma rels_merge_node i g : rels (merge_node i g) = rels g.
Proof. unfold merge_node. by case_decide. Qed.

Lemma node_ids_set_props i a g : node_ids (set_props i a g) = node_ids g.
Proof.
  unfold node_ids, set_props. simpl. rewrite <-list_fmap_compose.
  apply list_fmap_ext. intros _ n _. simpl. by case_decide.
Qed.

Lemma rels_set_props i a g : rels (set_props i a g) = rels g.
Proof. done. Qed.

Lemma node_ids_merge_rel x g : node_ids (merge_rel x g) = node_ids g.
Proof. unfold merge_rel. by case_decide. Qed.

Lemma rels_merge_rel x g : rels (merge_rel x g) = add_new [x] (rels g).
Proof. unfold merge_rel, add_new. simpl. by case_decide. Qed.

Lemma node_ids_merge_nodes {B} (f : B → node_id) (xs : list B) : ∀ g,
  node_ids (foldl (λ g x, merge_node (f x) g) g xs) = add_new (f <$> xs) (node_ids g).
Proof.
  induction xs as [|x xs IH]; intros g; simpl; [done|].
  rewrite IH, node_ids_merge_node. done.
Qed.

Lemma rels_merge_nodes {B} (f : B → node_id) (xs : list B) : ∀ g,
  rels (foldl (λ g x, merge_node (f x) g) g xs) = rels g.
Proof.
  induction xs as [|x xs IH]; intros g; simpl; [done|].
  by rewrite IH, rels_merge_node.
Qed.

Lemma node_ids_set_all {B} (f : B → node_id) (a : B → list (string * value)) xs : ∀ g,
  node_ids (foldl (λ g x, set_props (f x) (a x) g) g xs) = node_ids g.
Proof.
  induction xs as [|x xs IH]; intros g; simpl; [done|].
  by rewrite IH, node_ids_set_props.
Qed.

Lemma rels_set_all {B} (f : B → node_id) (a : B → list (string * value)) xs : ∀ g,
  rels (foldl (λ g x, set_props (f x) (a x) g) g xs) = rels g.
Proof.
  induction xs as [|x xs IH]; intros g; simpl; [done|].
  by rewrite IH.
Qed.

Lemma node_ids_rel_clause f rows : ∀ g, node_ids (rel_clause f rows g) = node_ids g.
Proof.
  unfold rel_clause. induction rows as [|x xs IH]; intros g; simpl; [done|].
  by rewrite IH, node_ids_merge_rel.
Qed.

Lemma rels_rel_clause f rows : ∀ g,
  rels (rel_clause f rows g) = add_new (f <$> rows) (rels g).
Proof.
  unfold rel_clause. induction rows as [|x xs IH]; intros g; simpl; [done|].
  by rewrite IH, rels_merge_rel.
Qed.

(** *** Phase 1 *)

Definition entity_ids (l : label) (rows : list entity_row) : list node_id :=
  (λ e, (l, e_key e)) <$> rows.

Lemma node_ids_node_query l batch g :
  node_ids (node_query l batch g) = add_new (entity_ids l batch) (node_ids g).
Proof.
  unfold node_query. by rewrite node_ids_set_all, node_ids_merge_nodes.
Qed.

Lemma rels_node_query l batch g : rels (node_query l batch g) = rels g.
Proof. unfold node_query. by rewrite rels_set_all, rels_merge_nodes. Qed.

Lemma node_ids_batches l (batches : list (list entity_row)) : ∀ g,
  node_ids (foldl (λ g batch, node_query l batch g) g batches)
  = add_new (entity_ids l (concat batches)) (node_ids g).
Proof.
  induction batches as [|b bs IH]; intros g; simpl; [done|].
  rewrite IH, node_ids_node_query. unfold entity_ids.
  by rewrite fmap_app, add_new_app.
Qed.

Lemma rels_batches l (batches : list (list entity_row)) : ∀ g,
  rels (foldl (λ g batch, node_query l batch g) g batches) = rels g.
Proof.
  induction batches as [|b bs IH]; intros g; simpl; [done|].
  by rewrite IH, rels_node_query.
Qed.

Lemma node_ids_merge_nodes_query l rows size g :
  0 < size →
  node_ids (merge_nodes (node_query l) rows size g)
  = add_new (entity_ids l rows) (node_ids g).
Proof.
  intros Hsize. unfold merge_nodes. by rewrite node_ids_batches, concat_chunked.
Qed.

Lemma rels_merge_nodes_query l rows size g :
  rels (merge_nodes (node_query l) rows size g) = rels g.
Proof. unfold merge_nodes. apply rels_batches. Qed.

(** The nodes Phase 1 upserts, in order. *)
Definition all_entity_ids (t : tables) : list node_id :=
  entity_ids Person (people_rows t) ++ entity_ids Merchant (merchant_rows t)
  ++ entity_ids Device (device_rows t) ++ entity_ids IP (ip_rows t)
  ++ entity_ids Card (card_rows t) ++ entity_ids Address (addr_rows t).

Lemma node_ids_load_nodes t g :
  node_ids (load_nodes t g) = add_new (all_entity_ids t) (node_ids g).
Proof.
  unfold load_nodes, all_entity_ids.
  rewrite !node_ids_merge_nodes_query by lia.
  by rewrite !add_new_app.
Qed.

Lemma rels_load_nodes t g : rels (load_nodes t g) = rels g.
Proof. unfold load_nodes. by rewrite !rels_merge_nodes_query. Qed.
End LoaderFacts.

Section LoaderPhase2.
Import load_bronze.
Implicit Types (g : graph) (i : node_id) (r : tx_row) (x : rel).

(** Two stores hold the same entity nodes (they may differ in their
    Transaction nodes). *)
Definition same_entities g g' : Prop :=
  ∀ i, i.1 ≠ Transaction → (i ∈ node_ids g ↔ i ∈ node_ids g').

Lemma same_entities_refl g : same_entities g g.
Proof. by intros i _. Qed.

Lemma same_entities_trans g1 g2 g3 :
  same_entities g1 g2 → same_entities g2 g3 → same_entities g1 g3.
Proof. intros H12 H23 i Hi. by rewrite (H12 i Hi), (H23 i Hi). Qed.

Lemma same_entities_node_ids g g' :
  node_ids g = node_ids g' → same_entities g g'.
Proof. intros Heq i _. by rewrite Heq. Qed.

Lemma referenced_entity r i : i ∈ referenced r → i.1 ≠ Transaction.
Proof.
  unfold referenced. rewrite !elem_of_cons, elem_of_nil.
  intros [-> | [-> | [-> | [-> | [-> | [-> | []]]]]]]; done.
Qed.

Lemma matches_same_entities g g' r :
  same_entities g g' → matches g r ↔ matches g' r.
Proof.
  intros Hsame. unfold matches. rewrite !Forall_forall.
  split; intros Hm i Hi; apply Hsame; eauto using referenced_entity.
Qed.

Lemma same_entities_add_tx g g' rows :
  node_ids g' = add_new (tx_node <$> rows) (node_ids g) → same_entities g g'.
Proof.
  intros Heq i Hi. rewrite Heq, elem_of_add_new. split; [by left|].
  intros [?|(r & -> & _)%list_elem_of_fmap]; done.
Qed.

(** The store after the [MERGE] and [SET] clauses of [tx_query]. *)
Definition tx_nodes_merged (batch : list tx_row) g : graph :=
  foldl (λ g r, set_props (tx_node r)
           [("ts", cy_datetime (r_ts r));
            ("amount", cy_toFloat (r_amount r));
            ("currency", r_currency r);
            ("is_fraud", cy_toInteger (r_is_fraud r))] g)
    (foldl (λ g r, merge_node (tx_node r) g) g batch) batch.

Lemma node_ids_tx_nodes_merged batch g :
  node_ids (tx_nodes_merged batch g) = add_new (tx_node <$> batch) (node_ids g).
Proof.
  unfold tx_nodes_merged.
  by rewrite (node_ids_set_all tx_node), (node_ids_merge_nodes tx_node).
Qed.

Lemma rels_tx_nodes_merged batch g : rels (tx_nodes_merged batch g) = rels g.
Proof.
  unfold tx_nodes_merged.
  by rewrite (rels_set_all tx_node), (rels_merge_nodes tx_node).
Qed.

Lemma node_ids_tx_query batch g :
  node_ids (tx_query batch g) = add_new (tx_node <$> batch) (node_ids g).
Proof.
  unfold tx_query. rewrite !node_ids_rel_clause. apply node_ids_tx_nodes_merged.
Qed.

Lemma rels_tx_query batch g :
  rels (tx_query batch g) =
  let rows := filter (matches g) batch in
  add_new (billed_to <$> rows)
    (add_new (paid_with <$> rows)
       (add_new (from_ip <$> rows)
          (add_new (used_device <$> rows)
             (add_new (to_merchant <$> rows)
                (add_new (made <$> rows) (rels g)))))).
Proof.
  unfold tx_query. fold (tx_nodes_merged batch g).
  rewrite !rels_rel_clause, rels_tx_nodes_merged.
  assert (filter (matches (tx_nodes_merged batch g)) batch = filter (matches g) batch)
    as ->; [|done].
  apply list_filter_iff. intros r. symmetry. apply matches_same_entities.
  eapply same_entities_add_tx, node_ids_tx_nodes_merged.
Qed.

Lemma elem_of_six_rels x r :
  x ∈ six_rels r ↔
  x = made r ∨ x = to_merchant r ∨ x = used_device r ∨ x = from_ip r
  ∨ x = paid_with r ∨ x = billed_to r.
Proof. unfold six_rels. rewrite !elem_of_cons, elem_of_nil. tauto. Qed.

(** The relationships one [tx_query] leaves: those of the store, and the
    six of every row of the batch whose referenced nodes all exist. *)
Lemma elem_of_rels_tx_query batch g x :
  x ∈ rels (tx_query batch g) ↔
  x ∈ rels g ∨ ∃ r, r ∈ batch ∧ matches g r ∧ x ∈ six_rels r.
Proof.
  rewrite rels_tx_query. cbv zeta. rewrite !elem_of_add_new, !list_elem_of_fmap.
  setoid_rewrite elem_of_six_rels. setoid_rewrite list_elem_of_filter. split.
  - intros [[[[[[?|(r & -> & ? & ?)]|(r & -> & ? & ?)]|(r & -> & ? & ?)]
             |(r & -> & ? & ?)]|(r & -> & ? & ?)]|(r & -> & ? & ?)];
      [by left|right; exists r; tauto..].
  - intros [?|(r & ? & ? & [-> | [-> | [-> | [-> | [-> | ->]]]]])]; [tauto|..].
    + do 5 left. right. eauto.
    + do 4 left. right. eauto.
    + do 3 left. right. eauto.
    + do 2 left. right. eauto.
    + left. right. eauto.
    + right. eauto.
Qed.

Lemma rels_tx_query_NoDup batch g : NoDup (rels g) → NoDup (rels (tx_query batch g)).
Proof. intros Hnd. rewrite rels_tx_query. cbv zeta. by do 6 apply add_new_NoDup. Qed.

(** A batch whose relationships are all in the store adds none. *)
Lemma rels_tx_query_present batch g :
  (∀ r x, r ∈ batch → matches g r → x ∈ six_rels r → x ∈ rels g) →
  rels (tx_query batch g) = rels g.
Proof.
  intros Hin. rewrite rels_tx_query. cbv zeta.
  assert (∀ f : tx_row → rel, (∀ r, f r ∈ six_rels r) →
            add_new (f <$> filter (matches g) batch) (rels g) = rels g) as Hf.
  { intros f Hsix. apply add_new_present.
    intros x (r & -> & [Hm Hr]%list_elem_of_filter)%list_elem_of_fmap.
    by apply (Hin r). }
  rewrite !Hf; [done|intros r; apply elem_of_six_rels; tauto..].
Qed.

(** *** Phase 2 over its batches *)

Lemma tx_batches (batches : list (list tx_row)) : ∀ g,
  let g' := foldl (λ g batch, tx_query batch g) g batches in
  node_ids g' = add_new (tx_node <$> concat batches) (node_ids g)
  ∧ (∀ x, x ∈ rels g' ↔
       x ∈ rels g ∨ ∃ r, r ∈ concat batches ∧ matches g r ∧ x ∈ six_rels r)
  ∧ (NoDup (rels g) → NoDup (rels g')).
Proof.
  induction batches as [|b bs IH]; intros g; simpl.
  - split_and!; [done| |done]. intros x. split; [by left|].
    by intros [?|(r & ?%elem_of_nil & _)].
  - destruct (IH (tx_query b g)) as (Hids & Hrels & Hnd).
    assert (same_entities g (tx_query b g)) as Hsame
      by (eapply same_entities_add_tx, node_ids_tx_query).
    split_and!.
    + by rewrite Hids, node_ids_tx_query, fmap_app, add_new_app.
    + intros x. rewrite Hrels, elem_of_rels_tx_query.
      setoid_rewrite elem_of_app.
      setoid_rewrite <-(matches_same_entities g (tx_query b g)); [|done..].
      split.
      * intros [[?|(r & ? & ?)]|(r & ? & ?)]; [by left|right; exists r; tauto..].
      * intros [?|(r & [?|?] & ?)]; [by do 2 left|left|]; right; exists r; tauto.
    + intros ?. by apply Hnd, rels_tx_query_NoDup.
Qed.

Lemma tx_batches_present (batches : list (list tx_row)) : ∀ g,
  (∀ r x, r ∈ concat batches → matches g r → x ∈ six_rels r → x ∈ rels g) →
  rels (foldl (λ g batch, tx_query batch g) g batches) = rels g.
Proof.
  induction batches as [|b bs IH]; intros g Hin; simpl; [done|].
  assert (rels (tx_query b g) = rels g) as Hb.
  { apply rels_tx_query_present. intros r x Hr. apply Hin.
    simpl. apply elem_of_app. by left. }
  rewrite IH, Hb; [done|]. intros r x Hr Hm. rewrite Hb. apply Hin.
  - simpl. apply elem_of_app. by right.
  - eapply matches_same_entities; [|done].
    eapply same_entities_add_tx, node_ids_tx_query.
Qed.
End LoaderPhase2.

(** *** Properties under repeated [SET]s *)

Section Assignments.
Import load_bronze.

(** [SET] items applied one after the other to a property list. *)
Definition assign (ps items : list (string * value)) : list (string * value) :=
  foldl (λ ps a, set_prop a.1 a.2 ps) ps items.

(** The value property [k] ends with: the last one assigned, or [d]. *)
Definition last_value (k : string) (d : value) (items : list (string * value)) : value :=
  foldl (λ d a, if decide (a.1 = k) then a.2 else d) d items.

Lemma last_value_cases k items : ∀ d,
  (∀ d', last_value k d' items = d')
  ∨ (∀ d', last_value k d' items = last_value k d items).
Proof.
  induction items as [|[k' v] items IH]; intros d; [by left|].
  unfold last_value. simpl. case_decide.
  - by right.
  - apply IH.
Qed.

Lemma last_value_idemp k d items :
  last_value k (last_value k d items) items = last_value k d items.
Proof. destruct (last_value_cases k items d) as [Hl|Hr]; [by rewrite !Hl|apply Hr]. Qed.

(** The head of a property list takes the assignments to its name; the
    others go on to the tail. *)
Lemma assign_cons k0 items : ∀ v0 ps,
  assign ((k0, v0) :: ps) items =
  (k0, last_value k0 v0 items) :: assign ps (filter (λ a, a.1 ≠ k0) items).
Proof.
  induction items as [|[k v] items IH]; intros v0 ps; [done|].
  unfold assign, last_value. simpl. rewrite filter_cons. simpl.
  destruct (decide (k0 = k)) as [->|Hne].
  - rewrite decide_True by done. rewrite decide_False by (by intros ?).
    apply IH.
  - rewrite (decide_False (P := k = k0)) by done. rewrite decide_True by done.
    apply IH.
Qed.

Lemma assign_idemp_bounded n : ∀ items, length items ≤ n →
  ∀ ps, assign (assign ps items) items = assign ps items.
Proof.
  induction n as [|n IHn]; intros items Hlen ps.
  { destruct items; [done|simpl in Hlen; lia]. }
  revert items Hlen. induction ps as [|[k0 v0] ps IHps]; intros items Hlen.
  - destruct items as [|[k v] items]; [done|].
    change (assign [] ((k, v) :: items)) with (assign [(k, v)] items).
    rewrite assign_cons. rewrite (assign_cons k ((k, v) :: items)).
    rewrite filter_cons_False by (cbn [fst]; intros Hk; by apply Hk).
    f_equal.
    + f_equal. unfold last_value at 1. cbn [foldl fst snd]. by rewrite decide_True.
    + apply IHn. pose proof (length_filter (λ a, a.1 ≠ k) items). simpl in *. lia.
  - rewrite assign_cons. rewrite (assign_cons k0 items). f_equal.
    + f_equal. apply last_value_idemp.
    + apply IHps. pose proof (length_filter (λ a, a.1 ≠ k0) items). lia.
Qed.

(** Applying the same assignments a second time changes nothing. *)
Lemma assign_idemp ps items : assign (assign ps items) items = assign ps items.
Proof. by apply (assign_idemp_bounded (length items)). Qed.

Lemma assign_app ps items1 items2 :
  assign ps (items1 ++ items2) = assign (assign ps items1) items2.
Proof. apply foldl_app. Qed.
End Assignments.


(** *** Upserts *)

Section Upserts.
Import load_bronze.
Implicit Types (g : graph) (i j : node_id) (n : node).

(** What one row asks of a node query: the node to [MERGE] and the
    properties to [SET] on it. *)
Definition upsert_item : Type := node_id * list (string * value).

Definition merge_all (items : list upsert_item) g : graph :=
  foldl (λ g o, merge_node o.1 g) g items.

Definition set_all (items : list upsert_item) g : graph :=
  foldl (λ g o, set_props o.1 o.2 g) g items.

(** [UNWIND $rows AS r MERGE ... SET ...] over the rows [items]. *)
Definition upsert (items : list upsert_item) g : graph :=
  set_all items (merge_all items g).

(** All the assignments [items] hold for node [i], in order. *)
Definition assignments (items : list upsert_item) i : list (string * value) :=
  concat (snd <$> filter (λ o, o.1 = i) items).

(** Node [n] with all the assignments [items] hold for it applied. *)
Definition updated (items : list upsert_item) n : node :=
  {| n_id := n_id n; n_props := assign (n_props n) (assignments items (n_id n)) |}.

Lemma graph_eq g g' : nodes g = nodes g' → rels g = rels g' → g = g'.
Proof. destruct g, g'. simpl. by intros -> ->. Qed.

Lemma nodes_set_all items : ∀ g, nodes (set_all items g) = updated items <$> nodes g.
Proof.
  induction items as [|[i a] items IH]; intros g.
  - simpl. symmetry. etrans; [|apply list_fmap_id].
    apply list_fmap_ext. intros _ [] _. done.
  - unfold set_all in *. simpl. rewrite IH. simpl.
    rewrite <-list_fmap_compose. apply list_fmap_ext. intros _ n _.
    unfold updated, assignments, compose. rewrite filter_cons. simpl.
    case_decide as Hn.
    + rewrite decide_True by done. simpl. by rewrite assign_app.
    + rewrite decide_False by done. done.
Qed.

Lemma rels_set_items items g : rels (set_all items g) = rels g.
Proof. apply (rels_set_all fst snd). Qed.

Lemma node_ids_set_items items g : node_ids (set_all items g) = node_ids g.
Proof. apply (node_ids_set_all fst snd). Qed.

Lemma updated_idemp items n : updated items (updated items n) = updated items n.
Proof. unfold updated. simpl. by rewrite assign_idemp. Qed.

Lemma set_all_idemp items g : set_all items (set_all items g) = set_all items g.
Proof.
  apply graph_eq; [|by rewrite !rels_set_items].
  rewrite !nodes_set_all, <-list_fmap_compose.
  apply list_fmap_ext. intros _ n _. apply updated_idemp.
Qed.

Lemma set_props_merge_node i a j g :
  i ∈ node_ids g → set_props i a (merge_node j g) = merge_node j (set_props i a g).
Proof.
  intros Hi. unfold merge_node. rewrite node_ids_set_props.
  case_decide as Hj; [done|].
  apply graph_eq; [|done]. simpl. rewrite fmap_app. f_equal. simpl.
  rewrite decide_False; [done|]. simpl. by intros ->.
Qed.

Lemma set_all_merge_node items j : ∀ g,
  (∀ o, o ∈ items → o.1 ∈ node_ids g) →
  set_all items (merge_node j g) = merge_node j (set_all items g).
Proof.
  induction items as [|o items IH]; intros g Hin; [done|].
  unfold set_all in *. simpl.
  rewrite set_props_merge_node by (apply Hin; by left).
  apply IH. intros o' Ho'. rewrite node_ids_set_props. apply Hin. by right.
Qed.

Lemma node_ids_merge_all items g :
  node_ids (merge_all items g) = add_new (fst <$> items) (node_ids g).
Proof. apply (node_ids_merge_nodes fst). Qed.

Lemma set_all_merge_all items ms : ∀ g,
  (∀ o, o ∈ items → o.1 ∈ node_ids g) →
  set_all items (merge_all ms g) = merge_all ms (set_all items g).
Proof.
  induction ms as [|m ms IH]; intros g Hin; [done|].
  unfold merge_all in *. simpl. rewrite IH.
  - by rewrite set_all_merge_node.
  - intros o Ho. rewrite node_ids_merge_node. apply elem_of_add_new. left. by apply Hin.
Qed.

Lemma merged_present items g o : o ∈ items → o.1 ∈ node_ids (merge_all items g).
Proof.
  intros Ho. rewrite node_ids_merge_all. apply elem_of_add_new. right.
  by apply list_elem_of_fmap_2.
Qed.

(** Batch boundaries are immaterial: two upserts in a row are the upsert
    of the rows put together. *)
Lemma upsert_app items1 items2 g :
  upsert (items1 ++ items2) g = upsert items2 (upsert items1 g).
Proof.
  unfold upsert, set_all, merge_all. rewrite !foldl_app.
  fold (merge_all items1 g). fold (merge_all items2 (merge_all items1 g)).
  fold (set_all items1 (merge_all items2 (merge_all items1 g))).
  rewrite set_all_merge_all by (intros o; apply merged_present).
  done.
Qed.

Lemma upsert_batches (batches : list (list upsert_item)) : ∀ g,
  foldl (λ g b, upsert b g) g batches = upsert (concat batches) g.
Proof.
  induction batches as [|b bs IH]; intros g; [done|].
  simpl. by rewrite IH, upsert_app.
Qed.

Lemma merge_all_present items : ∀ g,
  (∀ o, o ∈ items → o.1 ∈ node_ids g) → merge_all items g = g.
Proof.
  induction items as [|o items IH]; intros g Hin; [done|].
  unfold merge_all in *. simpl. unfold merge_node at 2.
  rewrite decide_True by (apply Hin; by left).
  apply IH. intros o' Ho'. apply Hin. by right.
Qed.

(** An upsert run a second time changes nothing. *)
Lemma upsert_idemp items g : upsert items (upsert items g) = upsert items g.
Proof.
  unfold upsert at 1. rewrite merge_all_present.
  - unfold upsert. apply set_all_idemp.
  - intros o Ho. unfold upsert. rewrite node_ids_set_items. by apply merged_present.
Qed.

(** The nodes an upsert leaves depend on the nodes it finds only. *)
Lemma nodes_upsert_ext items : ∀ g g',
  nodes g = nodes g' → nodes (upsert items g) = nodes (upsert items g').
Proof.
  intros g g' Heq. unfold upsert. rewrite !nodes_set_all. f_equal.
  revert g g' Heq. induction items as [|o items IH]; intros g g' Heq; [done|].
  unfold merge_all in *. simpl. apply IH.
  unfold merge_node, node_ids. rewrite Heq. by case_decide.
Qed.
End Upserts.


Section LoaderState.
Import load_bronze.
Implicit Types (g : graph) (t : tables).

(** The rows of an entity table, and of the Transaction table, as the
    upserts their queries make. *)
Definition entity_items (l : label) (rows : list entity_row) : list upsert_item :=
  (λ r, ((l, e_key r), e_attrs r)) <$> rows.

Definition tx_items (rows : list tx_row) : list upsert_item :=
  (λ r, (tx_node r,
         [("ts", cy_datetime (r_ts r));
          ("amount", cy_toFloat (r_amount r));
          ("currency", r_currency r);
          ("is_fraud", cy_toInteger (r_is_fraud r))])) <$> rows.

Definition all_items t : list upsert_item :=
  (entity_items Person (people_rows t) ++ entity_items Merchant (merchant_rows t)
   ++ entity_items Device (device_rows t) ++ entity_items IP (ip_rows t)
   ++ entity_items Card (card_rows t) ++ entity_items Address (addr_rows t))
  ++ tx_items (transaction_rows t).

Lemma node_query_upsert l batch g :
  node_query l batch g = upsert (entity_items l batch) g.
Proof.
  unfold node_query, upsert, set_all, merge_all, entity_items.
  by rewrite !foldl_fmap.
Qed.

Lemma node_batches_upsert l (batches : list (list entity_row)) : ∀ g,
  foldl (λ g batch, node_query l batch g) g batches
  = upsert (entity_items l (concat batches)) g.
Proof.
  induction batches as [|b bs IH]; intros g; [done|].
  simpl. rewrite IH, node_query_upsert. unfold entity_items.
  by rewrite fmap_app, upsert_app.
Qed.

(** Phase 1 for one entity kind is one upsert of all its rows, whatever
    the batch size. *)
Lemma merge_nodes_upsert l rows size g :
  0 < size → merge_nodes (node_query l) rows size g = upsert (entity_items l rows) g.
Proof.
  intros Hsize. unfold merge_nodes. by rewrite node_batches_upsert, concat_chunked.
Qed.

Lemma load_nodes_upsert t g :
  load_nodes t g =
  upsert (entity_items Person (people_rows t) ++ entity_items Merchant (merchant_rows t)
          ++ entity_items Device (device_rows t) ++ entity_items IP (ip_rows t)
          ++ entity_items Card (card_rows t) ++ entity_items Address (addr_rows t)) g.
Proof.
  unfold load_nodes. cbv zeta. rewrite !merge_nodes_upsert by lia.
  by rewrite !upsert_app.
Qed.

Lemma nodes_merge_rel x g : nodes (merge_rel x g) = nodes g.
Proof. unfold merge_rel. by case_decide. Qed.

Lemma nodes_rel_clause f rows : ∀ g, nodes (rel_clause f rows g) = nodes g.
Proof.
  unfold rel_clause. induction rows as [|r rows IH]; intros g; [done|].
  simpl. by rewrite IH, nodes_merge_rel.
Qed.

Lemma nodes_tx_query batch g : nodes (tx_query batch g) = nodes (upsert (tx_items batch) g).
Proof.
  unfold tx_query. cbv zeta. rewrite !nodes_rel_clause.
  unfold upsert, set_all, merge_all, tx_items. by rewrite !foldl_fmap.
Qed.

Lemma nodes_tx_batches (batches : list (list tx_row)) : ∀ g,
  nodes (foldl (λ g batch, tx_query batch g) g batches)
  = nodes (upsert (tx_items (concat batches)) g).
Proof.
  induction batches as [|b bs IH]; intros g; [done|].
  simpl. rewrite IH. unfold tx_items. rewrite fmap_app, upsert_app.
  apply nodes_upsert_ext, nodes_tx_query.
Qed.

(** The nodes a load leaves, properties included, are those of one
    upsert of all rows in the order of [main]. *)
Lemma nodes_load t g : nodes (load t g) = nodes (upsert (all_items t) g).
Proof.
  unfold load, load_transactions, all_items.
  rewrite nodes_tx_batches, concat_chunked by lia.
  by rewrite (upsert_app _ (tx_items (transaction_rows t))), load_nodes_upsert.
Qed.

(** The batch size of a node query does not matter. *)
Theorem node_batch_size_immaterial l rows size size' g :
  0 < size → 0 < size' →
  merge_nodes (node_query l) rows size g = merge_nodes (node_query l) rows size' g.
Proof. intros Hs Hs'. by rewrite !merge_nodes_upsert. Qed.
End LoaderState.


Section LoaderTheorems.
Import load_bronze.
Implicit Types (g : graph) (i : node_id) (r : tx_row) (x : rel) (t : tables).

Lemma load_transactions_spec rows g :
  let g' := load_transactions rows g in
  node_ids g' = add_new (tx_node <$> rows) (node_ids g)
  ∧ (∀ x, x ∈ rels g' ↔ x ∈ rels g ∨ ∃ r, r ∈ rows ∧ matches g r ∧ x ∈ six_rels r)
  ∧ (NoDup (rels g) → NoDup (rels g')).
Proof.
  pose proof (tx_batches (chunked rows 1500) g) as Hb.
  rewrite concat_chunked in Hb by lia. apply Hb.
Qed.

Lemma node_ids_load t g :
  node_ids (load t g) =
  add_new (all_entity_ids t ++ (tx_node <$> transaction_rows t)) (node_ids g).
Proof.
  unfold load.
  destruct (load_transactions_spec (transaction_rows t) (load_nodes t g)) as (-> & _).
  by rewrite node_ids_load_nodes, add_new_app.
Qed.

Lemma all_entity_ids_entity t i : i ∈ all_entity_ids t → i.1 ≠ Transaction.
Proof.
  unfold all_entity_ids, entity_ids. rewrite !elem_of_app, !list_elem_of_fmap.
  intros [(? & -> & _)|[(? & -> & _)|[(? & -> & _)|[(? & -> & _)|[(? & -> & _)
          |(? & -> & _)]]]]]; done.
Qed.

(** Loading the same tables a second time finds the same entity nodes
    when the transactions are reached. *)
Lemma same_entities_reload t g :
  same_entities (load_nodes t (load t g)) (load_nodes t g).
Proof.
  intros i Hi. rewrite !node_ids_load_nodes, node_ids_load, !elem_of_add_new.
  rewrite elem_of_app, list_elem_of_fmap. split; [|tauto].
  intros [[?|[?|(r & -> & _)]]|?]; tauto || done.
Qed.

(** Whatever the store held, a second load of the same tables changes
    neither its nodes' identities nor its relationships. *)
Lemma load_again t g :
  node_ids (load t (load t g)) = node_ids (load t g)
  ∧ rels (load t (load t g)) = rels (load t g).
Proof.
  split.
  - rewrite (node_ids_load t (load t g)), (node_ids_load t g). apply add_new_idemp.
  - unfold load at 1. unfold load_transactions.
    rewrite tx_batches_present; [apply rels_load_nodes|].
    rewrite concat_chunked by lia. intros r x Hr Hm Hx.
    rewrite rels_load_nodes. unfold load.
    apply load_transactions_spec. right. exists r. split_and!; [done| |done].
    by apply (matches_same_entities _ _ r (same_entities_reload t g)).
Qed.

Lemma load_NoDup t g :
  NoDup (node_ids g) → NoDup (rels g) →
  NoDup (node_ids (load t g)) ∧ NoDup (rels (load t g)).
Proof.
  intros Hn Hr. split.
  - rewrite node_ids_load. by apply add_new_NoDup.
  - unfold load. apply load_transactions_spec. by rewrite rels_load_nodes.
Qed.

(** A second load leaves every node as the first one left it. *)
Lemma nodes_load_again t g : nodes (load t (load t g)) = nodes (load t g).
Proof.
  rewrite (nodes_load t (load t g)).
  rewrite (nodes_upsert_ext _ _ _ (nodes_load t g)).
  by rewrite upsert_idemp, nodes_load.
Qed.

(** The store a second load of the same tables leaves is the store the
    first one left, node for node and property for property, whatever
    the store held before the first. *)
Lemma load_load t g : load t (load t g) = load t g.
Proof. apply graph_eq; [apply nodes_load_again|apply load_again]. Qed.

(** C6.  The Graph Loader is idempotent: after a load into the empty
    store, a second load of the same tables leaves the very same store
    (nodes, properties and relationships), so the node count and the
    relationship count stay as they were; no key is held by two nodes
    and no relationship is held twice, after either load. *)
Theorem load_idempotent t :
  let g1 := load t empty_graph in
  let g2 := load t g1 in
  g2 = g1
  ∧ length (nodes g2) = length (nodes g1)
  ∧ length (rels g2) = length (rels g1)
  ∧ NoDup (node_ids g1) ∧ NoDup (rels g1)
  ∧ NoDup (node_ids g2) ∧ NoDup (rels g2)
  ∧ (∀ fs, read_tables fs = Ok t →
       main fs empty_graph = Ok g1 ∧ main fs g1 = Ok g2).
Proof.
  intros g1 g2.
  assert (g2 = g1) as Heq by apply load_load.
  destruct (load_NoDup t empty_graph) as [Hn1 Hr1]; [constructor..|]. fold g1 in Hn1, Hr1.
  rewrite Heq. split_and!; try done.
  intros fs Hfs. unfold main. rewrite Hfs. split; [done|].
  change (Ok g2 = Ok g1). by rewrite Heq.
Qed.

(** C1, as amended.  Phase 2 raises nothing over a missing entity: once
    the tables are read, [main] returns the loaded store.  It upserts
    the Transaction node of every row; it creates the six relationships
    of a row when the six nodes the row references all exist after
    Phase 1, and every relationship it creates belongs to such a row.
    A row with a missing entity therefore gets none of its six
    relationships: when no other row carries its [tx_id], its
    Transaction node is left with no relationship that Phase 2
    created. *)
Theorem phase2_all_or_nothing t g :
  let g1 := load_nodes t g in
  let g' := load t g in
  (∀ fs, read_tables fs = Ok t → main fs g = Ok g')
  ∧ (∀ r, r ∈ transaction_rows t → tx_node r ∈ node_ids g')
  ∧ (∀ r x, r ∈ transaction_rows t → matches g1 r → x ∈ six_rels r → x ∈ rels g')
  ∧ (∀ x, x ∈ rels g' →
       x ∈ rels g ∨ ∃ r, r ∈ transaction_rows t ∧ matches g1 r ∧ x ∈ six_rels r)
  ∧ (∀ r x, r ∈ transaction_rows t → ¬ matches g1 r →
       (∀ r', r' ∈ transaction_rows t → r_tx_id r' = r_tx_id r → r' = r) →
       x ∈ rels g' → x ∉ rels g → r_src x ≠ tx_node r ∧ r_dst x ≠ tx_node r).
Proof.
  cbv zeta.
  destruct (load_transactions_spec (transaction_rows t) (load_nodes t g))
    as (Hids & Hrels & _).
  fold (load t g) in Hids, Hrels. rewrite rels_load_nodes in Hrels.
  split_and!.
  - intros fs Hfs. unfold main. by rewrite Hfs.
  - intros r Hr. rewrite Hids. apply elem_of_add_new. right.
    apply list_elem_of_fmap. eauto.
  - intros r x Hr Hm Hx. apply Hrels. right. eauto.
  - intros x Hx. by apply Hrels.
  - intros r x Hr Hmiss Huniq Hx Hnew.
    apply Hrels in Hx as [?|(r' & Hr' & Hm' & Hx)]; [done|].
    assert (r_tx_id r' ≠ r_tx_id r) as Hne.
    { intros Heq. apply Hmiss. by rewrite <-(Huniq r' Hr' Heq). }
    apply elem_of_six_rels in Hx
      as [-> | [-> | [-> | [-> | [-> | ->]]]]];
      unfold made, to_merchant, used_device, from_ip, paid_with, billed_to, tx_node;
      simpl; split; congruence.
Qed.
End LoaderTheorems.

(** *** What a load keeps, and what it leaves on a node *)

Section LoaderInvariants.
Import load_bronze.
Implicit Types (g : graph) (i : node_id) (r : tx_row) (x : rel) (t : tables) (n : node).

Lemma nodes_merge_all_prefix items : ∀ g, nodes g `prefix_of` nodes (merge_all items g).
Proof.
  induction items as [|o items IH]; intros g; [done|].
  unfold merge_all in *. simpl. etrans; [|apply IH].
  unfold merge_node. case_decide; [done|]. by apply prefix_app_r.
Qed.

Lemma assignments_untouched items i : i ∉ (fst <$> items) → assignments items i = [].
Proof.
  unfold assignments. induction items as [|o items IH]; intros Hi; [done|].
  rewrite filter_cons. apply not_elem_of_cons in Hi as [Hne Hi].
  rewrite decide_False by (by intros Heq; apply Hne). by apply IH.
Qed.

Lemma updated_untouched items n :
  n_id n ∉ (fst <$> items) → updated items n = n.
Proof.
  intros Hn. unfold updated. rewrite assignments_untouched by done. by destruct n.
Qed.

Lemma rels_tx_query_prefix batch g : rels g `prefix_of` rels (tx_query batch g).
Proof.
  rewrite rels_tx_query. cbv zeta.
  repeat (etrans; [|apply add_new_prefix]). done.
Qed.

Lemma rels_tx_batches_prefix (batches : list (list tx_row)) : ∀ g,
  rels g `prefix_of` rels (foldl (λ g batch, tx_query batch g) g batches).
Proof.
  induction batches as [|b bs IH]; intros g; [done|].
  simpl. etrans; [apply (rels_tx_query_prefix b)|apply IH].
Qed.

(** A load only adds: the nodes and the relationships the store held
    are still there, in their places, and a node that no row names
    keeps its properties. *)
Theorem load_keeps_store t g :
  node_ids g `prefix_of` node_ids (load t g)
  ∧ rels g `prefix_of` rels (load t g)
  ∧ ∀ n, n ∈ nodes g → n_id n ∉ (fst <$> all_items t) → n ∈ nodes (load t g).
Proof.
  split_and!.
  - rewrite node_ids_load. apply add_new_prefix.
  - unfold load, load_transactions.
    rewrite <-(rels_load_nodes t g) at 1. apply rels_tx_batches_prefix.
  - intros n Hn Hid. rewrite nodes_load. unfold upsert. rewrite nodes_set_all.
    apply list_elem_of_fmap. exists n. split; [by rewrite updated_untouched|].
    destruct (nodes_merge_all_prefix (all_items t) g) as [k ->].
    apply elem_of_app. by left.
Qed.

(** The label pair a relationship type joins. *)
Definition well_typed x : Prop :=
  match r_type x with
  | MADE => (r_src x).1 = Person ∧ (r_dst x).1 = Transaction
  | TO_MERCHANT => (r_src x).1 = Transaction ∧ (r_dst x).1 = Merchant
  | USED_DEVICE => (r_src x).1 = Transaction ∧ (r_dst x).1 = Device
  | FROM_IP => (r_src x).1 = Transaction ∧ (r_dst x).1 = IP
  | PAID_WITH => (r_src x).1 = Transaction ∧ (r_dst x).1 = Card
  | BILLED_TO => (r_src x).1 = Transaction ∧ (r_dst x).1 = Address
  end.

(** Both ends of every relationship are nodes of the store, and of the
    labels its type joins. *)
Definition well_formed g : Prop :=
  ∀ x, x ∈ rels g → r_src x ∈ node_ids g ∧ r_dst x ∈ node_ids g ∧ well_typed x.

Lemma six_rels_ends r x :
  x ∈ six_rels r →
  (r_src x = tx_node r ∨ r_src x ∈ referenced r)
  ∧ (r_dst x = tx_node r ∨ r_dst x ∈ referenced r)
  ∧ well_typed x.
Proof.
  intros [-> | [-> | [-> | [-> | [-> | ->]]]]]%elem_of_six_rels;
    unfold well_typed, referenced; simpl; split_and!; try done;
    try (by left); right; rewrite !elem_of_cons; tauto.
Qed.

(** The Graph Loader never leaves a relationship without its end nodes:
    a well-formed store stays well formed. *)
Theorem load_well_formed t g : well_formed g → well_formed (load t g).
Proof.
  intros Hwf x Hx.
  destruct (load_transactions_spec (transaction_rows t) (load_nodes t g))
    as (Hids & Hrels & _).
  fold (load t g) in Hids, Hrels. rewrite rels_load_nodes in Hrels.
  assert (node_ids g `prefix_of` node_ids (load t g)) as [k Hk]
    by (rewrite node_ids_load; apply add_new_prefix).
  apply Hrels in Hx as [Hx|(r & Hr & Hm & Hx)].
  - destruct (Hwf x Hx) as (Hs & Hd & Hty). rewrite Hk.
    split_and!; [apply elem_of_app; by left..|done].
  - apply six_rels_ends in Hx as (Hs & Hd & Hty).
    assert (tx_node r ∈ node_ids (load t g)) as Htx.
    { rewrite Hids. apply elem_of_add_new. right. by apply list_elem_of_fmap_2. }
    assert (∀ i, i ∈ referenced r → i ∈ node_ids (load t g)) as Href.
    { intros i Hi. rewrite Hids. apply elem_of_add_new. left.
      unfold matches in Hm. rewrite Forall_forall in Hm. by apply Hm. }
    split_and!.
    + destruct Hs as [-> | Hs]; auto.
    + destruct Hd as [-> | Hd]; auto.
    + done.
Qed.

(** The properties [tx_query] sets on the Transaction node of a row. *)
Definition tx_props r : list (string * value) :=
  [("ts", cy_datetime (r_ts r));
   ("amount", cy_toFloat (r_amount r));
   ("currency", r_currency r);
   ("is_fraud", cy_toInteger (r_is_fraud r))].

Lemma nodes_merge_all_fresh items : ∀ g n,
  n ∈ nodes (merge_all items g) → n ∈ nodes g ∨ n_props n = [].
Proof.
  induction items as [|o items IH]; intros g n Hn; [by left|].
  unfold merge_all in *. simpl in Hn. apply IH in Hn as [Hn|?]; [|by right].
  unfold merge_node in Hn. case_decide; [by left|]. simpl in Hn.
  apply elem_of_app in Hn as [?| ->%list_elem_of_singleton]; [by left|by right].
Qed.

(** Into the empty store, every node ends with the assignments of the
    rows that name it, applied in the order of the rows. *)
Lemma loaded_props t n :
  n ∈ nodes (load t empty_graph) →
  n_props n = assign [] (assignments (all_items t) (n_id n)).
Proof.
  rewrite nodes_load. unfold upsert. rewrite nodes_set_all.
  intros (n0 & -> & Hn0)%list_elem_of_fmap. simpl.
  apply nodes_merge_all_fresh in Hn0 as [Hn0| ->]; [|done].
  by apply elem_of_nil in Hn0.
Qed.

Lemma assignments_app items1 items2 i :
  assignments (items1 ++ items2) i = assignments items1 i ++ assignments items2 i.
Proof. unfold assignments. by rewrite filter_app, fmap_app, concat_app. Qed.

Lemma assignments_entity l rows i :
  i.1 ≠ l → assignments (entity_items l rows) i = [].
Proof.
  intros Hl. apply assignments_untouched. unfold entity_items.
  rewrite <-list_fmap_compose. intros (e & -> & _)%list_elem_of_fmap. done.
Qed.

Lemma assignments_tx rows r :
  assignments (tx_items rows) (tx_node r)
  = concat (tx_props <$> filter (λ r', r_tx_id r' = r_tx_id r) rows).
Proof.
  unfold assignments, tx_items. induction rows as [|r' rows IH]; [done|].
  rewrite fmap_cons, !filter_cons. cbn [fst].
  destruct (decide (r_tx_id r' = r_tx_id r)) as [Heq|Hne].
  - rewrite decide_True by (unfold tx_node; congruence).
    rewrite !fmap_cons. cbn [snd concat]. f_equal. apply IH.
  - rewrite decide_False by (unfold tx_node; congruence). apply IH.
Qed.

(** Setting the four properties again replaces all four values. *)
Lemma assign_tx_props ps r :
  fst <$> ps = ["ts"; "amount"; "currency"; "is_fraud"] →
  assign ps (tx_props r) = tx_props r.
Proof.
  destruct ps as [|[k1 v1] [|[k2 v2] [|[k3 v3] [|[k4 v4] [|]]]]]; try done.
  by intros [= -> -> -> ->].
Qed.

Lemma assign_tx_rows rows : ∀ r0,
  assign (tx_props r0) (concat (tx_props <$> rows)) = tx_props (default r0 (last rows)).
Proof.
  induction rows as [|r rows IH]; intros r0; [done|].
  rewrite fmap_cons.
  change (concat (tx_props r :: (tx_props <$> rows)))
    with (tx_props r ++ concat (tx_props <$> rows)).
  rewrite assign_app, assign_tx_props by done.
  rewrite IH. destruct rows as [|r' rows']; [done|].
  change (last (r :: r' :: rows')) with (last (r' :: rows')).
  destruct (last (r' :: rows')) eqn:E; [done|]. by apply last_None in E.
Qed.

Lemma assign_last_tx_row rows r_last :
  last rows = Some r_last → assign [] (concat (tx_props <$> rows)) = tx_props r_last.
Proof.
  destruct rows as [|r rows]; [done|]. intros Hlast. rewrite fmap_cons.
  change (assign [] (concat (tx_props r :: (tx_props <$> rows))))
    with (assign (tx_props r) (concat (tx_props <$> rows))).
  rewrite assign_tx_rows. f_equal.
  destruct rows as [|r' rows']; [by injection Hlast|].
  change (last (r :: r' :: rows')) with (last (r' :: rows')) in Hlast.
  by rewrite Hlast.
Qed.

(** What a load into the empty store leaves on a Transaction node: the
    timestamp, amount, currency and label of the last row that carries
    its [tx_id] (of the row itself when the ids are unique). *)
Theorem loaded_transaction_properties t r :
  r ∈ transaction_rows t →
  ∃ n r_last,
    n ∈ nodes (load t empty_graph)
    ∧ n_id n = tx_node r
    ∧ last (filter (λ r', r_tx_id r' = r_tx_id r) (transaction_rows t)) = Some r_last
    ∧ n_props n = tx_props r_last
    ∧ (NoDup (r_tx_id <$> transaction_rows t) → r_last = r).
Proof.
  intros Hr.
  assert (tx_node r ∈ node_ids (load t empty_graph)) as Hin.
  { rewrite node_ids_load. apply elem_of_add_new. right.
    apply elem_of_app. right. by apply list_elem_of_fmap_2. }
  apply list_elem_of_fmap in Hin as (n & Hid & Hn).
  set (same := filter (λ r', r_tx_id r' = r_tx_id r) (transaction_rows t)).
  assert (r ∈ same) as Hsame by (by apply list_elem_of_filter).
  destruct (last same) as [r_last|] eqn:Hlast.
  2:{ apply last_None in Hlast. rewrite Hlast in Hsame. by apply elem_of_nil in Hsame. }
  exists n, r_last. split_and!; [done|done|done| |].
  - rewrite (loaded_props t n Hn), <-Hid. unfold all_items.
    rewrite assignments_app, assignments_tx. fold same.
    rewrite !assignments_app, !assignments_entity by done.
    by apply assign_last_tx_row.
  - intros Hnd.
    assert (r_last ∈ same) as Hl.
    { apply last_Some in Hlast as [k ->]. apply elem_of_app. right. by left. }
    apply list_elem_of_filter in Hl as [Heq Hl].
    destruct (list_elem_of_lookup_1 _ _ Hl) as [j1 Hj1].
    destruct (list_elem_of_lookup_1 _ _ Hr) as [j2 Hj2].
    assert (j1 = j2) as ->.
    { eapply (NoDup_lookup _ _ _ (r_tx_id r) Hnd); rewrite list_lookup_fmap.
      - rewrite Hj1. simpl. by rewrite Heq.
      - by rewrite Hj2. }
    congruence.
Qed.
End LoaderInvariants.

(** *** Phase 2 under another batch size *)

(** What [add_new] appends: each new key once. *)
Lemma add_new_appends {A} `{EqDecision A} (xs : list A) : ∀ l,
  ∃ k, add_new xs l = l ++ k ∧ NoDup k ∧ ∀ x, x ∈ k → x ∉ l.
Proof.
  induction xs as [|y xs IH]; intros l; simpl.
  - exists []. rewrite app_nil_r. split_and!; [done|constructor|].
    by intros x ?%elem_of_nil.
  - case_decide as Hy; [apply IH|].
    destruct (IH (l ++ [y])) as (k & Hk & Hnd & Hnew).
    exists (y :: k). split_and!.
    + fold (add_new xs (l ++ [y])). by rewrite Hk, <-app_assoc.
    + constructor; [|done]. intros Hin. apply (Hnew y Hin), elem_of_app. right. by left.
    + intros x [-> | Hx]%elem_of_cons; [done|].
      intros Hl. apply (Hnew x Hx), elem_of_app. by left.
Qed.

(** One list extends another by new elements, each once. *)
Definition extended {A} (l l' : list A) : Prop :=
  ∃ k, l' = l ++ k ∧ NoDup k ∧ ∀ x, x ∈ k → x ∉ l.

Lemma extended_refl {A} (l : list A) : extended l l.
Proof.
  exists []. rewrite app_nil_r. split_and!; [done|constructor|].
  by intros x ?%elem_of_nil.
Qed.

Lemma extended_trans {A} (l1 l2 l3 : list A) :
  extended l1 l2 → extended l2 l3 → extended l1 l3.
Proof.
  intros (k & -> & Hk & Hnew) (k' & -> & Hk' & Hnew').
  exists (k ++ k'). split_and!.
  - by rewrite app_assoc.
  - apply NoDup_app. split_and!; [done| |done].
    intros x Hx Hx'. apply (Hnew' x Hx'), elem_of_app. by right.
  - intros x [Hx|Hx]%elem_of_app; [by apply Hnew|].
    intros Hl. apply (Hnew' x Hx), elem_of_app. by left.
Qed.

Lemma extended_add_new {A} `{EqDecision A} (xs l : list A) : extended l (add_new xs l).
Proof. apply add_new_appends. Qed.

(** Two extensions of a list with the same elements are permutations of
    each other. *)
Lemma extended_Permutation {A} (l l1 l2 : list A) :
  extended l l1 → extended l l2 → (∀ x, x ∈ l1 ↔ x ∈ l2) → l1 ≡ₚ l2.
Proof.
  intros (k1 & -> & Hk1 & Hnew1) (k2 & -> & Hk2 & Hnew2) Hsame.
  apply Permutation_app_head, NoDup_Permutation; [done..|].
  intros x. specialize (Hsame x). rewrite !elem_of_app in Hsame. split; intros Hx.
  - destruct (proj1 Hsame (or_intror Hx)) as [Hl|?]; [|done]. by destruct (Hnew1 x Hx).
  - destruct (proj2 Hsame (or_intror Hx)) as [Hl|?]; [|done]. by destruct (Hnew2 x Hx).
Qed.

Section Phase2Batching.
Import load_bronze.
Implicit Types (g : graph) (i : node_id) (r : tx_row) (x : rel) (t : tables).

Lemma rels_tx_query_extended batch g : extended (rels g) (rels (tx_query batch g)).
Proof.
  rewrite rels_tx_query. cbv zeta.
  repeat (eapply extended_trans; [|apply extended_add_new]). apply extended_refl.
Qed.

Lemma rels_tx_batches_extended (batches : list (list tx_row)) : ∀ g,
  extended (rels g) (rels (foldl (λ g batch, tx_query batch g) g batches)).
Proof.
  induction batches as [|b bs IH]; intros g; [apply extended_refl|].
  simpl. eapply extended_trans; [apply (rels_tx_query_extended b)|apply IH].
Qed.

(** The batch size of Phase 2 does not matter for what the store holds:
    with any other size the Transaction nodes and their properties are
    the same, and the relationships are the same up to the order in
    which they were created. *)
Theorem tx_batch_size_immaterial rows size g :
  0 < size →
  let g' := foldl (λ g batch, tx_query batch g) g (chunked rows size) in
  nodes g' = nodes (load_transactions rows g)
  ∧ rels g' ≡ₚ rels (load_transactions rows g).
Proof.
  intros Hsize g'. split.
  - unfold g', load_transactions. rewrite !nodes_tx_batches, !concat_chunked by lia. done.
  - apply (extended_Permutation (rels g)).
    + apply rels_tx_batches_extended.
    + apply rels_tx_batches_extended.
    + intros x. unfold g', load_transactions.
      destruct (tx_batches (chunked rows size) g) as (_ & -> & _).
      destruct (tx_batches (chunked rows 1500) g) as (_ & -> & _).
      by rewrite !concat_chunked by lia.
Qed.
End Phase2Batching.

(** ** Determinism of the generation stages *)

(** The seven tables of [data/bronze]. *)
Definition bronze_tables : list string :=
  ["people.parquet"; "merchants.parquet"; "devices.parquet"; "ips.parquet";
   "cards.parquet"; "addresses.parquet"; "transactions.parquet"].

(** Two directories hold the same table under each of the names. *)
Definition agree (names : list string) (fs fs' : bronze_dir) : Prop :=
  Forall (λ n, fs !! n = fs' !! n) names.

(** Two runs end the same way: with the same exception, or with
    directories that agree on [names] (and the same generator state). *)
Definition same_outcome {G} (names : list string)
    (r r' : result (bronze_dir * G)) : Prop :=
  match r, r' with
  | Ok (fs, g), Ok (fs', g') => agree names fs fs' ∧ g = g'
  | Raise e, Raise e' => e = e'
  | _, _ => False
  end.

(** Looks a file name up in a directory after a series of writes. *)
Ltac written_lookups :=
  rewrite !lookup_insert;
  repeat (case_decide; [try done; try discriminate|]); try done.

Section Determinism.
Context `{PyRandom G}.
Implicit Types (g : G) (fs : bronze_dir).

Lemma bind_same {A} (m m' : M G A) (f f' : A → M G bronze_dir) g g' names :
  m g = m' g' →
  (∀ a g1, same_outcome names (f a g1) (f' a g1)) →
  same_outcome names ((m ≫= f) g) ((m' ≫= f') g').
Proof.
  intros Hm Hf. rewrite !bind_run, Hm.
  destruct (m' g') as [[a g1]|e]; [apply Hf|done].
Qed.

Lemma agree_lookup names fs fs' n : agree names fs fs' → n ∈ names → fs !! n = fs' !! n.
Proof. unfold agree. rewrite Forall_forall. auto. Qed.

(** The Entity Generator reads nothing: its three tables do not depend
    on what the directory held or on the state of the generator. *)
Lemma generate_same sim fs fs' g g' :
  same_outcome ["people.parquet"; "merchants.parquet"; "transactions.parquet"]
    (generate_bronze.main sim fs g) (generate_bronze.main sim fs' g').
Proof.
  unfold generate_bronze.main.
  apply bind_same; [done|]. intros _ g1. cbv zeta.
  apply bind_same; [done|]. intros merchants g2.
  apply bind_same; [done|]. intros tx g3.
  unfold mret, M_ret, same_outcome. split; [|done].
  unfold generate_bronze.write_bronze, write_parquet, agree.
  repeat first [apply List.Forall_nil | apply Forall_cons; split]; by written_lookups.
Qed.

(** The Reuse Sampler reads the transactions table only. *)
Lemma enrich_same infra fs fs' g g' :
  agree ["people.parquet"; "merchants.parquet"; "transactions.parquet"] fs fs' →
  same_outcome bronze_tables
    (enrich_infrastructure.main infra fs g) (enrich_infrastructure.main infra fs' g').
Proof.
  intros Hagree. unfold enrich_infrastructure.main.
  pose proof (agree_lookup _ _ _ "people.parquet" Hagree ltac:(compute_done)) as Hp.
  pose proof (agree_lookup _ _ _ "merchants.parquet" Hagree ltac:(compute_done)) as Hm.
  pose proof (agree_lookup _ _ _ "transactions.parquet" Hagree ltac:(compute_done)) as Ht.
  apply bind_same; [done|]. intros _ g1.
  rewrite Ht.
  apply bind_same; [done|]. intros tx g2. cbv zeta.
  apply bind_same; [done|]. intros ip_values g3.
  apply bind_same; [done|]. intros tx_device g4.
  apply bind_same; [done|]. intros tx_ip g5.
  apply bind_same; [done|]. intros tx_card g6.
  apply bind_same; [done|]. intros tx_addr g7.
  unfold mret, M_ret, same_outcome. split; [|done].
  unfold write_parquet, bronze_tables, agree.
  repeat first [apply List.Forall_nil | apply Forall_cons; split]; written_lookups; done.
Qed.

(** The Ring Injector reads six of the seven tables and writes one. *)
Lemma inject_same ring fs fs' g g' :
  agree bronze_tables fs fs' →
  same_outcome bronze_tables
    (inject_fraud_rings.main ring fs g) (inject_fraud_rings.main ring fs' g').
Proof.
  intros Hagree. unfold inject_fraud_rings.main, read_parquet.
  assert (∀ n, n ∈ bronze_tables → fs !! n = fs' !! n) as Hl
    by (intros; by eapply agree_lookup).
  rewrite !(Hl "people.parquet"), !(Hl "transactions.parquet"),
    !(Hl "devices.parquet"), !(Hl "ips.parquet"), !(Hl "cards.parquet"),
    !(Hl "addresses.parquet") by compute_done.
  apply bind_same; [done|]. intros _ g1.
  apply bind_same; [done|]. intros people g2.
  apply bind_same; [done|]. intros tx g3.
  apply bind_same; [done|]. intros devices g4.
  apply bind_same; [done|]. intros ips g5.
  apply bind_same; [done|]. intros cards g6.
  apply bind_same; [done|]. intros addrs g7.
  apply bind_same; [done|]. intros r g8.
  unfold mret, M_ret, same_outcome. split; [|done].
  unfold write_parquet, bronze_tables, agree.
  repeat first [apply List.Forall_nil | apply Forall_cons; split]; written_lookups;
    first [done | by apply Hl; compute_done].
Qed.

Lemma same_outcome_bind (m m' : M G bronze_dir) (f : bronze_dir → M G bronze_dir)
    g g' names names' :
  same_outcome names (m g) (m' g') →
  (∀ fs fs' g1, agree names fs fs' → same_outcome names' (f fs g1) (f fs' g1)) →
  same_outcome names' ((m ≫= f) g) ((m' ≫= f) g').
Proof.
  intros Hm Hf. rewrite !bind_run.
  destruct (m g) as [[fs g1]|e], (m' g') as [[fs' g1']|e']; try done.
  destruct Hm as [Hagree ->]. by apply Hf.
Qed.

(** C4.  Two independent runs of Entity Generator, Reuse Sampler and
    Ring Injector with the same seeds and configuration end the same
    way, whatever the bronze directory held before each run and whatever
    state the generator was in: either both raise the same exception, or
    both leave the same People, Merchants, Devices, IPs, Cards,
    Addresses and Transactions tables. *)
Theorem pipeline_deterministic sim infra ring fs fs' g g' :
  same_outcome bronze_tables
    (pipeline sim infra ring fs g) (pipeline sim infra ring fs' g').
Proof.
  unfold pipeline.
  eapply same_outcome_bind; [apply generate_same|].
  intros fs1 fs1' g1 Hagree1.
  eapply same_outcome_bind; [by apply enrich_same|].
  intros fs2 fs2' g2 Hagree2.
  by apply inject_same.
Qed.
End Determinism.

(** ** Referential integrity of the generated tables *)

(** Every cell of column [col] of [df] is a key of column [key] of [ent]. *)
Definition column_within (df : DataFrame) (col : string) (ent : DataFrame) (key : string)
    : Prop :=
  ∃ c ks, lookup_column df col = Some c ∧ lookup_column ent key = Some ks ∧ c ⊆ ks.


Section ReferenceFacts.
Context `{PyRandom G}.
Implicit Types (g : G).

Lemma repeatM_Ok {A} (P : A → Prop) (f : M G A) n : ∀ g xs g',
  (∀ g1 x g2, f g1 = Ok (x, g2) → P x) →
  repeatM n f g = Ok (xs, g') → length xs = n ∧ Forall P xs.
Proof.
  induction n as [|n IH]; intros g xs g' Hf Hr; simpl in Hr.
  - apply ret_Ok in Hr as [= -> ->]. by split.
  - apply bind_Ok in Hr as (x & g1 & Hx & Hr).
    apply bind_Ok in Hr as (xs' & g2 & Hxs & Hr).
    apply ret_Ok in Hr as [= -> ->].
    apply IH in Hxs as [Hlen Hall]; [|done].
    split; [simpl; by rewrite Hlen|]. constructor; eauto.
Qed.

Lemma for_each_invariant {A B} (P : A → Prop) (body : A → B → M G A) l : ∀ acc g acc' g',
  (∀ a x g1 a' g2, P a → body a x g1 = Ok (a', g2) → P a') →
  P acc → for_each l body acc g = Ok (acc', g') → P acc'.
Proof.
  induction l as [|x l IH]; intros acc g acc' g' Hbody Hacc Hr; simpl in Hr.
  - by apply ret_Ok in Hr as [= -> ->].
  - apply bind_Ok in Hr as (a1 & g1 & Hx & Hr).
    apply (IH a1 g1 acc' g'); [done| |done]. by eapply Hbody.
Qed.

Lemma take_subseteq {A} (l : list A) n : take n l ⊆ l.
Proof. intros x (i & Hi & _)%elem_of_take. by eapply list_elem_of_lookup_2. Qed.

(** Every value the Reuse Sampler returns is a member of the pool. *)
Lemma sample_with_reuse_Ok {A} (pool : list A) n rs g outs g' :
  enrich_infrastructure._sample_with_reuse pool n rs g = Ok (outs, g') →
  outs ⊆ pool.
Proof.
  unfold enrich_infrastructure._sample_with_reuse.
  destruct pool as [|x0 pool]; [by intros ?%raise_Ok|].
  intros Hr. apply bind_Ok in Hr as (k & g1 & _ & Hr).
  revert Hr. apply (for_each_invariant (λ out, out ⊆ x0 :: pool)).
  - intros out _ g2 out' g3 Hout Hbody.
    apply bind_Ok in Hbody as (x & g4 & Hx & Hbody).
    apply ret_Ok in Hbody as [= -> ->].
    assert (x ∈ x0 :: pool) as Hin.
    { unfold enrich_infrastructure.sample_one in Hx.
      apply bind_Ok in Hx as (u & g5 & _ & Hx).
      destruct (PrimFloat.ltb u rs); apply choice_Ok in Hx; [|done].
      by eapply take_subseteq. }
    intros y [?| ->%list_elem_of_singleton]%elem_of_app; auto.
  - by intros y ?%elem_of_nil.
Qed.
End ReferenceFacts.

Section SamplerOutputs.
Context `{PyRandom G}.
Implicit Types g : G.

Lemma for_each_append_length {A B} (f : M G A) (l : list B) : ∀ acc g acc' g',
  for_each l (λ out _, x ← f; mret (out ++ [x])) acc g = Ok (acc', g') →
  length acc' = length acc + length l.
Proof.
  induction l as [|b l IH]; intros acc g acc' g' Hr; simpl in Hr.
  - apply ret_Ok in Hr as [= -> ->]. simpl. lia.
  - apply bind_Ok in Hr as (a1 & g1 & Hb & Hr).
    apply bind_Ok in Hb as (x & g2 & _ & Hb). apply ret_Ok in Hb as [= -> ->].
    apply IH in Hr. rewrite length_app in Hr. simpl in *. lia.
Qed.

(** The Reuse Sampler returns one value per transaction, each of them a
    member of the pool. *)
Theorem sample_with_reuse_outputs {A} (pool : list A) n rs g outs g' :
  enrich_infrastructure._sample_with_reuse pool n rs g = Ok (outs, g') →
  length outs = n ∧ outs ⊆ pool.
Proof.
  intros Hr. split; [|by eapply sample_with_reuse_Ok].
  unfold enrich_infrastructure._sample_with_reuse in Hr.
  destruct pool as [|x0 pool]; [by apply raise_Ok in Hr|].
  apply bind_Ok in Hr as (k & g1 & _ & Hr).
  apply for_each_append_length in Hr. by rewrite length_seq in Hr.
Qed.
End SamplerOutputs.

(** Evaluates [lookup_column] on a frame whose column names are known. *)
Ltac columns_known :=
  cbn [lookup_column];
  repeat (let Hname := fresh "Hname" in
          case_decide as Hname;
          [first [discriminate Hname | reflexivity | done]
          |try (by destruct Hname)]);
  try done.

Section Integrity.
Context `{PyRandom G}.
Import inject_fraud_rings.
Implicit Types (g : G).

Lemma generate_Ok sim fs g fs1 g1 :
  generate_bronze.main sim fs g = Ok (fs1, g1) →
  ∃ merchants tx,
    fs1 = generate_bronze.write_bronze (generate_bronze.generate_people sim)
            merchants tx fs
    ∧ column_within tx "person_id" (generate_bronze.generate_people sim) "person_id"
    ∧ column_within tx "merchant_id" merchants "merchant_id".
Proof.
  unfold generate_bronze.main. intros Hr.
  apply bind_Ok in Hr as (_ & g0 & _ & Hr). cbv zeta in Hr.
  apply bind_Ok in Hr as (merchants & g2 & Hm & Hr).
  apply bind_Ok in Hr as (tx & g3 & Htx & Hr).
  apply ret_Ok in Hr as [= -> ->].
  exists merchants, tx. split; [done|].
  unfold generate_bronze.generate_merchants in Hm.
  apply bind_Ok in Hm as (mcc & g4 & _ & Hm). apply ret_Ok in Hm as [= -> ->].
  unfold generate_bronze.generate_transactions in Htx.
  apply bind_Ok in Htx as (pids & ? & (? & Hp & [= <- ->])%lift_Ok & Htx).
  apply bind_Ok in Htx as (mids & ? & (? & Hmi & [= <- ->])%lift_Ok & Htx).
  cbv zeta in Htx.
  apply bind_Ok in Htx as (ts & g5 & _ & Htx).
  apply bind_Ok in Htx as (amounts & g6 & _ & Htx).
  apply bind_Ok in Htx as (tx_person & g7 & Hps & Htx).
  apply bind_Ok in Htx as (tx_merchant & g8 & Hms & Htx).
  apply ret_Ok in Htx as [= -> ->].
  apply column_Ok in Hp, Hmi.
  apply (repeatM_Ok (λ v, v ∈ pids)) in Hps as [_ Hps]; [|by intros ??? ?%choice_Ok].
  apply (repeatM_Ok (λ v, v ∈ mids)) in Hms as [_ Hms]; [|by intros ??? ?%choice_Ok].
  rewrite Forall_forall in Hps, Hms.
  split.
  - exists tx_person, pids. split_and!; [by columns_known|done|done].
  - exists tx_merchant, mids. split_and!; [by columns_known|done|done].
Qed.

Lemma enrich_Ok infra fs g fs2 g2 :
  enrich_infrastructure.main infra fs g = Ok (fs2, g2) →
  ∃ tx tx' devices ips cards addresses,
    fs !! "transactions.parquet" = Some tx
    ∧ fs2 = write_parquet "transactions.parquet" tx'
              (write_parquet "addresses.parquet" addresses
                 (write_parquet "cards.parquet" cards
                    (write_parquet "ips.parquet" ips
                       (write_parquet "devices.parquet" devices fs))))
    ∧ lookup_column tx' "person_id" = lookup_column tx "person_id"
    ∧ lookup_column tx' "merchant_id" = lookup_column tx "merchant_id"
    ∧ column_within tx' "device_id" devices "device_id"
    ∧ column_within tx' "ip" ips "ip"
    ∧ column_within tx' "card_hash" cards "card_hash"
    ∧ column_within tx' "address_hash" addresses "address_hash".
Proof.
  unfold enrich_infrastructure.main. intros Hr.
  apply bind_Ok in Hr as (_ & g0 & _ & Hr).
  apply bind_Ok in Hr as (tx & ? & (? & Htx & [= <- ->])%lift_Ok & Hr).
  destruct (fs !! "transactions.parquet") as [tx0|] eqn:Hfs; [|done].
  simplify_eq. cbv zeta in Hr.
  apply bind_Ok in Hr as (ip_values & g3 & _ & Hr).
  apply bind_Ok in Hr as (tx_device & g4 & Hd%sample_with_reuse_Ok & Hr).
  apply bind_Ok in Hr as (tx_ip & g5 & Hi%sample_with_reuse_Ok & Hr).
  apply bind_Ok in Hr as (tx_card & g6 & Hc%sample_with_reuse_Ok & Hr).
  apply bind_Ok in Hr as (tx_addr & g7 & Ha%sample_with_reuse_Ok & Hr).
  apply ret_Ok in Hr as [= -> ->].
  do 6 eexists. split; [done|]. split; [done|].
  unfold with_columns, column_within. simpl. rewrite !lookup_with_column.
  split_and!.
  - by columns_known.
  - by columns_known.
  - eexists _, _. split_and!; [by columns_known|by columns_known|done].
  - eexists _, _. split_and!; [by columns_known|by columns_known|done].
  - eexists _, _. split_and!; [by columns_known|by columns_known|done].
  - eexists _, _. split_and!; [by columns_known|by columns_known|done].
Qed.
End Integrity.

Section InjectReferences.
Context `{PyRandom G}.
Import inject_fraud_rings.
Implicit Types (g : G) (cfg : RingConfig).

Lemma choose_shared_Ok hd hi hc ha g sh g' :
  choose_shared hd hi hc ha g = Ok (sh, g') →
  sh_device sh ∈ hd ∧ sh_ip sh ∈ hi ∧ sh_card sh ∈ hc ∧ sh_addr sh ∈ ha.
Proof.
  unfold choose_shared. intros Hr.
  apply bind_Ok in Hr as (d & g1 & Hd%choice_Ok & Hr).
  apply bind_Ok in Hr as (i & g2 & Hi%choice_Ok & Hr).
  apply bind_Ok in Hr as (c & g3 & Hc%choice_Ok & Hr).
  apply bind_Ok in Hr as (a & g4 & Ha%choice_Ok & Hr).
  by apply ret_Ok in Hr as [= -> ->].
Qed.

Lemma choose_hot_subseteq {A} (pool : list A) k : _choose_hot pool k ⊆ pool.
Proof. apply take_subseteq. Qed.

(** A column after the loop stays within [pool] when every coerced cell
    is either as it was or a value of [pool]. *)
Lemma coerced_within (c0 c pool : list value) (idxs : list nat) :
  (∀ i, i ∉ idxs → c !! i = c0 !! i) →
  (∀ i, i ∈ idxs → (∃ v, c !! i = Some v ∧ v ∈ pool) ∨ c !! i = c0 !! i) →
  c0 ⊆ pool → c ⊆ pool.
Proof.
  intros Hout Hin Hc0 v [i Hi]%list_elem_of_lookup.
  destruct (decide (i ∈ idxs)) as [Hsel|Hsel].
  - destruct (Hin i Hsel) as [(v' & Hv' & ?)|Heq]; [congruence|].
    apply Hc0. rewrite Heq in Hi. by eapply list_elem_of_lookup_2.
  - apply Hc0. rewrite (Hout i Hsel) in Hi. by eapply list_elem_of_lookup_2.
Qed.

(** The Ring Injector keeps the references of the table resolvable:
    persons come from the people table, infrastructure from the pools. *)
Lemma inject_references cfg people tx devices ips cards addrs g r g' ids :
  column people "person_id" = Ok ids →
  inject cfg people tx devices ips cards addrs g = Ok (r, g') →
  ∃ p0 d0 i0 c0 a0 p d i c a,
    (lookup_column tx "person_id" = Some p0
     ∧ lookup_column tx "device_id" = Some d0
     ∧ lookup_column tx "ip" = Some i0
     ∧ lookup_column tx "card_hash" = Some c0
     ∧ lookup_column tx "address_hash" = Some a0)
    ∧ (lookup_column (tx_out r) "person_id" = Some p
       ∧ lookup_column (tx_out r) "device_id" = Some d
       ∧ lookup_column (tx_out r) "ip" = Some i
       ∧ lookup_column (tx_out r) "card_hash" = Some c
       ∧ lookup_column (tx_out r) "address_hash" = Some a)
    ∧ lookup_column (tx_out r) "merchant_id" = lookup_column tx "merchant_id"
    ∧ (p0 ⊆ ids → p ⊆ ids)
    ∧ (d0 ⊆ devices → d ⊆ devices)
    ∧ (i0 ⊆ ips → i ⊆ ips)
    ∧ (c0 ⊆ cards → c ⊆ cards)
    ∧ (a0 ⊆ addrs → a ⊆ addrs).
Proof.
  intros Hids Hr.
  pose proof Hr as (ids' & person0 & ts0 & device0 & ip0 & card0 & addr0 & kd & ki
          & kc & ka & st & is_fraud & g1 & g2 & g3 & g4 & Hids' & Hrings & Hidx
          & Hcols & Hhot & Hshared & Hanchor & Hloop & Hmark & Hout)%inject_Ok.
  rewrite Hids in Hids'. simplify_eq.
  destruct Hcols as (Hc1 & Hc2 & Hc3 & Hc4 & Hc5 & Hc6).
  apply column_Ok in Hc1, Hc3, Hc4, Hc5, Hc6.
  apply pick_fraud_idx_Ok in Hidx as (n_fraud & _ & _ & _ & Hnd & _).
  apply coerce_loop_Ok in Hloop as [Hframe Hrows]; [|done].
  apply ring_membership_Ok in Hrings as (Hperm & _ & _ & _ & Hpre & _).
  apply (repeatM_Ok (λ sh, sh_device sh ∈ devices ∧ sh_ip sh ∈ ips
                           ∧ sh_card sh ∈ cards ∧ sh_addr sh ∈ addrs))
    in Hshared as [_ Hshared].
  2:{ intros ga sh gb (?&?&?&?)%choose_shared_Ok.
      split_and!; by eapply choose_hot_subseteq. }
  rewrite Forall_forall in Hshared.
  exists person0, device0, ip0, card0, addr0.
  exists (tx_person st), (tx_device st), (tx_ip st), (tx_card st), (tx_addr st).
  split; [done|]. rewrite Hout, !lookup_tx_out.
  split; [split_and!; by columns_known|]. split; [by columns_known|].
  assert (∀ idx, idx ∈ fraud_idx r →
            ∃ members sh member,
              members ∈ rings r ∧ sh ∈ ring_shared r ∧ member ∈ members
              ∧ tx_person st !! idx = Some member
              ∧ (tx_device st !! idx = Some (sh_device sh)
                 ∨ tx_device st !! idx = device0 !! idx)
              ∧ (tx_ip st !! idx = Some (sh_ip sh) ∨ tx_ip st !! idx = ip0 !! idx)
              ∧ (tx_card st !! idx = Some (sh_card sh)
                 ∨ tx_card st !! idx = card0 !! idx)
              ∧ (tx_addr st !! idx = Some (sh_addr sh)
                 ∨ tx_addr st !! idx = addr0 !! idx)) as Hrow.
  { intros idx Hidx. destruct (Hrows idx Hidx)
      as (r_i & members & sh & anchor & member & h & t & Hri & Hsh & _ & Hmem & _
          & _ & Hp & _ & Hd & Hi & Hc & Ha).
    exists members, sh, member. simpl in *.
    split_and!; eauto using list_elem_of_lookup_2. }
  split_and!; intros Hsub.
  - eapply (coerced_within person0 _ _ (fraud_idx r)); [|
      |done].
    + intros i Hi. by destruct (Hframe i Hi) as (? & _).
    + intros i Hi. destruct (Hrow i Hi) as (members & sh & member & Hm & _ & Hmem
        & Hp & _). left. exists member. split; [done|].
      rewrite <-Hperm. destruct Hpre as [k ->].
      apply elem_of_app. left. apply elem_of_concat. eauto.
  - eapply (coerced_within device0 _ _ (fraud_idx r)); [| |done].
    + intros i Hi. by destruct (Hframe i Hi) as (_ & _ & ? & _).
    + intros i Hi. destruct (Hrow i Hi) as (members & sh & member & _ & Hsh & _
        & _ & [Hd|Hd] & _); [left|by right].
      eexists. split; [done|]. by apply Hshared.
  - eapply (coerced_within ip0 _ _ (fraud_idx r)); [| |done].
    + intros i Hi. by destruct (Hframe i Hi) as (_ & _ & _ & ? & _).
    + intros i Hi. destruct (Hrow i Hi) as (members & sh & member & _ & Hsh & _
        & _ & _ & [Hd|Hd] & _); [left|by right].
      eexists. split; [done|]. by apply Hshared.
  - eapply (coerced_within card0 _ _ (fraud_idx r)); [| |done].
    + intros i Hi. by destruct (Hframe i Hi) as (_ & _ & _ & _ & ? & _).
    + intros i Hi. destruct (Hrow i Hi) as (members & sh & member & _ & Hsh & _
        & _ & _ & _ & [Hd|Hd] & _); [left|by right].
      eexists. split; [done|]. by apply Hshared.
  - eapply (coerced_within addr0 _ _ (fraud_idx r)); [| |done].
    + intros i Hi. by destruct (Hframe i Hi) as (_ & _ & _ & _ & _ & ?).
    + intros i Hi. destruct (Hrow i Hi) as (members & sh & member & _ & Hsh & _
        & _ & _ & _ & _ & [Hd|Hd]); [left|by right].
      eexists. split; [done|]. by apply Hshared.
Qed.

Lemma inject_main_Ok cfg (fs : bronze_dir) g fs3 g3 :
  main cfg fs g = Ok (fs3, g3) →
  ∃ people tx devices ips cards addresses dev_ids ip_vals card_ids addr_ids r,
    (fs !! "people.parquet" = Some people
     ∧ fs !! "transactions.parquet" = Some tx
     ∧ fs !! "devices.parquet" = Some devices
     ∧ fs !! "ips.parquet" = Some ips
     ∧ fs !! "cards.parquet" = Some cards
     ∧ fs !! "addresses.parquet" = Some addresses)
    ∧ (lookup_column devices "device_id" = Some dev_ids
       ∧ lookup_column ips "ip" = Some ip_vals
       ∧ lookup_column cards "card_hash" = Some card_ids
       ∧ lookup_column addresses "address_hash" = Some addr_ids)
    ∧ inject cfg people tx dev_ids ip_vals card_ids addr_ids (seed (ring_seed cfg))
      = Ok (r, g3)
    ∧ fs3 = write_parquet "transactions.parquet" (tx_out r) fs.
Proof.
  unfold main, read_parquet. intros Hr.
  apply bind_Ok in Hr as ([] & g0 & [= <-] & Hr).
  apply bind_Ok in Hr as (people & ? & (? & Hp & [= <- ->])%lift_Ok & Hr).
  apply bind_Ok in Hr as (tx & ? & (? & Htx & [= <- ->])%lift_Ok & Hr).
  apply bind_Ok in Hr as (dev_ids & ? & (? & Hd & [= <- ->])%lift_Ok & Hr).
  apply bind_Ok in Hr as (ip_vals & ? & (? & Hi & [= <- ->])%lift_Ok & Hr).
  apply bind_Ok in Hr as (card_ids & ? & (? & Hc & [= <- ->])%lift_Ok & Hr).
  apply bind_Ok in Hr as (addr_ids & ? & (? & Ha & [= <- ->])%lift_Ok & Hr).
  apply bind_Ok in Hr as (r & g1 & Hinj & Hr).
  apply ret_Ok in Hr as [= -> ->].
  apply result_bind_Ok in Hd as (devices & Hd & Hdc%column_Ok).
  apply result_bind_Ok in Hi as (ips & Hi & Hic%column_Ok).
  apply result_bind_Ok in Hc as (cards & Hc & Hcc%column_Ok).
  apply result_bind_Ok in Ha as (addresses & Ha & Hac%column_Ok).
  destruct (fs !! "people.parquet") eqn:?; [|done].
  destruct (fs !! "transactions.parquet") eqn:?; [|done].
  destruct (fs !! "devices.parquet") eqn:?; [|done].
  destruct (fs !! "ips.parquet") eqn:?; [|done].
  destruct (fs !! "cards.parquet") eqn:?; [|done].
  destruct (fs !! "addresses.parquet") eqn:?; [|done].
  simplify_eq.
  exists people, tx, devices, ips, cards, addresses, dev_ids, ip_vals, card_ids, addr_ids, r.
  by split_and!.
Qed.
End InjectReferences.

Section InjectorInfrastructure.
Context `{PyRandom G}.
Import inject_fraud_rings.
Implicit Types (g : G) (cfg : RingConfig).

(** [_choose_hot] asked for at least one entry returns the first [k]
    entries of the pool, all of them when the pool has fewer. *)
Lemma choose_hot_take {A} (pool : list A) k :
  (1 ≤ k)%Z →
  _choose_hot pool k = take (Z.to_nat k) pool
  ∧ length (_choose_hot pool k) = Nat.min (Z.to_nat k) (length pool).
Proof.
  intros Hk. unfold _choose_hot. cbv zeta.
  assert (take (Z.to_nat (Z.max 1 (Z.min k (Z.of_nat (length pool))))) pool
          = take (Z.to_nat k) pool) as ->; [|by rewrite length_take].
  destruct pool as [|x pool]; [by rewrite !take_nil|].
  destruct (Z.le_gt_cases k (Z.of_nat (length (x :: pool)))) as [Hle|Hgt].
  - by rewrite Z.min_l, Z.max_r by lia.
  - rewrite Z.min_r, Z.max_r by (simpl in *; lia).
    rewrite Nat2Z.id, firstn_all. symmetry. apply take_ge. lia.
Qed.

Lemma hot_size_Ok lo frac pool k : hot_size lo frac pool = Ok k → (lo ≤ k)%Z.
Proof.
  unfold hot_size. intros (k0 & _ & Hk)%result_bind_Ok.
  unfold mret, result_ret in Hk. simplify_eq. lia.
Qed.

(** Shared-infrastructure assignment: every ring gets one device, one
    IP, one card and one address, each a member of the hot pool of its
    kind.  The hot pool of a kind is the first [k] entries of the pool
    read from the entity table (the whole pool when it has fewer), for
    [k = max(minimum, int(len(pool) * fraction))] with the minimum and
    the fraction of the kind: 30 and 0.03 for devices and cards, 40 and
    0.04 for IPs, 25 and 0.03 for addresses. *)
Theorem shared_infrastructure_hot cfg people tx devices ips cards addrs g r g' :
  inject cfg people tx devices ips cards addrs g = Ok (r, g') →
  ∃ kd ki kc ka,
    (hot_size 30 0.03 devices = Ok kd ∧ hot_size 40 0.04 ips = Ok ki
     ∧ hot_size 30 0.03 cards = Ok kc ∧ hot_size 25 0.03 addrs = Ok ka)
    ∧ (30 ≤ kd ∧ 40 ≤ ki ∧ 30 ≤ kc ∧ 25 ≤ ka)%Z
    ∧ (_choose_hot devices kd = take (Z.to_nat kd) devices
       ∧ _choose_hot ips ki = take (Z.to_nat ki) ips
       ∧ _choose_hot cards kc = take (Z.to_nat kc) cards
       ∧ _choose_hot addrs ka = take (Z.to_nat ka) addrs)
    ∧ (length (_choose_hot devices kd) = Nat.min (Z.to_nat kd) (length devices)
       ∧ length (_choose_hot ips ki) = Nat.min (Z.to_nat ki) (length ips)
       ∧ length (_choose_hot cards kc) = Nat.min (Z.to_nat kc) (length cards)
       ∧ length (_choose_hot addrs ka) = Nat.min (Z.to_nat ka) (length addrs))
    ∧ (_choose_hot devices kd `prefix_of` devices
       ∧ _choose_hot ips ki `prefix_of` ips
       ∧ _choose_hot cards kc `prefix_of` cards
       ∧ _choose_hot addrs ka `prefix_of` addrs)
    ∧ length (ring_shared r) = length (rings r)
    ∧ Forall (λ sh, sh_device sh ∈ _choose_hot devices kd
                    ∧ sh_ip sh ∈ _choose_hot ips ki
                    ∧ sh_card sh ∈ _choose_hot cards kc
                    ∧ sh_addr sh ∈ _choose_hot addrs ka) (ring_shared r).
Proof.
  intros (ids & person0 & ts0 & device0 & ip0 & card0 & addr0 & kd & ki & kc & ka
          & st & is_fraud & g1 & g2 & g3 & g4 & _ & _ & _ & _ & Hhot & Hshared & _)%inject_Ok.
  exists kd, ki, kc, ka. split; [done|].
  destruct Hhot as (Hd%hot_size_Ok & Hi%hot_size_Ok & Hc%hot_size_Ok & Ha%hot_size_Ok).
  destruct (choose_hot_take devices kd) as [? ?]; [lia|].
  destruct (choose_hot_take ips ki) as [? ?]; [lia|].
  destruct (choose_hot_take cards kc) as [? ?]; [lia|].
  destruct (choose_hot_take addrs ka) as [? ?]; [lia|].
  split; [done|]. split; [done|]. split; [done|].
  split; [split_and!; apply prefix_take|].
  eapply repeatM_Ok; [|done]. intros ga sh gb. apply choose_shared_Ok.
Qed.

(** Coercion of the infrastructure facets: in a selected row, each of
    the four cells holds either the shared value of the ring chosen for
    the row or what the cell held before; the person of the row is a
    member of that same ring. *)
Theorem coerced_infrastructure cfg people tx devices ips cards addrs g r g' :
  inject cfg people tx devices ips cards addrs g = Ok (r, g') →
  ∀ idx, idx ∈ fraud_idx r →
    ∃ r_i members sh member,
      rings r !! r_i = Some members
      ∧ ring_shared r !! r_i = Some sh
      ∧ member ∈ members
      ∧ cell (tx_out r) "person_id" idx = Some member
      ∧ (cell (tx_out r) "device_id" idx = Some (sh_device sh)
         ∨ cell (tx_out r) "device_id" idx = cell tx "device_id" idx)
      ∧ (cell (tx_out r) "ip" idx = Some (sh_ip sh)
         ∨ cell (tx_out r) "ip" idx = cell tx "ip" idx)
      ∧ (cell (tx_out r) "card_hash" idx = Some (sh_card sh)
         ∨ cell (tx_out r) "card_hash" idx = cell tx "card_hash" idx)
      ∧ (cell (tx_out r) "address_hash" idx = Some (sh_addr sh)
         ∨ cell (tx_out r) "address_hash" idx = cell tx "address_hash" idx).
Proof.
  intros (st0 & st & is_fraud & (Hc1 & Hc2 & Hc3 & Hc4 & Hc5 & Hc6) & Hnd
          & _ & Hrows & _ & Hout)%inject_rows idx Hidx.
  apply column_Ok in Hc1, Hc2, Hc3, Hc4, Hc5, Hc6.
  destruct (Hrows idx Hidx)
    as (r_i & members & sh & anchor & member & h & t & Hri & Hsh & _ & Hmem & _
        & _ & Hp & _ & Hd & Hi & Hc & Ha).
  exists r_i, members, sh, member. unfold cell. rewrite !Hout. simpl.
  rewrite Hc3, Hc4, Hc5, Hc6. simpl. by split_and!.
Qed.
End InjectorInfrastructure.

Section InjectorNeeds.
Context `{PyRandom G}.
Import inject_fraud_rings.
Implicit Types (g : G) (cfg : RingConfig).

(** What a run of the Ring Injector that returns has found: a row in
    each of the four infrastructure tables (a choice from an empty hot
    pool raises), and at least as many transactions as it built rings
    (the sample of anchor times raises otherwise). *)
Theorem inject_requirements cfg people tx devices ips cards addrs g r g' :
  inject cfg people tx devices ips cards addrs g = Ok (r, g') →
  devices ≠ [] ∧ ips ≠ [] ∧ cards ≠ [] ∧ addrs ≠ []
  ∧ 1 ≤ length (rings r) ≤ n_rings cfg
  ∧ ∃ ts0, column tx "ts" = Ok ts0 ∧ length (rings r) ≤ length ts0.
Proof.
  intros (ids & person0 & ts0 & device0 & ip0 & card0 & addr0 & kd & ki & kc & ka
          & st & is_fraud & g1 & g2 & g3 & g4 & _ & Hrings & _ & Hcols & _ & Hshared
          & Hanchor & _)%inject_Ok.
  apply ring_membership_Ok in Hrings as (_ & Hne & Hle & _).
  assert (1 ≤ length (rings r)) as Hone.
  { destruct (rings r); [done|simpl; lia]. }
  apply (repeatM_Ok (λ sh, sh_device sh ∈ _choose_hot devices kd
                           ∧ sh_ip sh ∈ _choose_hot ips ki
                           ∧ sh_card sh ∈ _choose_hot cards kc
                           ∧ sh_addr sh ∈ _choose_hot addrs ka)) in Hshared
    as [Hlen Hall]; [|intros ga sh gb; apply choose_shared_Ok].
  destruct (ring_shared r) as [|sh shs]; [simpl in Hlen; lia|].
  apply Forall_cons in Hall as [(Hd%choose_hot_subseteq & Hi%choose_hot_subseteq
                                  & Hc%choose_hot_subseteq & Ha%choose_hot_subseteq) _].
  split_and!; try (intros ->; by apply elem_of_nil in Hd || by apply elem_of_nil in Hi
                   || by apply elem_of_nil in Hc || by apply elem_of_nil in Ha);
    [done..|].
  exists ts0. split; [apply Hcols|].
  unfold sample in Hanchor. case_decide; [done|]. by apply raise_Ok in Hanchor.
Qed.
End InjectorNeeds.

Section PipelineIntegrity.
Context `{PyRandom G}.
Implicit Types (g : G) (fs : bronze_dir).



(** The directory after the first two stages, table by table. *)
Lemma enriched_dir_lookups fs people merchants tx tx' devices ips cards addresses :
  let fs2 :=
    write_parquet "transactions.parquet" tx'
      (write_parquet "addresses.parquet" addresses
         (write_parquet "cards.parquet" cards
            (write_parquet "ips.parquet" ips
               (write_parquet "devices.parquet" devices
                  (generate_bronze.write_bronze people merchants tx fs))))) in
  fs2 !! "people.parquet" = Some people
  ∧ fs2 !! "merchants.parquet" = Some merchants
  ∧ fs2 !! "devices.parquet" = Some devices
  ∧ fs2 !! "ips.parquet" = Some ips
  ∧ fs2 !! "cards.parquet" = Some cards
  ∧ fs2 !! "addresses.parquet" = Some addresses
  ∧ fs2 !! "transactions.parquet" = Some tx'.
Proof.
  cbv zeta. unfold generate_bronze.write_bronze, write_parquet.
  split_and!; by written_lookups.
Qed.

(** When the Ring Injector runs after the first two stages, the people
    table it reads is the one the Entity Generator wrote, and no Person
    id occurs twice in it. *)
Theorem pipeline_people_unique sim infra fs g fs2 g2 :
  (fs1 ← generate_bronze.main sim fs; enrich_infrastructure.main infra fs1) g
    = Ok (fs2, g2) →
  ∃ ids,
    read_parquet fs2 "people.parquet" = Ok (generate_bronze.generate_people sim)
    ∧ column (generate_bronze.generate_people sim) "person_id" = Ok ids
    ∧ NoDup ids.
Proof.
  intros (fs1 & g1 & Hgen & Henr)%bind_Ok.
  apply generate_Ok in Hgen as (merchants & tx0 & -> & _).
  apply enrich_Ok in Henr
    as (tx & tx' & devices & ips & cards & addresses & _ & -> & _).
  destruct (generate_people_NoDup sim) as (ids & Hids & Hnd).
  exists ids. split; [|done].
  pose proof (enriched_dir_lookups fs (generate_bronze.generate_people sim)
                merchants tx0 tx' devices ips cards addresses) as (Hl & _).
  cbv zeta in Hl. unfold read_parquet. by rewrite Hl.
Qed.
End PipelineIntegrity.

(** ** The tables of a run, column by column *)

(** The identifiers [prefix + f"{i:0{width}d}"] for [i] in [range(n)]. *)
Definition padded_ids (prefix : string) (width n : nat) : list value :=
  (λ idx, VStr (prefix +:+ zfill width (decimal idx))) <$> seq 0 n.

(** A timestamp a whole number of seconds after [start], at most thirty
    days later. *)
Definition in_window (v : value) : Prop :=
  ∃ s, (0 ≤ s ≤ 60 * 60 * 24 * 30)%Z ∧ v = VTime (1735689600 * 1000000 + s * 1000000).

(** The merchants and transactions tables the Entity Generator builds
    from the columns it draws. *)
Definition merchants_table (n : nat) (mcc : list value) : DataFrame :=
  [("merchant_id", padded_ids "M" 5 n); ("mcc", mcc); ("country", replicate n (VStr "GB"))].

Definition transactions_table (n : nat) (ts amounts tx_person tx_merchant : list value)
    : DataFrame :=
  [("tx_id", padded_ids "T" 8 n); ("ts", ts); ("amount", amounts);
   ("currency", replicate n (VStr "GBP")); ("person_id", tx_person);
   ("merchant_id", tx_merchant)].

Section GeneratorTables.
Context `{PyRandom G}.
Implicit Types (g : G) (fs : bronze_dir).

Lemma timestamp_Ok g t g' :
  (s ← randint 0 (60 * 60 * 24 * 30);
   delta ← lift (timedelta_seconds s);
   lift (datetime_add generate_bronze.start delta)) g = Ok (t, g') →
  in_window t.
Proof.
  intros Hr. apply bind_Ok in Hr as (s & g1 & Hs%randint_Ok & Hr).
  apply bind_Ok in Hr as (delta & ? & (? & Hd & [= <- ->])%lift_Ok & Hr).
  apply lift_Ok in Hr as (? & Ht & [= <- ->]).
  unfold timedelta_seconds in Hd.
  rewrite timedelta_in_range in Hd by (unfold timedelta_min, timedelta_max; lia).
  injection Hd as <-.
  unfold generate_bronze.start in Ht.
  rewrite datetime_add_in_range in Ht by (unfold datetime_min, datetime_max; lia).
  injection Ht as <-. by exists s.
Qed.

(** What the Entity Generator writes. *)
Lemma generate_main_tables sim fs g fs1 g1 :
  generate_bronze.main sim fs g = Ok (fs1, g1) →
  ∃ mcc ts amounts tx_person tx_merchant,
    (length mcc = generate_bronze.n_merchants sim
     ∧ Forall (λ v, v ∈ generate_bronze.mccs) mcc)
    ∧ (length ts = generate_bronze.n_transactions sim ∧ Forall in_window ts)
    ∧ length amounts = generate_bronze.n_transactions sim
    ∧ (length tx_person = generate_bronze.n_transactions sim
       ∧ Forall (λ v, v ∈ padded_ids "P" 6 (generate_bronze.n_people sim)) tx_person)
    ∧ (length tx_merchant = generate_bronze.n_transactions sim
       ∧ Forall (λ v, v ∈ padded_ids "M" 5 (generate_bronze.n_merchants sim)) tx_merchant)
    ∧ fs1 = generate_bronze.write_bronze (generate_bronze.generate_people sim)
              (merchants_table (generate_bronze.n_merchants sim) mcc)
              (transactions_table (generate_bronze.n_transactions sim)
                 ts amounts tx_person tx_merchant) fs.
Proof.
  unfold generate_bronze.main. intros Hr.
  apply bind_Ok in Hr as (_ & g0 & _ & Hr). cbv zeta in Hr.
  apply bind_Ok in Hr as (merchants & g2 & Hm & Hr).
  apply bind_Ok in Hr as (tx & g3 & Htx & Hr).
  apply ret_Ok in Hr as [= -> ->].
  unfold generate_bronze.generate_merchants in Hm.
  apply bind_Ok in Hm as (mcc & g4 & Hmcc & Hm). apply ret_Ok in Hm as [= -> ->].
  unfold generate_bronze.generate_transactions in Htx.
  apply bind_Ok in Htx as (pids & ? & (? & Hp & [= <- ->])%lift_Ok & Htx).
  apply bind_Ok in Htx as (mids & ? & (? & Hmi & [= <- ->])%lift_Ok & Htx).
  cbv zeta in Htx.
  apply bind_Ok in Htx as (ts & g5 & Hts & Htx).
  apply bind_Ok in Htx as (amounts & g6 & Ham & Htx).
  apply bind_Ok in Htx as (tx_person & g7 & Hps & Htx).
  apply bind_Ok in Htx as (tx_merchant & g8 & Hms & Htx).
  apply ret_Ok in Htx as [= -> ->].
  injection Hp as <-. injection Hmi as <-.
  apply (repeatM_Ok (λ v, v ∈ generate_bronze.mccs)) in Hmcc;
    [|by intros ??? ?%choice_Ok].
  apply (repeatM_Ok in_window) in Hts; [|by intros ??? ?%timestamp_Ok].
  apply (repeatM_Ok (λ _, True)) in Ham as [Ham _]; [|done].
  apply (repeatM_Ok (λ v, v ∈ padded_ids "P" 6 (generate_bronze.n_people sim))) in Hps;
    [|by intros ??? ?%choice_Ok].
  apply (repeatM_Ok (λ v, v ∈ padded_ids "M" 5 (generate_bronze.n_merchants sim))) in Hms;
    [|by intros ??? ?%choice_Ok].
  by exists mcc, ts, amounts, tx_person, tx_merchant.
Qed.
End GeneratorTables.

(** The four entity tables the Reuse Sampler builds. *)
Definition devices_table (n : nat) : DataFrame :=
  [("device_id", padded_ids "D" 7 n); ("device_type", replicate n (VStr "mobile"))].
Definition ips_table (ip_values : list value) : DataFrame := [("ip", ip_values)].
Definition cards_table (n : nat) : DataFrame := [("card_hash", padded_ids "C" 8 n)].
Definition addresses_table (n : nat) : DataFrame :=
  [("address_hash", padded_ids "A" 7 n); ("postcode", replicate n (VStr "UK"))].

(** A private address, as a cell. *)
Definition private_ip (v : value) : Prop :=
  ∃ a b c d, v = dotted a b c d ∧ private_ipv4 a b c d.

Section EnrichTables.
Context `{PyRandom G}.
Implicit Types (g : G) (fs : bronze_dir).

Lemma random_ipv4_Ok g v g' :
  enrich_infrastructure._random_ipv4 g = Ok (v, g') → private_ip v.
Proof.
  destruct (random_ipv4_returns g) as (a & b & c & d & g'' & -> & Hp).
  intros [= <- <-]. by exists a, b, c, d.
Qed.

Lemma sample_with_reuse_length {A} (pool : list A) n rs g outs g' :
  enrich_infrastructure._sample_with_reuse pool n rs g = Ok (outs, g') →
  length outs = n.
Proof.
  intros Hr. unfold enrich_infrastructure._sample_with_reuse in Hr.
  destruct pool as [|x0 pool]; [by apply raise_Ok in Hr|].
  apply bind_Ok in Hr as (k & g1 & _ & Hr).
  apply for_each_append_length in Hr. by rewrite length_seq in Hr.
Qed.

(** What the Reuse Sampler writes. *)
Lemma enrich_main_tables infra fs g fs2 g2 :
  enrich_infrastructure.main infra fs g = Ok (fs2, g2) →
  ∃ tx ip_values tx_device tx_ip tx_card tx_addr,
    fs !! "transactions.parquet" = Some tx
    ∧ (length ip_values = enrich_infrastructure.n_ips infra ∧ Forall private_ip ip_values)
    ∧ (length tx_device = height tx
       ∧ tx_device ⊆ padded_ids "D" 7 (enrich_infrastructure.n_devices infra))
    ∧ (length tx_ip = height tx ∧ tx_ip ⊆ ip_values)
    ∧ (length tx_card = height tx
       ∧ tx_card ⊆ padded_ids "C" 8 (enrich_infrastructure.n_cards infra))
    ∧ (length tx_addr = height tx
       ∧ tx_addr ⊆ padded_ids "A" 7 (enrich_infrastructure.n_addresses infra))
    ∧ fs2 = write_parquet "transactions.parquet"
              (with_columns [("device_id", tx_device); ("ip", tx_ip);
                             ("card_hash", tx_card); ("address_hash", tx_addr)] tx)
              (write_parquet "addresses.parquet"
                 (addresses_table (enrich_infrastructure.n_addresses infra))
                 (write_parquet "cards.parquet"
                    (cards_table (enrich_infrastructure.n_cards infra))
                    (write_parquet "ips.parquet" (ips_table ip_values)
                       (write_parquet "devices.parquet"
                          (devices_table (enrich_infrastructure.n_devices infra)) fs)))).
Proof.
  unfold enrich_infrastructure.main. intros Hr.
  apply bind_Ok in Hr as (_ & g0 & _ & Hr).
  apply bind_Ok in Hr as (tx & ? & (? & Htx & [= <- ->])%lift_Ok & Hr).
  destruct (fs !! "transactions.parquet") as [tx0|] eqn:Hfs; [|done].
  simplify_eq. cbv zeta in Hr.
  apply bind_Ok in Hr as (ip_values & g3 & Hips & Hr).
  apply bind_Ok in Hr as (tx_device & g4 & Hd & Hr).
  apply bind_Ok in Hr as (tx_ip & g5 & Hi & Hr).
  apply bind_Ok in Hr as (tx_card & g6 & Hc & Hr).
  apply bind_Ok in Hr as (tx_addr & g7 & Ha & Hr).
  apply ret_Ok in Hr as [= -> ->].
  apply (repeatM_Ok private_ip) in Hips as [? ?]; [|by intros ??? ?%random_ipv4_Ok].
  exists tx, ip_values, tx_device, tx_ip, tx_card, tx_addr.
  pose proof (sample_with_reuse_length _ _ _ _ _ _ Hd).
  pose proof (sample_with_reuse_length _ _ _ _ _ _ Hi).
  pose proof (sample_with_reuse_length _ _ _ _ _ _ Hc).
  pose proof (sample_with_reuse_length _ _ _ _ _ _ Ha).
  apply sample_with_reuse_Ok in Hd, Hi, Hc, Ha.
  by split_and!.
Qed.
End EnrichTables.

Section InjectTables.
Context `{PyRandom G}.
Import inject_fraud_rings.
Implicit Types (g : G) (cfg : RingConfig) (st : tx_lists).

(** The six lists keep their lengths: the loop assigns by index only. *)
Definition same_lengths st st' : Prop :=
  length (tx_person st') = length (tx_person st)
  ∧ length (tx_ts st') = length (tx_ts st)
  ∧ length (tx_device st') = length (tx_device st)
  ∧ length (tx_ip st') = length (tx_ip st)
  ∧ length (tx_card st') = length (tx_card st)
  ∧ length (tx_addr st') = length (tx_addr st).

Lemma overwrite_with_prob_length p l idx x g l' g' :
  overwrite_with_prob p l idx x g = Ok (l', g') → length l' = length l.
Proof.
  intros [-> | [_ ->]]%overwrite_with_prob_Ok; [done|apply length_insert].
Qed.

Lemma coerce_lengths cfg rings ring_shared anchor_times st idx g st' g' :
  coerce cfg rings ring_shared anchor_times st idx g = Ok (st', g') →
  same_lengths st st'.
Proof.
  unfold coerce. intros Hr.
  apply bind_Ok in Hr as (r_i & g1 & _ & Hr).
  apply bind_Ok in Hr as (members & g2 & _ & Hr).
  apply bind_Ok in Hr as (sh & g3 & _ & Hr).
  apply bind_Ok in Hr as (anchor & g4 & _ & Hr).
  apply bind_Ok in Hr as (member & g5 & _ & Hr).
  apply bind_Ok in Hr as (person' & g6 & Hp & Hr).
  apply bind_Ok in Hr as (h & g7 & _ & Hr).
  apply bind_Ok in Hr as (jitter & g8 & _ & Hr).
  apply bind_Ok in Hr as (t & g9 & _ & Hr).
  apply bind_Ok in Hr as (ts' & g10 & Hts & Hr).
  apply bind_Ok in Hr as (device' & g11 & Hd%overwrite_with_prob_length & Hr).
  apply bind_Ok in Hr as (ip' & g12 & Hi%overwrite_with_prob_length & Hr).
  apply bind_Ok in Hr as (card' & g13 & Hc%overwrite_with_prob_length & Hr).
  apply bind_Ok in Hr as (addr' & g14 & Ha%overwrite_with_prob_length & Hr).
  apply ret_Ok in Hr as [= -> ->].
  apply lift_Ok in Hp as (? & Hp & [= <- <-]).
  apply lift_Ok in Hts as (? & Hts & [= <- <-]).
  apply setitem_Ok in Hp as [_ ->], Hts as [_ ->].
  unfold same_lengths. simpl. by rewrite !length_insert.
Qed.

Lemma coerce_loop_lengths cfg rings ring_shared anchor_times idxs st g st' g' :
  for_each idxs (coerce cfg rings ring_shared anchor_times) st g = Ok (st', g') →
  same_lengths st st'.
Proof.
  apply (for_each_invariant (same_lengths st)).
  - intros a idx g1 a' g2 (?&?&?&?&?&?) (?&?&?&?&?&?)%coerce_lengths.
    unfold same_lengths. split_and!; congruence.
  - by unfold same_lengths.
Qed.
End InjectTables.

(** The Transaction table at the end of the pipeline, column by column. *)
Definition final_transactions (n : nat) (amounts tx_merchant : list value)
    (st : inject_fraud_rings.tx_lists) (is_fraud : list value) : DataFrame :=
  [("tx_id", padded_ids "T" 8 n);
   ("ts", inject_fraud_rings.tx_ts st);
   ("amount", amounts);
   ("currency", replicate n (VStr "GBP"));
   ("person_id", inject_fraud_rings.tx_person st);
   ("merchant_id", tx_merchant);
   ("device_id", inject_fraud_rings.tx_device st);
   ("ip", inject_fraud_rings.tx_ip st);
   ("card_hash", inject_fraud_rings.tx_card st);
   ("address_hash", inject_fraud_rings.tx_addr st);
   ("is_fraud", is_fraud)].

(** The bronze directory at the end of the pipeline. *)
Definition final_dir (sim : generate_bronze.SimConfig)
    (infra : enrich_infrastructure.InfraConfig) (mcc ip_values : list value)
    (tx0 tx1 tx2 : DataFrame) (fs : bronze_dir) : bronze_dir :=
  write_parquet "transactions.parquet" tx2
    (write_parquet "transactions.parquet" tx1
       (write_parquet "addresses.parquet"
          (addresses_table (enrich_infrastructure.n_addresses infra))
          (write_parquet "cards.parquet"
             (cards_table (enrich_infrastructure.n_cards infra))
             (write_parquet "ips.parquet" (ips_table ip_values)
                (write_parquet "devices.parquet"
                   (devices_table (enrich_infrastructure.n_devices infra))
                   (generate_bronze.write_bronze (generate_bronze.generate_people sim)
                      (merchants_table (generate_bronze.n_merchants sim) mcc)
                      tx0 fs)))))).

Section PipelineTables.
Context `{PyRandom G}.
Import inject_fraud_rings.
Implicit Types (g : G) (fs : bronze_dir).

(** The tables a run of the three generation stages leaves. *)
Lemma pipeline_tables sim infra ring fs g fs' g' :
  pipeline sim infra ring fs g = Ok (fs', g') →
  ∃ mcc amounts tx_merchant ip_values st is_fraud tx0 tx1,
    length mcc = generate_bronze.n_merchants sim
    ∧ length amounts = (generate_bronze.n_transactions sim)
    ∧ (length tx_merchant = (generate_bronze.n_transactions sim)
       ∧ tx_merchant ⊆ padded_ids "M" 5 (generate_bronze.n_merchants sim))
    ∧ length ip_values = enrich_infrastructure.n_ips infra
    ∧ (length (tx_person st) = (generate_bronze.n_transactions sim)
       ∧ tx_person st ⊆ padded_ids "P" 6 (generate_bronze.n_people sim))
    ∧ length (tx_ts st) = (generate_bronze.n_transactions sim)
    ∧ (length (tx_device st) = (generate_bronze.n_transactions sim)
       ∧ tx_device st ⊆ padded_ids "D" 7 (enrich_infrastructure.n_devices infra))
    ∧ (length (tx_ip st) = (generate_bronze.n_transactions sim) ∧ tx_ip st ⊆ ip_values)
    ∧ (length (tx_card st) = (generate_bronze.n_transactions sim)
       ∧ tx_card st ⊆ padded_ids "C" 8 (enrich_infrastructure.n_cards infra))
    ∧ (length (tx_addr st) = (generate_bronze.n_transactions sim)
       ∧ tx_addr st ⊆ padded_ids "A" 7 (enrich_infrastructure.n_addresses infra))
    ∧ (length is_fraud = (generate_bronze.n_transactions sim) ∧ Forall (λ v, v = VInt 0 ∨ v = VInt 1) is_fraud)
    ∧ fs' = final_dir sim infra mcc ip_values tx0 tx1
              (final_transactions (generate_bronze.n_transactions sim) amounts tx_merchant st is_fraud) fs.
Proof.
  unfold pipeline. intros Hr.
  apply bind_Ok in Hr as (fs1 & g1 & Hgen & Hr).
  apply bind_Ok in Hr as (fs2 & g2 & Henr & Hr).
  apply generate_main_tables in Hgen
    as (mcc & ts & amounts & tx_person0 & tx_merchant & [Hmcc _] & [Hts _] & Ham
        & [Hp0 Hp0in] & [Hm Hmin] & ->).
  apply enrich_main_tables in Henr
    as (tx & ip_values & tx_device0 & tx_ip0 & tx_card0 & tx_addr0 & Htx & [Hips _]
        & [Hd Hdin] & [Hi Hiin] & [Hc Hcin] & [Ha Hain] & ->).
  unfold generate_bronze.write_bronze, write_parquet in Htx.
  rewrite lookup_insert_eq in Htx. injection Htx as <-.
  assert (height (transactions_table (generate_bronze.n_transactions sim) ts amounts tx_person0 tx_merchant) = generate_bronze.n_transactions sim) as Hh.
  { simpl. unfold padded_ids. by rewrite length_fmap, length_seq. }
  rewrite Hh in Hd, Hi, Hc, Ha.
  set (tx0 := transactions_table (generate_bronze.n_transactions sim) ts amounts tx_person0 tx_merchant) in *.
  set (tx1 := with_columns [("device_id", tx_device0); ("ip", tx_ip0);
                            ("card_hash", tx_card0); ("address_hash", tx_addr0)] tx0) in *.
  apply inject_main_Ok in Hr
    as (people_ & tx_ & devices_ & ips_ & cards_ & addresses_ & dev_ids & ip_vals
        & card_ids & addr_ids & r & Hreads & Hkeys & Hinj & ->).
  pose proof (enriched_dir_lookups fs (generate_bronze.generate_people sim)
                (merchants_table (generate_bronze.n_merchants sim) mcc) tx0 tx1
                (devices_table (enrich_infrastructure.n_devices infra))
                (ips_table ip_values)
                (cards_table (enrich_infrastructure.n_cards infra))
                (addresses_table (enrich_infrastructure.n_addresses infra)))
    as (Hl1 & Hl2 & Hl3 & Hl4 & Hl5 & Hl6 & Hl7).
  cbv zeta in Hl1, Hl2, Hl3, Hl4, Hl5, Hl6, Hl7.
  destruct Hreads as (Hr1 & Hr2 & Hr3 & Hr4 & Hr5 & Hr6).
  rewrite Hl1 in Hr1. rewrite Hl7 in Hr2. rewrite Hl3 in Hr3. rewrite Hl4 in Hr4.
  rewrite Hl5 in Hr5. rewrite Hl6 in Hr6.
  injection Hr1 as <-. injection Hr2 as <-. injection Hr3 as <-.
  injection Hr4 as <-. injection Hr5 as <-. injection Hr6 as <-.
  destruct Hkeys as (Hk1 & Hk2 & Hk3 & Hk4).
  injection Hk1 as <-. injection Hk2 as <-. injection Hk3 as <-. injection Hk4 as <-.
  pose proof Hinj as (ids & person0 & ts0 & device0 & ip0 & card0 & addr0 & kd & ki
        & kc & ka & st & is_fraud & ga & gb & gc & gd & Hids & Hrings & Hidx
        & Hcols & Hhot & Hshared & Hanchor & Hloop & Hmark & Hout)%inject_Ok.
  destruct Hcols as (Hc1 & Hc2 & Hc3 & Hc4 & Hc5 & Hc6).
  injection Hc1 as <-. injection Hc2 as <-. injection Hc3 as <-.
  injection Hc4 as <-. injection Hc5 as <-. injection Hc6 as <-.
  injection Hids as <-.
  apply coerce_loop_lengths in Hloop as (L1 & L2 & L3 & L4 & L5 & L6). simpl in *.
  eapply inject_references in Hinj; [|reflexivity].
  destruct Hinj as (p0 & d0 & i0 & c0 & a0 & p & d & i & c & a & Hin & Hout' & _
                    & Hsp & Hsd & Hsi & Hsc & Hsa).
  destruct Hin as (Hi1 & Hi2 & Hi3 & Hi4 & Hi5).
  injection Hi1 as <-. injection Hi2 as <-. injection Hi3 as <-.
  injection Hi4 as <-. injection Hi5 as <-.
  rewrite Hout in Hout'. destruct Hout' as (Ho1 & Ho2 & Ho3 & Ho4 & Ho5).
  injection Ho1 as <-. injection Ho2 as <-. injection Ho3 as <-.
  injection Ho4 as <-. injection Ho5 as <-.
  pose proof (mark_fraud_Ok _ _ _ Hmark) as (Hlen & Hone & Hzero).
  rewrite length_replicate in Hlen, Hone.
  exists mcc, amounts, tx_merchant, ip_values, st, is_fraud, tx0, tx1.
  split_and!; try done; try congruence.
  - intros v Hv. rewrite Forall_forall in Hmin. by apply Hmin.
  - apply Hsp. intros v Hv. rewrite Forall_forall in Hp0in. by apply Hp0in.
  - by apply Hsd.
  - by apply Hsi.
  - by apply Hsc.
  - by apply Hsa.
  - apply Forall_forall. intros v [i Hv]%list_elem_of_lookup.
    destruct (decide (i ∈ fraud_idx r)) as [Hsel|Hsel].
    + destruct (Hone i Hsel) as [_ Hv']. right. congruence.
    + rewrite (Hzero i Hsel) in Hv. apply lookup_replicate in Hv as [-> _]. by left.
  - unfold final_dir. by rewrite Hout.
Qed.
End PipelineTables.

Section ReadFinal.
Import load_bronze.

Lemma final_dir_lookups sim infra mcc ip_values tx0 tx1 tx2 (fs : bronze_dir) :
  let fs' := final_dir sim infra mcc ip_values tx0 tx1 tx2 fs in
  fs' !! "people.parquet" = Some (generate_bronze.generate_people sim)
  ∧ fs' !! "merchants.parquet"
      = Some (merchants_table (generate_bronze.n_merchants sim) mcc)
  ∧ fs' !! "devices.parquet"
      = Some (devices_table (enrich_infrastructure.n_devices infra))
  ∧ fs' !! "ips.parquet" = Some (ips_table ip_values)
  ∧ fs' !! "cards.parquet" = Some (cards_table (enrich_infrastructure.n_cards infra))
  ∧ fs' !! "addresses.parquet"
      = Some (addresses_table (enrich_infrastructure.n_addresses infra))
  ∧ fs' !! "transactions.parquet" = Some tx2.
Proof.
  cbv zeta. unfold final_dir, generate_bronze.write_bronze, write_parquet.
  split_and!; by written_lookups.
Qed.

Lemma tx_row_at_Some (c1 c2 c3 c4 c5 c6 c7 c8 c9 c10 c11 : list value) i r :
  tx_row_at [c1; c2; c3; c4; c5; c6; c7; c8; c9; c10; c11] i = Some r ↔
  c1 !! i = Some (r_tx_id r) ∧ c2 !! i = Some (r_ts r) ∧ c3 !! i = Some (r_amount r)
  ∧ c4 !! i = Some (r_currency r) ∧ c5 !! i = Some (r_person_id r)
  ∧ c6 !! i = Some (r_merchant_id r) ∧ c7 !! i = Some (r_device_id r)
  ∧ c8 !! i = Some (r_ip r) ∧ c9 !! i = Some (r_card_hash r)
  ∧ c10 !! i = Some (r_address_hash r) ∧ c11 !! i = Some (r_is_fraud r).
Proof.
  unfold tx_row_at. cbn [fmap list_fmap]. split.
  - intros Hr.
    destruct (c1 !! i); [|done]. destruct (c2 !! i); [|done].
    destruct (c3 !! i); [|done]. destruct (c4 !! i); [|done].
    destruct (c5 !! i); [|done]. destruct (c6 !! i); [|done].
    destruct (c7 !! i); [|done]. destruct (c8 !! i); [|done].
    destruct (c9 !! i); [|done]. destruct (c10 !! i); [|done].
    destruct (c11 !! i); [|done]. by injection Hr as <-.
  - intros (-> & -> & -> & -> & -> & -> & -> & -> & -> & -> & ->). by destruct r.
Qed.

Lemma length_omap_total {A B} (f : A → option B) (l : list A) :
  (∀ x, x ∈ l → is_Some (f x)) → length (omap f l) = length l.
Proof.
  induction l as [|x l IH]; intros Hf; [done|].
  simpl. destruct (Hf x) as [y ->]; [by left|].
  simpl. f_equal. apply IH. intros z Hz. apply Hf. by right.
Qed.

(** Rows of a rectangular table: one per index, none lost. *)
Lemma tx_rows_rectangular (c1 c2 c3 c4 c5 c6 c7 c8 c9 c10 c11 : list value) n :
  Forall (λ c, length c = n) [c1; c2; c3; c4; c5; c6; c7; c8; c9; c10; c11] →
  length (omap (tx_row_at [c1; c2; c3; c4; c5; c6; c7; c8; c9; c10; c11]) (seq 0 n)) = n.
Proof.
  intros Hlen. rewrite length_omap_total; [by rewrite length_seq|].
  intros i [_ Hi]%elem_of_seq. simpl in Hi.
  repeat match goal with
  | H : Forall _ (_ :: _) |- _ => apply Forall_cons in H as [? H]
  end.
  destruct (lookup_lt_is_Some_2 c1 i) as [a1 Hl1]; [lia|].
  destruct (lookup_lt_is_Some_2 c2 i) as [a2 Hl2]; [lia|].
  destruct (lookup_lt_is_Some_2 c3 i) as [a3 Hl3]; [lia|].
  destruct (lookup_lt_is_Some_2 c4 i) as [a4 Hl4]; [lia|].
  destruct (lookup_lt_is_Some_2 c5 i) as [a5 Hl5]; [lia|].
  destruct (lookup_lt_is_Some_2 c6 i) as [a6 Hl6]; [lia|].
  destruct (lookup_lt_is_Some_2 c7 i) as [a7 Hl7]; [lia|].
  destruct (lookup_lt_is_Some_2 c8 i) as [a8 Hl8]; [lia|].
  destruct (lookup_lt_is_Some_2 c9 i) as [a9 Hl9]; [lia|].
  destruct (lookup_lt_is_Some_2 c10 i) as [a10 Hl10]; [lia|].
  destruct (lookup_lt_is_Some_2 c11 i) as [a11 Hl11]; [lia|].
  unfold tx_row_at. cbn [fmap list_fmap].
  rewrite Hl1, Hl2, Hl3, Hl4, Hl5, Hl6, Hl7, Hl8, Hl9, Hl10, Hl11. by eexists.
Qed.
End ReadFinal.

Section LoadFinal.
Import load_bronze.

Lemma length_padded_ids prefix width n : length (padded_ids prefix width n) = n.
Proof. unfold padded_ids. by rewrite length_fmap, length_seq. Qed.

Lemma keys_key_rows (ks : list value) :
  e_key <$> map (λ k, {| e_key := k; e_attrs := [] |}) ks = ks.
Proof. induction ks as [|k ks IH]; [done|]. cbn [map fmap list_fmap e_key]. f_equal. exact IH. Qed.

Lemma keys_attr_column (a : string) (rows : list entity_row) (c : list value) :
  length rows ≤ length c →
  e_key <$> zip_with (λ r v, {| e_key := e_key r; e_attrs := e_attrs r ++ [(a, v)] |}) rows c
  = e_key <$> rows.
Proof.
  revert c. induction rows as [|r rows IH]; intros [|v c] Hl; simpl in Hl; try done; [lia|].
  cbn [zip_with fmap list_fmap e_key]. f_equal. apply IH. lia.
Qed.

(** What the Graph Loader reads from the directory the pipeline leaves. *)
Lemma read_final_tables sim infra mcc ip_values tx0 tx1 amounts tx_merchant st is_fraud
    (fs : bronze_dir) :
  length mcc = generate_bronze.n_merchants sim →
  let n := generate_bronze.n_transactions sim in
  ∃ t,
    read_tables (final_dir sim infra mcc ip_values tx0 tx1
                   (final_transactions n amounts tx_merchant st is_fraud) fs) = Ok t
    ∧ e_key <$> people_rows t = padded_ids "P" 6 (generate_bronze.n_people sim)
    ∧ e_key <$> merchant_rows t = padded_ids "M" 5 (generate_bronze.n_merchants sim)
    ∧ e_key <$> device_rows t = padded_ids "D" 7 (enrich_infrastructure.n_devices infra)
    ∧ e_key <$> ip_rows t = ip_values
    ∧ e_key <$> card_rows t = padded_ids "C" 8 (enrich_infrastructure.n_cards infra)
    ∧ e_key <$> addr_rows t = padded_ids "A" 7 (enrich_infrastructure.n_addresses infra)
    ∧ transaction_rows t =
        omap (tx_row_at
                [padded_ids "T" 8 n; inject_fraud_rings.tx_ts st; amounts;
                 replicate n (VStr "GBP"); inject_fraud_rings.tx_person st; tx_merchant;
                 inject_fraud_rings.tx_device st; inject_fraud_rings.tx_ip st;
                 inject_fraud_rings.tx_card st; inject_fraud_rings.tx_addr st; is_fraud])
          (seq 0 n).
Proof.
  intros Hmcc n.
  destruct (final_dir_lookups sim infra mcc ip_values tx0 tx1
              (final_transactions n amounts tx_merchant st is_fraud) fs)
    as (Hl1 & Hl2 & Hl3 & Hl4 & Hl5 & Hl6 & Hl7).
  cbv zeta in Hl1, Hl2, Hl3, Hl4, Hl5, Hl6, Hl7.
  eexists. split.
  { unfold read_tables, read_parquet.
    rewrite Hl1, Hl2, Hl3, Hl4, Hl5, Hl6, Hl7. reflexivity. }
  cbn [people_rows merchant_rows device_rows ip_rows card_rows addr_rows transaction_rows].
  split_and!.
  - apply keys_key_rows.
  - rewrite !keys_attr_column; [apply keys_key_rows|..].
    + rewrite length_map, length_padded_ids. lia.
    + rewrite length_zip_with, length_map, length_padded_ids, length_replicate. lia.
  - rewrite keys_attr_column; [apply keys_key_rows|].
    rewrite length_map, length_padded_ids, length_replicate. lia.
  - apply keys_key_rows.
  - apply keys_key_rows.
  - rewrite keys_attr_column; [apply keys_key_rows|].
    rewrite length_map, length_padded_ids, length_replicate. lia.
  - simpl. by rewrite length_padded_ids.
Qed.
End LoadFinal.

Section PipelineLoad.
Context `{PyRandom G}.
Import load_bronze.
Implicit Types (g : G) (fs : bronze_dir) (store : graph).

Lemma entity_id_loaded t store l k :
  (l, k) ∈ all_entity_ids t → (l, k) ∈ node_ids (load_nodes t store).
Proof. intros Hk. rewrite node_ids_load_nodes, elem_of_add_new. by right. Qed.

Lemma key_entity_id l (rows : list entity_row) k :
  k ∈ e_key <$> rows → (l, k) ∈ entity_ids l rows.
Proof.
  intros (e & -> & He)%list_elem_of_fmap. unfold entity_ids.
  apply list_elem_of_fmap. by exists e.
Qed.

(** The tables the three generation stages leave load completely: the
    Graph Loader reads them, finds one row per generated transaction,
    drops none of them at its [MATCH], and so leaves every transaction
    with its node and its six relationships, whatever the store held. *)
Theorem pipeline_load_connected sim infra ring fs g fs' g' store :
  pipeline sim infra ring fs g = Ok (fs', g') →
  ∃ t,
    read_tables fs' = Ok t
    ∧ load_bronze.main fs' store = Ok (load t store)
    ∧ length (transaction_rows t) = generate_bronze.n_transactions sim
    ∧ (∀ r, r ∈ transaction_rows t →
         matches (load_nodes t store) r
         ∧ tx_node r ∈ node_ids (load t store)
         ∧ ∀ x, x ∈ six_rels r → x ∈ rels (load t store)).
Proof.
  intros Hrun.
  apply pipeline_tables in Hrun
    as (mcc & amounts & tx_merchant & ip_values & st & is_fraud & tx0 & tx1
        & Hmcc & Ham & [Hm Hmin] & Hips & [Hp Hpin] & Hts & [Hd Hdin] & [Hi Hiin]
        & [Hc Hcin] & [Ha Hain] & [Hf _] & ->).
  destruct (read_final_tables sim infra mcc ip_values tx0 tx1 amounts tx_merchant st
              is_fraud fs Hmcc)
    as (t & Hread & Kp & Km & Kd & Ki & Kc & Ka & Hrows).
  exists t. split; [done|]. split; [unfold main; by rewrite Hread|].
  split.
  { rewrite Hrows. apply tx_rows_rectangular.
    repeat (apply Forall_cons; split); try done.
    - apply length_padded_ids.
    - apply length_replicate. }
  intros r Hr.
  assert (matches (load_nodes t store) r) as Hmatch.
  { rewrite Hrows in Hr. apply list_elem_of_omap in Hr as (i & _ & Hr).
    apply tx_row_at_Some in Hr
      as (_ & _ & _ & _ & Hrp & Hrm & Hrd & Hri & Hrc & Hra & _).
    apply list_elem_of_lookup_2 in Hrp, Hrm, Hrd, Hri, Hrc, Hra.
    unfold matches, referenced.
    repeat (apply Forall_cons; split); [..|done];
      apply entity_id_loaded; unfold all_entity_ids; rewrite !elem_of_app.
    - left. apply key_entity_id. rewrite Kp. by apply Hpin.
    - right; left. apply key_entity_id. rewrite Km. by apply Hmin.
    - do 2 right; left. apply key_entity_id. rewrite Kd. by apply Hdin.
    - do 3 right; left. apply key_entity_id. rewrite Ki. by apply Hiin.
    - do 4 right; left. apply key_entity_id. rewrite Kc. by apply Hcin.
    - do 5 right. apply key_entity_id. rewrite Ka. by apply Hain. }
  destruct (load_transactions_spec (transaction_rows t) (load_nodes t store))
    as (Hids & Hrels & _).
  fold (load t store) in Hids, Hrels.
  split; [done|]. split.
  - rewrite Hids. apply elem_of_add_new. right. apply list_elem_of_fmap. eauto.
  - intros x Hx. apply Hrels. right. eauto.
Qed.
End PipelineLoad.

(** ** What each stage leaves, and what it needs *)

Lemma lookup_with_columns_other cs : ∀ df name,
  name ∉ cs.*1 → lookup_column (with_columns cs df) name = lookup_column df name.
Proof.
  unfold with_columns.
  induction cs as [|[n c] cs IH]; intros df name Hn; [done|].
  apply not_elem_of_cons in Hn as [Hne Hn]. simpl.
  rewrite IH by done. rewrite lookup_with_column. by rewrite decide_False by done.
Qed.

Section StageOutputs.
Context `{PyRandom G}.
Implicit Types (g : G) (fs : bronze_dir).

(** What the Entity Generator leaves in the directory: its three
    tables, each with the configured number of rows, merchant codes
    of the fixed list, timestamps at whole seconds within thirty days
    of the start; no other file is touched. *)
Theorem generate_writes sim fs g fs1 g1 :
  generate_bronze.main sim fs g = Ok (fs1, g1) →
  ∃ mcc ts amounts tx_person tx_merchant,
    fs1 !! "people.parquet" = Some (generate_bronze.generate_people sim)
    ∧ fs1 !! "merchants.parquet"
        = Some (merchants_table (generate_bronze.n_merchants sim) mcc)
    ∧ fs1 !! "transactions.parquet"
        = Some (transactions_table (generate_bronze.n_transactions sim)
                  ts amounts tx_person tx_merchant)
    ∧ (∀ name, name ∉ ["people.parquet"; "merchants.parquet"; "transactions.parquet"] →
         fs1 !! name = fs !! name)
    ∧ length mcc = generate_bronze.n_merchants sim
    ∧ Forall (λ v, v ∈ generate_bronze.mccs) mcc
    ∧ Forall (λ c, length c = generate_bronze.n_transactions sim)
        [ts; amounts; tx_person; tx_merchant]
    ∧ Forall in_window ts.
Proof.
  intros (mcc & ts & amounts & tx_person & tx_merchant & [Hmcc Hin] & [Hts Hw] & Ham
          & [Hp _] & [Hm _] & ->)%generate_main_tables.
  exists mcc, ts, amounts, tx_person, tx_merchant.
  unfold generate_bronze.write_bronze, write_parquet.
  split_and!; try done; try by written_lookups.
  - intros name Hn. rewrite !not_elem_of_cons in Hn. destruct Hn as (? & ? & ? & _).
    by rewrite !lookup_insert_ne by done.
  - by repeat constructor.
Qed.

(** What the Reuse Sampler leaves: the four infrastructure tables with
    the configured numbers of rows, every IP a private address; the
    Transaction table with its four infrastructure columns set, each as
    long as the table is high, and every other column as it was; no
    other file is touched. *)
Theorem enrich_writes infra fs g fs2 g2 :
  enrich_infrastructure.main infra fs g = Ok (fs2, g2) →
  ∃ tx tx' ip_values tx_device tx_ip tx_card tx_addr,
    fs !! "transactions.parquet" = Some tx
    ∧ fs2 !! "devices.parquet"
        = Some (devices_table (enrich_infrastructure.n_devices infra))
    ∧ fs2 !! "ips.parquet" = Some (ips_table ip_values)
    ∧ fs2 !! "cards.parquet" = Some (cards_table (enrich_infrastructure.n_cards infra))
    ∧ fs2 !! "addresses.parquet"
        = Some (addresses_table (enrich_infrastructure.n_addresses infra))
    ∧ fs2 !! "transactions.parquet" = Some tx'
    ∧ (∀ name, name ∉ ["devices.parquet"; "ips.parquet"; "cards.parquet";
                        "addresses.parquet"; "transactions.parquet"] →
         fs2 !! name = fs !! name)
    ∧ length ip_values = enrich_infrastructure.n_ips infra
    ∧ Forall private_ip ip_values
    ∧ lookup_column tx' "device_id" = Some tx_device
    ∧ lookup_column tx' "ip" = Some tx_ip
    ∧ lookup_column tx' "card_hash" = Some tx_card
    ∧ lookup_column tx' "address_hash" = Some tx_addr
    ∧ Forall (λ c, length c = height tx) [tx_device; tx_ip; tx_card; tx_addr]
    ∧ (∀ name, name ∉ ["device_id"; "ip"; "card_hash"; "address_hash"] →
         lookup_column tx' name = lookup_column tx name).
Proof.
  intros (tx & ip_values & tx_device & tx_ip & tx_card & tx_addr & Htx & [Hips Hpriv]
          & [Hd _] & [Hi _] & [Hc _] & [Ha _] & ->)%enrich_main_tables.
  exists tx, (with_columns [("device_id", tx_device); ("ip", tx_ip);
                            ("card_hash", tx_card); ("address_hash", tx_addr)] tx),
    ip_values, tx_device, tx_ip, tx_card, tx_addr.
  unfold write_parquet.
  split_and!; try done; try by written_lookups.
  - intros name Hn. rewrite !not_elem_of_cons in Hn.
    destruct Hn as (? & ? & ? & ? & ? & _). by rewrite !lookup_insert_ne by done.
  - unfold with_columns. simpl. rewrite !lookup_with_column. by repeat case_decide.
  - unfold with_columns. simpl. rewrite !lookup_with_column. by repeat case_decide.
  - unfold with_columns. simpl. rewrite !lookup_with_column. by repeat case_decide.
  - unfold with_columns. simpl. rewrite !lookup_with_column. by repeat case_decide.
  - by repeat constructor.
  - intros name Hn. by apply lookup_with_columns_other.
Qed.

(** With no devices configured the Reuse Sampler raises [ValueError]
    at its first sample, also when the table has no row to enrich. *)
Theorem enrich_no_devices infra fs g tx :
  enrich_infrastructure.n_devices infra = 0 →
  fs !! "transactions.parquet" = Some tx →
  enrich_infrastructure.main infra fs g = Raise (ValueError "empty pool").
Proof.
  intros Hn Hfs. unfold enrich_infrastructure.main.
  rewrite (bind_step _ _ g () (seed (enrich_infrastructure.infra_seed infra))) by done.
  rewrite Hfs.
  rewrite (bind_step _ _ _ tx (seed (enrich_infrastructure.infra_seed infra))) by done.
  cbv zeta.
  destruct (repeatM_total enrich_infrastructure._random_ipv4
              (enrich_infrastructure.n_ips infra)
              (seed (enrich_infrastructure.infra_seed infra)))
    as (ips & g1 & Hips).
  { intros g0. destruct (random_ipv4_returns g0) as (a & b & c & d & g' & Hr & _).
    eauto. }
  rewrite (bind_step _ _ _ _ _ Hips). by rewrite Hn.
Qed.

(** The Graph Loader needs the Ring Injector to have run: on the tables
    the first two stages leave it raises over the missing [is_fraud]
    column, before it writes anything. *)
Theorem load_before_injection sim infra fs g fs2 g2 store :
  (fs1 ← generate_bronze.main sim fs; enrich_infrastructure.main infra fs1) g
    = Ok (fs2, g2) →
  load_bronze.main fs2 store = Raise (ColumnNotFoundError "is_fraud").
Proof.
  intros (fs1 & g1 & Hgen & Henr)%bind_Ok.
  apply generate_main_tables in Hgen
    as (mcc & ts & amounts & tx_person & tx_merchant & _ & _ & _ & _ & _ & ->).
  apply enrich_main_tables in Henr
    as (tx & ip_values & tx_device & tx_ip & tx_card & tx_addr & Htx & _ & _ & _ & _ & _
        & ->).
  unfold generate_bronze.write_bronze, write_parquet in Htx.
  rewrite lookup_insert_eq in Htx. injection Htx as <-.
  match goal with
  | |- load_bronze.main (write_parquet _ ?tx1 (write_parquet _ ?a (write_parquet _ ?c
         (write_parquet _ ?i (write_parquet _ ?d
            (generate_bronze.write_bronze ?p ?m ?tx0 _)))))) _ = _ =>
      pose proof (enriched_dir_lookups fs p m tx0 tx1 d i c a)
        as (Hl1 & Hl2 & Hl3 & Hl4 & Hl5 & Hl6 & Hl7)
  end.
  cbv zeta in Hl1, Hl2, Hl3, Hl4, Hl5, Hl6, Hl7.
  unfold load_bronze.main, load_bronze.read_tables, read_parquet.
  rewrite Hl1, Hl2, Hl3, Hl4, Hl5, Hl6, Hl7. reflexivity.
Qed.
End StageOutputs.

(** ** The Cypher runner *)

Section CypherText.
Import run_cypher.
Context {char : Type} `{EqDecision char}.
Context (isspace : char → bool) (semi : char).
Implicit Types (c : char) (s p w : list char).

Local Abbreviation lstrip := (lstrip isspace).
Local Abbreviation rstrip := (rstrip isspace).
Local Abbreviation strip := (strip isspace).
Local Abbreviation split := (split semi).
Local Abbreviation split_statements := (split_statements isspace semi).

(** All characters of [w] are white space. *)
Definition blank w : Prop := Forall (λ c, isspace c = true) w.

(** A statement as [split_statements] returns them: not empty, without
    a semicolon, and with no white space at either end. *)
Definition clean p : Prop :=
  p ≠ [] ∧ (semi ∉ p)
  ∧ (∀ c, head p = Some c → isspace c = false)
  ∧ (∀ c, last p = Some c → isspace c = false).

Lemma lstrip_blank w s : blank w → lstrip (w ++ s) = lstrip s.
Proof.
  unfold blank. induction 1 as [|c w Hc _ IH]; [done|]. simpl. by rewrite Hc.
Qed.

Lemma lstrip_decompose s : ∃ w, blank w ∧ s = w ++ lstrip s.
Proof.
  induction s as [|c s (w & Hw & IH)]; [exists []; split; [constructor|done]|].
  simpl. destruct (isspace c) eqn:Hc.
  - exists (c :: w). split; [by constructor|]. by rewrite IH at 1.
  - exists []. split; [constructor|done].
Qed.

Lemma lstrip_head s c : head (lstrip s) = Some c → isspace c = false.
Proof.
  induction s as [|c' s IH]; [done|]. simpl.
  destruct (isspace c') eqn:Hc; [done|]. by intros [= <-].
Qed.

Lemma lstrip_id s : (∀ c, head s = Some c → isspace c = false) → lstrip s = s.
Proof. destruct s as [|c s]; [done|]. intros Hc. simpl. by rewrite (Hc c). Qed.

Lemma lstrip_app s w : lstrip s ≠ [] → lstrip (s ++ w) = lstrip s ++ w.
Proof.
  induction s as [|c s IH]; [done|]. simpl.
  destruct (isspace c); [apply IH|done].
Qed.

Lemma lstrip_all_blank s : lstrip s = [] → blank s.
Proof.
  induction s as [|c s IH]; [constructor|]. simpl.
  destruct (isspace c) eqn:Hc; [|done]. intros Hs. constructor; [done|by apply IH].
Qed.

Lemma blank_lstrip w : blank w → lstrip w = [].
Proof. intros Hw. rewrite <-(app_nil_r w). by rewrite lstrip_blank. Qed.

Lemma blank_reverse w : blank w → blank (reverse w).
Proof. unfold blank. by rewrite Forall_reverse. Qed.

Lemma rstrip_blank s w : blank w → rstrip (s ++ w) = rstrip s.
Proof.
  intros Hw. unfold rstrip. rewrite reverse_app, lstrip_blank; [done|].
  by apply blank_reverse.
Qed.

Lemma rstrip_decompose s : ∃ w, blank w ∧ s = rstrip s ++ w.
Proof.
  destruct (lstrip_decompose (reverse s)) as (w & Hw & Hs).
  exists (reverse w). split; [by apply blank_reverse|].
  unfold rstrip. rewrite <-reverse_app, <-Hs. by rewrite reverse_involutive.
Qed.

Lemma rstrip_last s c : last (rstrip s) = Some c → isspace c = false.
Proof. unfold rstrip. rewrite last_reverse. apply lstrip_head. Qed.

Lemma rstrip_id s : (∀ c, last s = Some c → isspace c = false) → rstrip s = s.
Proof.
  intros Hc. unfold rstrip. rewrite lstrip_id; [apply reverse_involutive|].
  intros c. rewrite head_reverse. apply Hc.
Qed.

Lemma rstrip_head s c :
  head s = Some c → isspace c = false → head (rstrip s) = Some c.
Proof.
  intros Hs Hc. destruct (rstrip_decompose s) as (w & Hw & Heq).
  destruct (rstrip s) as [|c' r] eqn:Hr.
  - simpl in Heq. subst w. destruct s as [|c' s]; [done|].
    injection Hs as ->. apply Forall_cons in Hw as [Hw _]. congruence.
  - rewrite Heq in Hs. by injection Hs as ->.
Qed.

Lemma strip_head s c : head (strip s) = Some c → isspace c = false.
Proof.
  unfold strip. intros Hc.
  destruct (lstrip s) as [|c' t] eqn:Ht; [done|].
  assert (isspace c' = false) as Hc' by (apply (lstrip_head s); by rewrite Ht).
  destruct (isspace c) eqn:E; [|done].
  assert (head (rstrip (c' :: t)) = Some c') as Hh by (by apply rstrip_head).
  congruence.
Qed.

Lemma strip_last s c : last (strip s) = Some c → isspace c = false.
Proof. apply rstrip_last. Qed.

Lemma strip_subseteq s : strip s ⊆ s.
Proof.
  unfold strip. destruct (lstrip_decompose s) as (w & _ & Hs).
  destruct (rstrip_decompose (lstrip s)) as (w' & _ & Hs').
  intros c Hc. rewrite Hs, Hs', !elem_of_app. auto.
Qed.

Lemma strip_id p :
  (∀ c, head p = Some c → isspace c = false) →
  (∀ c, last p = Some c → isspace c = false) → strip p = p.
Proof. intros Hh Hl. unfold strip. rewrite lstrip_id by done. by apply rstrip_id. Qed.

Lemma strip_blank_l w s : blank w → strip (w ++ s) = strip s.
Proof. intros Hw. unfold strip. by rewrite lstrip_blank. Qed.

Lemma strip_blank_r s w : blank w → strip (s ++ w) = strip s.
Proof.
  intros Hw. unfold strip. destruct (lstrip s) as [|c t] eqn:Hs.
  - apply lstrip_all_blank in Hs.
    rewrite lstrip_blank by done. by rewrite blank_lstrip.
  - rewrite lstrip_app by (by rewrite Hs). rewrite Hs. by apply rstrip_blank.
Qed.

(** [strip] takes white space off both ends and nothing else. *)
Lemma strip_decompose s : ∃ w1 w2, blank w1 ∧ blank w2 ∧ s = w1 ++ strip s ++ w2.
Proof.
  destruct (lstrip_decompose s) as (w1 & Hw1 & Hs).
  destruct (rstrip_decompose (lstrip s)) as (w2 & Hw2 & Hs').
  exists w1, w2. split_and!; [done..|]. unfold strip. by rewrite <-Hs', <-Hs.
Qed.

Lemma split_not_nil s : split s ≠ [].
Proof.
  destruct s as [|c s]; [done|]. simpl. case_decide; [done|].
  by destruct (run_cypher.split semi s).
Qed.

Lemma split_cons_other c s :
  c ≠ semi → ∃ p ps, split s = p :: ps ∧ split (c :: s) = (c :: p) :: ps.
Proof.
  intros Hc. simpl. rewrite decide_False by done.
  destruct (run_cypher.split semi s) as [|p ps] eqn:Hs; [by apply split_not_nil in Hs|].
  by exists p, ps.
Qed.

Lemma split_app_semi s1 s2 : split (s1 ++ semi :: s2) = split s1 ++ split s2.
Proof.
  induction s1 as [|c s1 IH]; simpl.
  - by rewrite decide_True.
  - case_decide; [by rewrite IH|]. rewrite IH.
    destruct (run_cypher.split semi s1) as [|p ps] eqn:Hs; [by apply split_not_nil in Hs|].
    done.
Qed.

Lemma split_no_semi s : semi ∉ s → split s = [s].
Proof.
  induction s as [|c s IH]; [done|]. intros [Hc Hs]%not_elem_of_cons.
  simpl. rewrite decide_False by done. by rewrite IH.
Qed.

Lemma split_parts s p : p ∈ split s → semi ∉ p.
Proof.
  revert p. induction s as [|c s IH]; intros p; simpl.
  - intros ->%list_elem_of_singleton. apply not_elem_of_nil.
  - case_decide as Hc.
    + intros [-> | Hp]%elem_of_cons; [apply not_elem_of_nil|by apply IH].
    + destruct (run_cypher.split semi s) as [|q qs]; [|].
      * intros ->%list_elem_of_singleton. apply not_elem_of_cons. split; [done|].
        apply not_elem_of_nil.
      * intros [-> | Hp]%elem_of_cons.
        -- apply not_elem_of_cons. split; [done|]. apply IH. by left.
        -- apply IH. by right.
Qed.

Lemma blank_no_semi w : isspace semi = false → blank w → semi ∉ w.
Proof.
  intros Hsemi Hw Hin. unfold blank in Hw. rewrite Forall_forall in Hw.
  specialize (Hw _ Hin). congruence.
Qed.

(** White space before the text only lengthens the first piece. *)
Lemma split_blank_l w s :
  isspace semi = false → blank w → strip <$> split (w ++ s) = strip <$> split s.
Proof.
  intros Hsemi. unfold blank. induction 1 as [|c w Hc Hw IH]; [done|].
  change ((c :: w) ++ s) with (c :: (w ++ s)).
  destruct (split_cons_other c (w ++ s)) as (p & ps & Hs & ->); [congruence|].
  rewrite <-IH, Hs. simpl. f_equal.
  apply (strip_blank_l [c]). by repeat constructor.
Qed.

Lemma split_app_tail s w :
  semi ∉ w → ∃ ps p, split s = ps ++ [p] ∧ split (s ++ w) = ps ++ [p ++ w].
Proof.
  intros Hw. induction s as [|c s (ps & p & Hs & Hsw)].
  - exists [], []. split; [done|]. by apply split_no_semi.
  - change ((c :: s) ++ w) with (c :: (s ++ w)). simpl. rewrite Hs, Hsw.
    case_decide.
    + by exists ([] :: ps), p.
    + destruct ps as [|q qs]; simpl.
      * by exists [], (c :: p).
      * by exists ((c :: q) :: qs), p.
Qed.

(** White space after the text only lengthens the last piece. *)
Lemma split_blank_r s w :
  isspace semi = false → blank w → strip <$> split (s ++ w) = strip <$> split s.
Proof.
  intros Hsemi Hw.
  destruct (split_app_tail s w) as (ps & p & -> & ->); [by apply blank_no_semi|].
  rewrite !fmap_app. simpl. by rewrite strip_blank_r.
Qed.

Lemma split_statements_parts s p :
  p ∈ split_statements s ↔ p ≠ [] ∧ ∃ q, p = strip q ∧ q ∈ split s.
Proof.
  unfold run_cypher.split_statements. cbv zeta.
  rewrite list_elem_of_filter, list_elem_of_fmap. done.
Qed.

Lemma split_statements_all_clean s : Forall clean (split_statements s).
Proof.
  apply Forall_forall. intros p (Hp & q & -> & Hq)%split_statements_parts.
  split_and!; [done| |apply strip_head|apply strip_last].
  intros Hin%strip_subseteq. by apply (split_parts s q).
Qed.

Lemma split_statements_app_semi s1 s2 :
  split_statements (s1 ++ semi :: s2) = split_statements s1 ++ split_statements s2.
Proof.
  unfold run_cypher.split_statements. cbv zeta.
  by rewrite split_app_semi, fmap_app, filter_app.
Qed.

Lemma split_statements_one p : clean p → split_statements p = [p].
Proof.
  intros (Hne & Hsemi & Hh & Hl). unfold run_cypher.split_statements. cbv zeta.
  rewrite split_no_semi by done. simpl. rewrite strip_id by done.
  by rewrite filter_cons, decide_True, filter_nil by done.
Qed.

Lemma split_statements_join ps : Forall clean ps → split_statements (join semi ps) = ps.
Proof.
  induction 1 as [|p ps Hp Hps IH]; [done|].
  destruct ps as [|p' ps'].
  - by apply split_statements_one.
  - change (join semi (p :: p' :: ps')) with (p ++ semi :: join semi (p' :: ps')).
    by rewrite split_statements_app_semi, IH, split_statements_one.
Qed.

(** What [split_statements] returns: statements that are not empty,
    hold no semicolon and neither start nor end with white space, each
    the stripped text between two semicolons of the input.  Joining them
    with semicolons and splitting again gives the same statements. *)
Theorem split_statements_clean s :
  Forall (λ p, clean p ∧ ∃ q, q ∈ split s ∧ p = strip q) (split_statements s)
  ∧ split_statements (join semi (split_statements s)) = split_statements s.
Proof.
  split.
  - apply Forall_forall. intros p Hp. split.
    + pose proof (split_statements_all_clean s) as Hall.
      rewrite Forall_forall in Hall. by apply Hall.
    + apply split_statements_parts in Hp as (_ & q & -> & Hq). eauto.
  - apply split_statements_join, split_statements_all_clean.
Qed.

(** A semicolon always separates: the statements of a text are those
    before one of its semicolons followed by those after it. *)
Theorem split_statements_semicolon s1 s2 :
  split_statements (s1 ++ semi :: s2) = split_statements s1 ++ split_statements s2.
Proof. apply split_statements_app_semi. Qed.

Lemma split_statements_strip s :
  isspace semi = false → split_statements (strip s) = split_statements s.
Proof.
  intros Hsemi. destruct (strip_decompose s) as (w1 & w2 & Hw1 & Hw2 & Hs).
  unfold run_cypher.split_statements. cbv zeta. f_equal.
  rewrite Hs at 2. by rewrite split_blank_l, split_blank_r.
Qed.

(** The [strip] of [read_cypher] changes nothing for the statements. *)
Theorem strip_before_split s :
  isspace semi = false → split_statements (strip s) = split_statements s.
Proof. apply split_statements_strip. Qed.

(** Clean statements joined with semicolons split into themselves. *)
Theorem split_join_round_trip ps :
  Forall clean ps → split_statements (join semi ps) = ps.
Proof. apply split_statements_join. Qed.

(** [scripts/setup_neo4j.py] filters before it strips, [run_cypher.py]
    strips before it filters: the statements are the same. *)
Theorem setup_statements_agree text :
  setup_neo4j.statements isspace semi text = split_statements text.
Proof.
  unfold setup_neo4j.statements, run_cypher.split_statements. cbv zeta.
  induction (run_cypher.split semi text) as [|p ps IH]; [done|].
  rewrite fmap_cons, !filter_cons. case_decide; [|done].
  rewrite fmap_cons. by f_equal.
Qed.
End CypherText.

Section CypherRunner.
Import run_cypher.
Context {char : Type} `{EqDecision char}.
Context (isspace : char → bool) (semi : char).
Context {db E : Type} (run : list char → db → E + db).
Implicit Types (d : db) (fs : gmap string (list char)) (files : list string).

Local Abbreviation main := (main isspace semi run).
Local Abbreviation run_files := (run_files isspace semi run).
Local Abbreviation run_statements := (run_statements run).
Local Abbreviation split_statements := (split_statements isspace semi).

(** The statements one after the other, up to the first that fails. *)
Fixpoint run_in_order (statements : list (list char)) d : option E * db :=
  match statements with
  | [] => (None, d)
  | stmt :: rest =>
      match run stmt d with
      | inl e => (Some e, d)
      | inr d' => run_in_order rest d'
      end
  end.

Definition ending (r : option E) : outcome :=
  match r with
  | None => Return 0
  | Some e => Raised (Neo4jError e)
  end.

Lemma run_in_order_app stmts1 stmts2 d :
  run_in_order (stmts1 ++ stmts2) d =
  match run_in_order stmts1 d with
  | (None, d') => run_in_order stmts2 d'
  | (Some e, d') => (Some e, d')
  end.
Proof.
  revert d. induction stmts1 as [|stmt stmts1 IH]; intros d; [done|].
  simpl. destruct (run stmt d) as [e|d']; [done|apply IH].
Qed.

Lemma run_statements_in_order f stmts : ∀ i d,
  (run_statements f i stmts d).1 =
  (Neo4jError <$> (run_in_order stmts d).1, (run_in_order stmts d).2).
Proof.
  induction stmts as [|stmt stmts IH]; intros i d; [done|].
  simpl. destruct (run stmt d) as [e|d']; [done|apply IH].
Qed.

Lemma first_missing_Some fs files f :
  first_missing fs files = Some f → f ∈ files ∧ fs !! f = None.
Proof.
  induction files as [|f' files IH]; [done|]. simpl. case_decide.
  - intros [= <-]. split; [by left|done].
  - intros [? ?]%IH. split; [by right|done].
Qed.

Lemma first_missing_None fs files :
  first_missing fs files = None ↔ ∀ f, f ∈ files → is_Some (fs !! f).
Proof.
  induction files as [|f' files IH]; simpl.
  - split; [|done]. by intros _ f ?%elem_of_nil.
  - case_decide as Hf.
    + split; [done|]. intros Hall. destruct (Hall f') as [x Hx]; [by left|]. congruence.
    + rewrite IH. split.
      * intros Hall f [-> | ?]%elem_of_cons; [|by apply Hall].
        by destruct (fs !! f'); [eexists|].
      * intros Hall f ?. apply Hall. by right.
Qed.

(** The texts of the files, split. *)
Definition all_statements fs files : list (list char) :=
  concat ((λ f, split_statements (default [] (fs !! f))) <$> files).

Lemma run_files_in_order fs files : isspace semi = false → ∀ d,
  (∀ f, f ∈ files → is_Some (fs !! f)) →
  (run_files fs files d).1 =
  (Neo4jError <$> (run_in_order (all_statements fs files) d).1,
   (run_in_order (all_statements fs files) d).2).
Proof.
  intros Hsemi. induction files as [|f files IH]; intros d Hall; [done|].
  destruct (Hall f) as [txt Htxt]; [by left|].
  unfold all_statements. rewrite fmap_cons. simpl.
  unfold read_cypher. rewrite Htxt. simpl.
  rewrite (split_statements_strip isspace semi txt Hsemi).
  rewrite run_in_order_app.
  pose proof (run_statements_in_order f (split_statements txt) 1 d) as Hst.
  destruct (run_statements f 1 (split_statements txt) d) as [[r d'] out].
  simpl in Hst. injection Hst as -> ->.
  destruct (run_in_order (split_statements txt) d) as [[e|] d']; simpl; [done|].
  specialize (IH d'). fold (all_statements fs files).
  destruct (run_files fs files d') as [[r d''] out']. simpl in *.
  apply IH. intros f' ?. apply Hall. by right.
Qed.

(** [main] looks for all its files before it connects: with a file
    missing it returns 2 and names a missing file, and the store is as
    it was. *)
Theorem main_missing_file script files connect fs d f :
  f ∈ files → fs !! f = None →
  ∃ f', f' ∈ files ∧ fs !! f' = None
    ∧ main (script :: files) connect fs d = (Return 2, d, [FileNotFound f']).
Proof.
  intros Hf Hnone. unfold run_cypher.main.
  destruct files as [|f0 files0]; [by apply elem_of_nil in Hf|].
  destruct (first_missing fs (f0 :: files0)) as [f'|] eqn:Hm.
  - apply first_missing_Some in Hm as [? ?]. by exists f'.
  - rewrite first_missing_None in Hm. destruct (Hm f Hf) as [x Hx]. congruence.
Qed.

(** With all files there and the server reachable, [main] runs the
    statements of all files in the order of the command line, each in
    its own transaction, up to the first that fails: it returns 0 when
    none does, and lets the error through otherwise, with the store as
    the statements before the failing one left it. *)
Theorem main_runs_in_order script files fs d :
  isspace semi = false → files ≠ [] →
  (∀ f, f ∈ files → is_Some (fs !! f)) →
  ∃ out,
    main (script :: files) None fs d =
    (ending (run_in_order (all_statements fs files) d).1,
     (run_in_order (all_statements fs files) d).2, out).
Proof.
  intros Hsemi Hne Hall. unfold run_cypher.main.
  destruct files as [|f0 files0]; [done|].
  rewrite (proj2 (first_missing_None fs (f0 :: files0)) Hall).
  pose proof (run_files_in_order fs (f0 :: files0) Hsemi d Hall) as Hrun.
  destruct (run_files fs (f0 :: files0) d) as [[r d'] out].
  simpl in Hrun. injection Hrun as -> ->.
  destruct (run_in_order (all_statements fs (f0 :: files0)) d) as [[e|] d']; simpl;
    by eexists.
Qed.
Lemma run_statements_error f stmts : ∀ i d r d' out,
  run_statements f i stmts d = (Some r, d', out) →
  ∃ j stmt e,
    r = Neo4jError e ∧ stmts !! j = Some stmt ∧ out = [ErrorIn f (i + j) stmt]
    ∧ run stmt d' = inl e.
Proof.
  induction stmts as [|stmt stmts IH]; intros i d r d' out; [done|].
  simpl. destruct (run stmt d) as [e|d1] eqn:Hrun.
  - intros [= <- <- <-]. exists 0, stmt, e. by rewrite Nat.add_0_r.
  - intros (j & stmt' & e & -> & Hj & -> & Hfail)%IH.
    exists (S j), stmt', e. split_and!; [done..| |done].
    by rewrite Nat.add_succ_r.
Qed.

Lemma run_files_error fs files : ∀ d e d' out,
  run_files fs files d = (Some (Neo4jError e), d', out) →
  ∃ f j stmt cypher,
    f ∈ files ∧ read_cypher isspace fs f = Some cypher
    ∧ split_statements cypher !! j = Some stmt
    ∧ last out = Some (ErrorIn f (S j) stmt)
    ∧ run stmt d' = inl e.
Proof.
  induction files as [|f files IH]; intros d e d' out; [done|].
  simpl. destruct (read_cypher isspace fs f) as [cypher|] eqn:Hread; [|done].
  destruct (run_statements f 1 (split_statements cypher) d) as [[[r|] d1] out1] eqn:Hst.
  - intros [= -> <- <-].
    apply run_statements_error in Hst as (j & stmt & e' & [= <-] & Hj & -> & Hfail).
    exists f, j, stmt, cypher. split_and!; [by left|done..].
  - destruct (run_files fs files d1) as [[r' d2] out2] eqn:Hfiles.
    intros [= -> <- <-].
    apply IH in Hfiles as (f' & j & stmt & cypher' & Hf' & Hread' & Hj & Hlast & Hfail).
    exists f', j, stmt, cypher'. split_and!; [by right|done..| |done].
    destruct out2 as [|l out2]; [done|].
    change (Header f (length (split_statements cypher)) :: out1 ++ l :: out2)
      with ((Header f (length (split_statements cypher)) :: out1) ++ l :: out2).
    by rewrite last_app, Hlast.
Qed.

(** When a statement fails, the last line [main] prints names it: the
    file, the position of the statement among those of the file,
    counted from 1, and the statement, which is the one that failed on
    the store [main] leaves. *)
Theorem main_error_report argv fs d e d' out :
  main argv None fs d = (Raised (Neo4jError e), d', out) →
  ∃ f i stmt cypher,
    f ∈ argv ∧ read_cypher isspace fs f = Some cypher
    ∧ split_statements cypher !! i = Some stmt
    ∧ last out = Some (ErrorIn f (S i) stmt)
    ∧ run stmt d' = inl e.
Proof.
  unfold run_cypher.main. destruct argv as [|script [|f0 files0]]; [done..|].
  destruct (first_missing fs (f0 :: files0)); [done|].
  destruct (run_files fs (f0 :: files0) d) as [[[r|] d1] out1] eqn:Hrun; [|done].
  intros [= -> <- <-].
  apply run_files_error in Hrun as (f & j & stmt & cypher & Hf & ? & ? & ? & ?).
  exists f, j, stmt, cypher. split_and!; [by right|done..].
Qed.
End CypherRunner.

(** * Worked examples

    Small inputs, run with the counter generator: the theorems above
    applied to them, and the runs that tell a statement of the
    specification from what the code does. *)

(** Three people, two transactions, and a pool or two of infrastructure. *)
Definition demo_people : DataFrame :=
  [("person_id", [VStr "P000000"; VStr "P000001"; VStr "P000002"])].

Definition demo_tx : DataFrame :=
  [("tx_id", [VStr "T00000000"; VStr "T00000001"]);
   ("ts", [VTime 1735689600000000; VTime 1735776000000000]);
   ("amount", [VFloat 1.5; VFloat 2.5]);
   ("currency", [VStr "GBP"; VStr "GBP"]);
   ("person_id", [VStr "P000000"; VStr "P000002"]);
   ("merchant_id", [VStr "M00000"; VStr "M00000"]);
   ("device_id", [VStr "D0000000"; VStr "D0000001"]);
   ("ip", [VStr "10.0.0.1"; VStr "10.0.0.2"]);
   ("card_hash", [VStr "C00000000"; VStr "C00000001"]);
   ("address_hash", [VStr "A0000000"; VStr "A0000001"])].

Definition demo_devices : list value := [VStr "D0000000"; VStr "D0000001"].
Definition demo_ips : list value := [VStr "10.0.0.1"; VStr "10.0.0.2"].
Definition demo_cards : list value := [VStr "C00000000"; VStr "C00000001"].
Definition demo_addrs : list value := [VStr "A0000000"; VStr "A0000001"].

(** Up to three rings of one to three members; [share] of the rows. *)
Definition demo_ring (share : float) : inject_fraud_rings.RingConfig := {|
  inject_fraud_rings.ring_seed := 2;
  inject_fraud_rings.n_rings := 3;
  inject_fraud_rings.ring_size_min := 1;
  inject_fraud_rings.ring_size_max := 3;
  inject_fraud_rings.fraud_tx_share := share;
  inject_fraud_rings.shared_device_prob := 0.70;
  inject_fraud_rings.shared_ip_prob := 0.55;
  inject_fraud_rings.shared_card_prob := 0.35;
  inject_fraud_rings.shared_address_prob := 0.45;
  inject_fraud_rings.burst_hours_window := 48;
|}.

Definition demo_sim : generate_bronze.SimConfig := {|
  generate_bronze.sim_seed := 7;
  generate_bronze.n_people := 4;
  generate_bronze.n_merchants := 2;
  generate_bronze.n_transactions := 4;
|}.

Definition demo_infra : enrich_infrastructure.InfraConfig := {|
  enrich_infrastructure.infra_seed := 3;
  enrich_infrastructure.n_devices := 3;
  enrich_infrastructure.n_ips := 2;
  enrich_infrastructure.n_cards := 2;
  enrich_infrastructure.n_addresses := 2;
  enrich_infrastructure.reuse_strength := 0.25;
|}.

(** The run of the Ring Injector on the example, half of the rows. *)
Definition demo_inject : result (inject_fraud_rings.injection * nat) :=
  inject_fraud_rings.inject (demo_ring 0.5) demo_people demo_tx
    demo_devices demo_ips demo_cards demo_addrs (seed 2).

(** The configured example of the specification: 50,000 transactions at a
    share of 0.08 give 4,000 rows. *)
Lemma fraud_count_default :
  inject_fraud_rings.fraud_count inject_fraud_rings.default_config 50000 = Ok 4000%Z.
Proof. vm_compute. reflexivity. Qed.

(** [n_fraud] is computed in binary64: the product is rounded before it
    is truncated.  A hundred rows at a share of 0.29 give 28, and ten
    rows at 0.3 give 3, although the float [0.3] is below three tenths. *)
Lemma fraud_count_binary64 :
  inject_fraud_rings.fraud_count (demo_ring 0.29) 100 = Ok 28%Z
  ∧ inject_fraud_rings.fraud_count (demo_ring 0.3) 10 = Ok 3%Z
  ∧ ∃ m e, Prim2SF 0.3 = S754_finite false m e ∧ (10 * (Z.pos m * 2 ^ (54 + e)) < 3 * 2 ^ 54)%Z.
Proof.
  split; [vm_compute; reflexivity|]. split; [vm_compute; reflexivity|].
  eexists _, _. split; [vm_compute; reflexivity|]. vm_compute. reflexivity.
Qed.

(** A larger example: six people, forty devices and cards, fifty IPs,
    thirty addresses, and two rings of one to three members. *)
Definition wide_people : DataFrame := [("person_id", padded_ids "P" 6 6)].
Definition wide_devices : list value := padded_ids "D" 7 40.
Definition wide_ips : list value := (λ i, VStr ("10.0.0." +:+ decimal i)) <$> seq 1 50.
Definition wide_cards : list value := padded_ids "C" 8 40.
Definition wide_addrs : list value := padded_ids "A" 7 30.

Definition pair_ring : inject_fraud_rings.RingConfig := {|
  inject_fraud_rings.ring_seed := 2;
  inject_fraud_rings.n_rings := 2;
  inject_fraud_rings.ring_size_min := 1;
  inject_fraud_rings.ring_size_max := 3;
  inject_fraud_rings.fraud_tx_share := 0.5;
  inject_fraud_rings.shared_device_prob := 0.70;
  inject_fraud_rings.shared_ip_prob := 0.55;
  inject_fraud_rings.shared_card_prob := 0.35;
  inject_fraud_rings.shared_address_prob := 0.45;
  inject_fraud_rings.burst_hours_window := 48;
|}.

Definition wide_inject : result (inject_fraud_rings.injection * nat) :=
  inject_fraud_rings.inject pair_ring wide_people demo_tx
    wide_devices wide_ips wide_cards wide_addrs (seed 2).

Section InjectorExamples.
Import inject_fraud_rings.

Lemma label_cardinality_witness :
  ∃ r g', demo_inject = Ok (r, g')
    ∧ ∃ n_fraud is_fraud,
        fraud_count (demo_ring 0.5) (height demo_tx) = Ok n_fraud
        ∧ (1 ≤ n_fraud)%Z
        ∧ length (fraud_idx r) = Z.to_nat (Z.min n_fraud (Z.of_nat (height demo_tx)))
        ∧ ((n_fraud ≤ Z.of_nat (height demo_tx))%Z →
             Z.of_nat (length (fraud_idx r)) = n_fraud)
        ∧ NoDup (fraud_idx r)
        ∧ (∀ i, i ∈ fraud_idx r → i < height demo_tx)
        ∧ column (tx_out r) "is_fraud" = Ok is_fraud
        ∧ length is_fraud = height demo_tx
        ∧ (∀ i, i < height demo_tx →
             is_fraud !! i = Some (VInt (if decide (i ∈ fraud_idx r) then 1 else 0)))
        ∧ length (filter (λ v, v = VInt 1) is_fraud) = length (fraud_idx r).
Proof.
  eexists _, _. split; [vm_compute; reflexivity|].
  eapply (proj1 (label_cardinality (demo_ring 0.5) demo_people demo_tx demo_devices
                   demo_ips demo_cards demo_addrs (seed 2))).
  vm_compute. reflexivity.
Defined.

(** C2 as stated fails when the share exceeds one: with two rows and a
    share of 2.0, [floor(n_total * fraud_tx_share)] is 4, the run
    returns, and it has selected and labelled 2 rows, not 4. *)
Lemma label_cardinality_counterexample :
  ∃ r g' is_fraud,
    inject (demo_ring 2.0) demo_people demo_tx demo_devices demo_ips demo_cards
      demo_addrs (seed 2) = Ok (r, g')
    ∧ fraud_count (demo_ring 2.0) (height demo_tx) = Ok 4%Z
    ∧ length (fraud_idx r) = 2
    ∧ column (tx_out r) "is_fraud" = Ok is_fraud
    ∧ length (filter (λ v, v = VInt 1) is_fraud) = 2.
Proof.
  eexists _, _, _. split; [vm_compute; reflexivity|].
  split; [vm_compute; reflexivity|].
  split; [vm_compute; reflexivity|].
  split; vm_compute; reflexivity.
Qed.



(** Two rings, of two and of three of the six people. *)
Lemma ring_disjointness_witness :
  ∃ r g',
    column wide_people "person_id" = Ok (padded_ids "P" 6 6)
    ∧ NoDup (padded_ids "P" 6 6)
    ∧ wide_inject = Ok (r, g')
    ∧ rings r = [[VStr "P000001"; VStr "P000004"];
                 [VStr "P000005"; VStr "P000000"; VStr "P000003"]]
    ∧ NoDup (concat (rings r))
    ∧ (∀ i j r1 r2 x, i ≠ j → rings r !! i = Some r1 → rings r !! j = Some r2 →
         x ∈ r1 → x ∉ r2)
    ∧ (∀ r1 x, r1 ∈ rings r → x ∈ r1 → x ∈ padded_ids "P" 6 6).
Proof.
  eexists _, _.
  assert (NoDup (padded_ids "P" 6 6)) as Hnd by compute_done.
  split; [vm_compute; reflexivity|]. split; [exact Hnd|].
  split; [vm_compute; reflexivity|]. split; [reflexivity|].
  eapply (ring_disjointness pair_ring wide_people demo_tx wide_devices
            wide_ips wide_cards wide_addrs (seed 2)).
  - vm_compute. reflexivity.
  - exact Hnd.
  - vm_compute. reflexivity.
Defined.

Lemma burst_timing_witness :
  ∃ r g', demo_inject = Ok (r, g')
    ∧ ∃ ts0 positions,
        column demo_tx "ts" = Ok ts0
        ∧ length (anchor_times r) = length (rings r)
        ∧ NoDup positions
        ∧ Forall2 (λ p anchor, ts0 !! p = Some anchor) positions (anchor_times r)
        ∧ ∀ idx, idx ∈ fraud_idx r →
            ∃ r_i members member a h,
              rings r !! r_i = Some members
              ∧ member ∈ members
              ∧ cell (tx_out r) "person_id" idx = Some member
              ∧ anchor_times r !! r_i = Some (VTime a)
              ∧ (Z.abs h ≤ burst_hours_window (demo_ring 0.5))%Z
              ∧ cell (tx_out r) "ts" idx = Some (VTime (a + h * 3600 * 1000000)).
Proof.
  eexists _, _. split; [vm_compute; reflexivity|].
  eapply (burst_timing (demo_ring 0.5) demo_people demo_tx demo_devices
            demo_ips demo_cards demo_addrs (seed 2)).
  vm_compute. reflexivity.
Defined.

Lemma injection_frame_witness :
  ∃ r g', demo_inject = Ok (r, g')
    ∧ (∀ name, name ∉ written_columns →
         lookup_column (tx_out r) name = lookup_column demo_tx name)
    ∧ Forall (λ name, lookup_column (tx_out r) name = lookup_column demo_tx name)
        ["tx_id"; "amount"; "currency"; "merchant_id"]
    ∧ (∀ name i, name ≠ "is_fraud" → i ∉ fraud_idx r →
         cell (tx_out r) name i = cell demo_tx name i)
    ∧ (∀ i, i < height demo_tx → i ∉ fraud_idx r →
         cell (tx_out r) "is_fraud" i = Some (VInt 0)).
Proof.
  eexists _, _. split; [vm_compute; reflexivity|].
  eapply (injection_frame (demo_ring 0.5) demo_people demo_tx demo_devices
            demo_ips demo_cards demo_addrs (seed 2)).
  vm_compute. reflexivity.
Defined.
End InjectorExamples.


Definition empty_dir : bronze_dir := ∅.

(** A run that returns, from the evaluation of [is_ok]. *)
Lemma run_returns {A} (r : result A) : is_ok r = true → ∃ a, r = Ok a.
Proof. destruct r; [eauto|done]. Qed.


(** A directory whose single transaction names a device that the devices
    table does not hold. *)
Definition dangling_dir : bronze_dir :=
  write_parquet "transactions.parquet"
    [("tx_id", [VStr "T00000000"]);
     ("ts", [VTime 1735689600000000]);
     ("amount", [VFloat 1.5]);
     ("currency", [VStr "GBP"]);
     ("person_id", [VStr "P000000"]);
     ("merchant_id", [VStr "M00000"]);
     ("device_id", [VStr "D9999999"]);
     ("ip", [VStr "10.0.0.1"]);
     ("card_hash", [VStr "C00000000"]);
     ("address_hash", [VStr "A0000000"]);
     ("is_fraud", [VInt 0])]
    (write_parquet "addresses.parquet"
       [("address_hash", [VStr "A0000000"]); ("postcode", [VStr "UK"])]
       (write_parquet "cards.parquet" [("card_hash", [VStr "C00000000"])]
          (write_parquet "ips.parquet" [("ip", [VStr "10.0.0.1"])]
             (write_parquet "devices.parquet"
                [("device_id", [VStr "D0000000"]); ("device_type", [VStr "mobile"])]
                (write_parquet "merchants.parquet"
                   [("merchant_id", [VStr "M00000"]); ("mcc", [VStr "5411"]);
                    ("country", [VStr "GB"])]
                   (write_parquet "people.parquet"
                      [("person_id", [VStr "P000000"])] ∅)))))).

(** C1 as stated fails: the load of [dangling_dir] into the empty store
    returns; the store it leaves holds the Transaction node, no node for
    the missing device, and none of the transaction's six relationships
    (not even the five whose entities exist). *)
Lemma phase2_counterexample :
  ∃ g',
    load_bronze.main dangling_dir load_bronze.empty_graph = Ok g'
    ∧ (load_bronze.Transaction, VStr "T00000000") ∈ load_bronze.node_ids g'
    ∧ (load_bronze.Person, VStr "P000000") ∈ load_bronze.node_ids g'
    ∧ ((load_bronze.Device, VStr "D9999999") ∉ load_bronze.node_ids g')
    ∧ load_bronze.rels g' = [].
Proof.
  eexists. split; [vm_compute; reflexivity|].
  split_and!; [compute_done..|vm_compute; reflexivity].
Qed.

(** ** Further runs *)

(** The Entity Generator on the small configuration. *)
Lemma generate_total_witness :
  0 < generate_bronze.n_people demo_sim
  ∧ 0 < generate_bronze.n_merchants demo_sim
  ∧ ∃ fs' g', generate_bronze.main demo_sim empty_dir (seed 0) = Ok (fs', g').
Proof.
  split; [vm_compute; lia|]. split; [vm_compute; lia|].
  apply (generate_total demo_sim empty_dir (seed 0)); vm_compute; lia.
Defined.

(** The Person ids of the default configuration: 2,000 of them. *)
Definition default_person_ids : list value :=
  (λ idx, VStr ("P" +:+ zfill 6 (decimal idx)))
    <$> seq 0 (generate_bronze.n_people generate_bronze.default_config).

(** The configured scenario of the specification: 12 rings, with 72 to
    240 members in all. *)
Lemma rings_when_people_suffice_witness :
  ∃ sh built g',
    inject_fraud_rings.ring_membership inject_fraud_rings.default_config
      default_person_ids (seed 42) = Ok ((sh, built), g')
    ∧ length built = 12
    ∧ 72 ≤ length (concat built) ≤ 240.
Proof.
  apply (rings_when_people_suffice inject_fraud_rings.default_config
           default_person_ids (seed 42)); vm_compute; lia.
Defined.

Section HotPools.
Import inject_fraud_rings.

(** Hot pools that are proper prefixes: 30 of 40 devices and cards, 40
    of 50 IPs, 25 of 30 addresses. *)
Lemma shared_infrastructure_hot_witness :
  ∃ r g', wide_inject = Ok (r, g')
    ∧ (length wide_devices = 40 ∧ length wide_ips = 50
       ∧ length wide_cards = 40 ∧ length wide_addrs = 30)
    ∧ ∃ kd ki kc ka,
        (hot_size 30 0.03 wide_devices = Ok kd ∧ hot_size 40 0.04 wide_ips = Ok ki
         ∧ hot_size 30 0.03 wide_cards = Ok kc ∧ hot_size 25 0.03 wide_addrs = Ok ka)
        ∧ (30 ≤ kd ∧ 40 ≤ ki ∧ 30 ≤ kc ∧ 25 ≤ ka)%Z
        ∧ (_choose_hot wide_devices kd = take (Z.to_nat kd) wide_devices
           ∧ _choose_hot wide_ips ki = take (Z.to_nat ki) wide_ips
           ∧ _choose_hot wide_cards kc = take (Z.to_nat kc) wide_cards
           ∧ _choose_hot wide_addrs ka = take (Z.to_nat ka) wide_addrs)
        ∧ (length (_choose_hot wide_devices kd)
             = Nat.min (Z.to_nat kd) (length wide_devices)
           ∧ length (_choose_hot wide_ips ki) = Nat.min (Z.to_nat ki) (length wide_ips)
           ∧ length (_choose_hot wide_cards kc)
             = Nat.min (Z.to_nat kc) (length wide_cards)
           ∧ length (_choose_hot wide_addrs ka)
             = Nat.min (Z.to_nat ka) (length wide_addrs))
        ∧ (_choose_hot wide_devices kd `prefix_of` wide_devices
           ∧ _choose_hot wide_ips ki `prefix_of` wide_ips
           ∧ _choose_hot wide_cards kc `prefix_of` wide_cards
           ∧ _choose_hot wide_addrs ka `prefix_of` wide_addrs)
        ∧ length (ring_shared r) = length (rings r)
        ∧ Forall (λ sh, sh_device sh ∈ _choose_hot wide_devices kd
                        ∧ sh_ip sh ∈ _choose_hot wide_ips ki
                        ∧ sh_card sh ∈ _choose_hot wide_cards kc
                        ∧ sh_addr sh ∈ _choose_hot wide_addrs ka) (ring_shared r).
Proof.
  eexists _, _. split; [vm_compute; reflexivity|].
  split; [by vm_compute|].
  eapply (shared_infrastructure_hot pair_ring wide_people demo_tx wide_devices
            wide_ips wide_cards wide_addrs (seed 2)).
  vm_compute. reflexivity.
Defined.
End HotPools.

Lemma coerced_infrastructure_witness :
  ∃ r g', demo_inject = Ok (r, g')
    ∧ ∀ idx, idx ∈ inject_fraud_rings.fraud_idx r →
        ∃ r_i members sh member,
          inject_fraud_rings.rings r !! r_i = Some members
          ∧ inject_fraud_rings.ring_shared r !! r_i = Some sh
          ∧ member ∈ members
          ∧ cell (inject_fraud_rings.tx_out r) "person_id" idx = Some member
          ∧ (cell (inject_fraud_rings.tx_out r) "device_id" idx
               = Some (inject_fraud_rings.sh_device sh)
             ∨ cell (inject_fraud_rings.tx_out r) "device_id" idx
               = cell demo_tx "device_id" idx)
          ∧ (cell (inject_fraud_rings.tx_out r) "ip" idx
               = Some (inject_fraud_rings.sh_ip sh)
             ∨ cell (inject_fraud_rings.tx_out r) "ip" idx = cell demo_tx "ip" idx)
          ∧ (cell (inject_fraud_rings.tx_out r) "card_hash" idx
               = Some (inject_fraud_rings.sh_card sh)
             ∨ cell (inject_fraud_rings.tx_out r) "card_hash" idx
               = cell demo_tx "card_hash" idx)
          ∧ (cell (inject_fraud_rings.tx_out r) "address_hash" idx
               = Some (inject_fraud_rings.sh_addr sh)
             ∨ cell (inject_fraud_rings.tx_out r) "address_hash" idx
               = cell demo_tx "address_hash" idx).
Proof.
  eexists _, _. split; [vm_compute; reflexivity|].
  eapply (coerced_infrastructure (demo_ring 0.5) demo_people demo_tx demo_devices
            demo_ips demo_cards demo_addrs (seed 2)).
  vm_compute. reflexivity.
Defined.

Lemma sample_with_reuse_outputs_witness :
  ∃ outs g',
    enrich_infrastructure._sample_with_reuse demo_devices 3 0.25 (seed 1) = Ok (outs, g')
    ∧ length outs = 3 ∧ outs ⊆ demo_devices.
Proof.
  eexists _, _. split; [vm_compute; reflexivity|].
  eapply (sample_with_reuse_outputs demo_devices 3 0.25 (seed 1)).
  vm_compute. reflexivity.
Defined.

Lemma enrich_missing_transactions_witness :
  empty_dir !! "transactions.parquet" = None
  ∧ enrich_infrastructure.main demo_infra empty_dir (seed 0) =
    Raise (FileNotFoundError
      "Expected data/bronze/transactions.parquet to exist. Run generate_bronze first.").
Proof.
  split; [reflexivity|].
  apply (enrich_missing_transactions demo_infra empty_dir (seed 0)). reflexivity.
Defined.

Lemma chunked_partition_witness :
  0 < 2
  ∧ concat (load_bronze.chunked [1; 2; 3; 4; 5] 2) = [1; 2; 3; 4; 5]
  ∧ Forall (λ batch, 0 < length batch ≤ 2) (load_bronze.chunked [1; 2; 3; 4; 5] 2).
Proof. split; [lia|]. apply (chunked_partition [1; 2; 3; 4; 5] 2). lia. Defined.

(** Three people loaded one by one, and in one batch. *)
Lemma node_batch_size_immaterial_witness :
  let rows := (λ k, {| load_bronze.e_key := k; load_bronze.e_attrs := [] |})
                <$> [VStr "P000000"; VStr "P000001"; VStr "P000002"] in
  0 < 1 ∧ 0 < 5000
  ∧ load_bronze.merge_nodes (load_bronze.node_query load_bronze.Person) rows 1
      load_bronze.empty_graph
    = load_bronze.merge_nodes (load_bronze.node_query load_bronze.Person) rows 5000
        load_bronze.empty_graph.
Proof.
  intros rows. split; [lia|]. split; [lia|].
  apply (node_batch_size_immaterial load_bronze.Person rows 1 5000); lia.
Defined.

(** The people table the Ring Injector finds after the first two stages
    of the small configuration. *)
Lemma pipeline_people_unique_witness :
  ∃ fs2 g2,
    (fs1 ← generate_bronze.main demo_sim empty_dir;
     enrich_infrastructure.main demo_infra fs1) (seed 0) = Ok (fs2, g2)
    ∧ ∃ ids,
        read_parquet fs2 "people.parquet" = Ok (generate_bronze.generate_people demo_sim)
        ∧ column (generate_bronze.generate_people demo_sim) "person_id" = Ok ids
        ∧ NoDup ids.
Proof.
  destruct (run_returns
              ((fs1 ← generate_bronze.main demo_sim empty_dir;
                enrich_infrastructure.main demo_infra fs1) (seed 0)))
    as [[fs2 g2] Hrun]; [vm_compute; reflexivity|].
  exists fs2, g2. split; [exact Hrun|].
  exact (pipeline_people_unique demo_sim demo_infra empty_dir (seed 0) fs2 g2 Hrun).
Defined.

(** ** Loads and stage outputs *)

(** One transaction and the six entities it names, as rows. *)
Definition demo_row : load_bronze.tx_row := {|
  load_bronze.r_tx_id := VStr "T00000000";
  load_bronze.r_ts := VTime 1735689600000000;
  load_bronze.r_amount := VFloat 1.5;
  load_bronze.r_currency := VStr "GBP";
  load_bronze.r_person_id := VStr "P000000";
  load_bronze.r_merchant_id := VStr "M00000";
  load_bronze.r_device_id := VStr "D0000000";
  load_bronze.r_ip := VStr "10.0.0.1";
  load_bronze.r_card_hash := VStr "C00000000";
  load_bronze.r_address_hash := VStr "A0000000";
  load_bronze.r_is_fraud := VInt 1;
|}.

Definition demo_key (k : string) : load_bronze.entity_row :=
  {| load_bronze.e_key := VStr k; load_bronze.e_attrs := [] |}.

Definition demo_tables : load_bronze.tables := {|
  load_bronze.people_rows := [demo_key "P000000"];
  load_bronze.merchant_rows := [demo_key "M00000"];
  load_bronze.device_rows := [demo_key "D0000000"];
  load_bronze.ip_rows := [demo_key "10.0.0.1"];
  load_bronze.card_rows := [demo_key "C00000000"];
  load_bronze.addr_rows := [demo_key "A0000000"];
  load_bronze.transaction_rows := [demo_row];
|}.

Lemma load_well_formed_witness :
  well_formed load_bronze.empty_graph
  ∧ well_formed (load_bronze.load demo_tables load_bronze.empty_graph).
Proof.
  assert (well_formed load_bronze.empty_graph) as Hwf.
  { intros x Hx. by apply elem_of_nil in Hx. }
  split; [exact Hwf|].
  exact (load_well_formed demo_tables load_bronze.empty_graph Hwf).
Defined.

Lemma loaded_transaction_properties_witness :
  ∃ n r_last,
    n ∈ load_bronze.nodes (load_bronze.load demo_tables load_bronze.empty_graph)
    ∧ load_bronze.n_id n = load_bronze.tx_node demo_row
    ∧ last (filter (λ r', load_bronze.r_tx_id r' = load_bronze.r_tx_id demo_row)
              (load_bronze.transaction_rows demo_tables)) = Some r_last
    ∧ load_bronze.n_props n = tx_props r_last
    ∧ (NoDup (load_bronze.r_tx_id <$> load_bronze.transaction_rows demo_tables) →
       r_last = demo_row).
Proof.
  apply (loaded_transaction_properties demo_tables demo_row). simpl. left.
Defined.

(** The small configuration, generated and loaded into an empty store. *)
Lemma pipeline_load_connected_witness :
  ∃ fs' g',
    pipeline demo_sim demo_infra (demo_ring 0.5) empty_dir (seed 0) = Ok (fs', g')
    ∧ ∃ t,
        load_bronze.read_tables fs' = Ok t
        ∧ load_bronze.main fs' load_bronze.empty_graph
          = Ok (load_bronze.load t load_bronze.empty_graph)
        ∧ length (load_bronze.transaction_rows t)
          = generate_bronze.n_transactions demo_sim
        ∧ (∀ r, r ∈ load_bronze.transaction_rows t →
             load_bronze.matches (load_bronze.load_nodes t load_bronze.empty_graph) r
             ∧ load_bronze.tx_node r
               ∈ load_bronze.node_ids (load_bronze.load t load_bronze.empty_graph)
             ∧ ∀ x, x ∈ load_bronze.six_rels r →
                 x ∈ load_bronze.rels (load_bronze.load t load_bronze.empty_graph)).
Proof.
  destruct (run_returns (pipeline demo_sim demo_infra (demo_ring 0.5) empty_dir (seed 0)))
    as [[fs' g'] Hrun]; [vm_compute; reflexivity|].
  exists fs', g'. split; [exact Hrun|].
  exact (pipeline_load_connected demo_sim demo_infra (demo_ring 0.5) empty_dir (seed 0)
           fs' g' load_bronze.empty_graph Hrun).
Defined.

(** Phase 2 row by row instead of in batches of 1500. *)
Lemma tx_batch_size_immaterial_witness :
  let rows := [demo_row; demo_row] in
  let g := load_bronze.load_nodes demo_tables load_bronze.empty_graph in
  0 < 1
  ∧ let g' := foldl (λ g batch, load_bronze.tx_query batch g) g
                (load_bronze.chunked rows 1) in
    load_bronze.nodes g' = load_bronze.nodes (load_bronze.load_transactions rows g)
    ∧ load_bronze.rels g' ≡ₚ load_bronze.rels (load_bronze.load_transactions rows g).
Proof.
  intros rows g. split; [lia|]. apply (tx_batch_size_immaterial rows 1 g). lia.
Defined.

Lemma generate_writes_witness :
  ∃ fs1 g1,
    generate_bronze.main demo_sim empty_dir (seed 0) = Ok (fs1, g1)
    ∧ ∃ mcc ts amounts tx_person tx_merchant,
        fs1 !! "people.parquet" = Some (generate_bronze.generate_people demo_sim)
        ∧ fs1 !! "merchants.parquet"
            = Some (merchants_table (generate_bronze.n_merchants demo_sim) mcc)
        ∧ fs1 !! "transactions.parquet"
            = Some (transactions_table (generate_bronze.n_transactions demo_sim)
                      ts amounts tx_person tx_merchant)
        ∧ (∀ name,
             name ∉ ["people.parquet"; "merchants.parquet"; "transactions.parquet"] →
             fs1 !! name = empty_dir !! name)
        ∧ length mcc = generate_bronze.n_merchants demo_sim
        ∧ Forall (λ v, v ∈ generate_bronze.mccs) mcc
        ∧ Forall (λ c, length c = generate_bronze.n_transactions demo_sim)
            [ts; amounts; tx_person; tx_merchant]
        ∧ Forall in_window ts.
Proof.
  destruct (run_returns (generate_bronze.main demo_sim empty_dir (seed 0)))
    as [[fs1 g1] Hrun]; [vm_compute; reflexivity|].
  exists fs1, g1. split; [exact Hrun|].
  exact (generate_writes demo_sim empty_dir (seed 0) fs1 g1 Hrun).
Defined.

(** A directory that holds the example Transaction table only. *)
Definition demo_dir : bronze_dir := write_parquet "transactions.parquet" demo_tx empty_dir.

Lemma enrich_writes_witness :
  ∃ fs2 g2,
    enrich_infrastructure.main demo_infra demo_dir (seed 0) = Ok (fs2, g2)
    ∧ ∃ tx tx' ip_values tx_device tx_ip tx_card tx_addr,
        demo_dir !! "transactions.parquet" = Some tx
        ∧ fs2 !! "devices.parquet"
            = Some (devices_table (enrich_infrastructure.n_devices demo_infra))
        ∧ fs2 !! "ips.parquet" = Some (ips_table ip_values)
        ∧ fs2 !! "cards.parquet"
            = Some (cards_table (enrich_infrastructure.n_cards demo_infra))
        ∧ fs2 !! "addresses.parquet"
            = Some (addresses_table (enrich_infrastructure.n_addresses demo_infra))
        ∧ fs2 !! "transactions.parquet" = Some tx'
        ∧ (∀ name, name ∉ ["devices.parquet"; "ips.parquet"; "cards.parquet";
                            "addresses.parquet"; "transactions.parquet"] →
             fs2 !! name = demo_dir !! name)
        ∧ length ip_values = enrich_infrastructure.n_ips demo_infra
        ∧ Forall private_ip ip_values
        ∧ lookup_column tx' "device_id" = Some tx_device
        ∧ lookup_column tx' "ip" = Some tx_ip
        ∧ lookup_column tx' "card_hash" = Some tx_card
        ∧ lookup_column tx' "address_hash" = Some tx_addr
        ∧ Forall (λ c, length c = height tx) [tx_device; tx_ip; tx_card; tx_addr]
        ∧ (∀ name, name ∉ ["device_id"; "ip"; "card_hash"; "address_hash"] →
             lookup_column tx' name = lookup_column tx name).
Proof.
  destruct (run_returns (enrich_infrastructure.main demo_infra demo_dir (seed 0)))
    as [[fs2 g2] Hrun]; [vm_compute; reflexivity|].
  exists fs2, g2. split; [exact Hrun|].
  exact (enrich_writes demo_infra demo_dir (seed 0) fs2 g2 Hrun).
Defined.

(** The small configuration without devices. *)
Definition demo_infra_no_devices : enrich_infrastructure.InfraConfig := {|
  enrich_infrastructure.infra_seed := 3;
  enrich_infrastructure.n_devices := 0;
  enrich_infrastructure.n_ips := 2;
  enrich_infrastructure.n_cards := 2;
  enrich_infrastructure.n_addresses := 2;
  enrich_infrastructure.reuse_strength := 0.25;
|}.

Lemma enrich_no_devices_witness :
  enrich_infrastructure.n_devices demo_infra_no_devices = 0
  ∧ demo_dir !! "transactions.parquet" = Some demo_tx
  ∧ enrich_infrastructure.main demo_infra_no_devices demo_dir (seed 0)
    = Raise (ValueError "empty pool").
Proof.
  split; [reflexivity|]. split; [reflexivity|].
  apply (enrich_no_devices demo_infra_no_devices demo_dir (seed 0) demo_tx); reflexivity.
Defined.

(** The loader on the small configuration before the Ring Injector has
    run. *)
Lemma load_before_injection_witness :
  ∃ fs2 g2,
    (fs1 ← generate_bronze.main demo_sim empty_dir;
     enrich_infrastructure.main demo_infra fs1) (seed 0) = Ok (fs2, g2)
    ∧ load_bronze.main fs2 load_bronze.empty_graph
      = Raise (ColumnNotFoundError "is_fraud").
Proof.
  destruct (run_returns
              ((fs1 ← generate_bronze.main demo_sim empty_dir;
                enrich_infrastructure.main demo_infra fs1) (seed 0)))
    as [[fs2 g2] Hrun]; [vm_compute; reflexivity|].
  exists fs2, g2. split; [exact Hrun|].
  exact (load_before_injection demo_sim demo_infra empty_dir (seed 0) fs2 g2
           load_bronze.empty_graph Hrun).
Defined.

(** ** Cypher files in ASCII *)

(** [str.isspace] on an ASCII character: tab to carriage return, the
    four separators and the space. *)
Definition ascii_isspace (c : ascii) : bool :=
  let n := nat_of_ascii c in
  ((9 <=? n) && (n <=? 13)) || ((28 <=? n) && (n <=? 32)).

Definition semicolon : ascii := ";"%char.

Definition text (s : string) : list ascii := list_ascii_of_string s.

Definition demo_cypher : list ascii :=
  text "  CREATE INDEX a;
 CREATE INDEX b ;;
".

Lemma strip_before_split_witness :
  ascii_isspace semicolon = false
  ∧ run_cypher.split_statements ascii_isspace semicolon
      (run_cypher.strip ascii_isspace demo_cypher)
    = run_cypher.split_statements ascii_isspace semicolon demo_cypher.
Proof.
  split; [reflexivity|].
  apply (strip_before_split ascii_isspace semicolon demo_cypher). reflexivity.
Defined.

Lemma demo_clean s :
  bool_decide (s ≠ [] ∧ semicolon ∉ s) = true →
  ascii_isspace (default " "%char (head s)) = false →
  ascii_isspace (default " "%char (last s)) = false →
  clean ascii_isspace semicolon s.
Proof.
  intros [Hne Hsemi]%bool_decide_eq_true Hh Hl. split_and!; [done..| |].
  - intros c Hc. by rewrite Hc in Hh.
  - intros c Hc. by rewrite Hc in Hl.
Qed.

Lemma split_join_round_trip_witness :
  let ps := [text "CREATE INDEX a"; text "CREATE INDEX b"] in
  Forall (clean ascii_isspace semicolon) ps
  ∧ run_cypher.split_statements ascii_isspace semicolon (run_cypher.join semicolon ps) = ps.
Proof.
  intros ps.
  assert (Forall (clean ascii_isspace semicolon) ps) as Hps.
  { repeat constructor; apply demo_clean; vm_compute; reflexivity. }
  split; [exact Hps|].
  exact (split_join_round_trip ascii_isspace semicolon ps Hps).
Defined.

(** A store that records the statements it has run, and rejects the
    statement [FAIL]. *)
Definition demo_run (stmt : list ascii) (d : list (list ascii))
    : string + list (list ascii) :=
  if decide (stmt = text "FAIL") then inl "SyntaxError"%string else inr (d ++ [stmt]).

Definition demo_files : gmap string (list ascii) :=
  <["constraints.cypher" := text "CREATE a; CREATE b;"]>
    (<["broken.cypher" := text "CREATE c; FAIL; CREATE d"]> ∅).

Lemma main_missing_file_witness :
  ∃ f',
    f' ∈ ["constraints.cypher"; "indexes.cypher"]
    ∧ demo_files !! f' = None
    ∧ run_cypher.main ascii_isspace semicolon demo_run
        ["run_cypher.py"; "constraints.cypher"; "indexes.cypher"] None demo_files []
      = (run_cypher.Return 2, [], [run_cypher.FileNotFound f']).
Proof.
  apply (main_missing_file ascii_isspace semicolon demo_run "run_cypher.py"
           ["constraints.cypher"; "indexes.cypher"] None demo_files []
           "indexes.cypher").
  - right. left.
  - reflexivity.
Defined.

Lemma main_runs_in_order_witness :
  let files := ["constraints.cypher"; "broken.cypher"] in
  ascii_isspace semicolon = false ∧ files ≠ []
  ∧ (∀ f, f ∈ files → is_Some (demo_files !! f))
  ∧ ∃ out,
      run_cypher.main ascii_isspace semicolon demo_run ("run_cypher.py" :: files) None
        demo_files []
      = (ending (run_in_order demo_run
                   (all_statements ascii_isspace semicolon demo_files files) []).1,
         (run_in_order demo_run
            (all_statements ascii_isspace semicolon demo_files files) []).2, out).
Proof.
  intros files.
  assert (∀ f, f ∈ files → is_Some (demo_files !! f)) as Hall.
  { intros f Hf. apply (Forall_forall (λ f, is_Some (demo_files !! f)) files); [|done].
    repeat constructor; by eexists. }
  split; [reflexivity|]. split; [done|]. split; [exact Hall|].
  exact (main_runs_in_order ascii_isspace semicolon demo_run "run_cypher.py" files
           demo_files [] eq_refl ltac:(done) Hall).
Defined.

Lemma main_error_report_witness :
  let argv := ["run_cypher.py"; "constraints.cypher"; "broken.cypher"] in
  let d' := [text "CREATE a"; text "CREATE b"; text "CREATE c"] in
  let out := [run_cypher.Header "constraints.cypher" 2;
              run_cypher.Header "broken.cypher" 3;
              run_cypher.ErrorIn "broken.cypher" 2 (text "FAIL")] in
  run_cypher.main ascii_isspace semicolon demo_run argv None demo_files []
    = (run_cypher.Raised (run_cypher.Neo4jError "SyntaxError"%string), d', out)
  ∧ ∃ f i stmt cypher,
      f ∈ argv ∧ run_cypher.read_cypher ascii_isspace demo_files f = Some cypher
      ∧ run_cypher.split_statements ascii_isspace semicolon cypher !! i = Some stmt
      ∧ last out = Some (run_cypher.ErrorIn f (S i) stmt)
      ∧ demo_run stmt d' = inl "SyntaxError"%string.
Proof.
  intros argv d' out.
  assert (run_cypher.main ascii_isspace semicolon demo_run argv None demo_files []
          = (run_cypher.Raised (run_cypher.Neo4jError "SyntaxError"%string), d', out))
    as Hrun by (vm_compute; reflexivity).
  split; [exact Hrun|].
  exact (main_error_report ascii_isspace semicolon demo_run argv demo_files []
           "SyntaxError"%string d' out Hrun).
Defined.

(** ** The injector's requirements on the example *)

Lemma inject_requirements_witness :
  ∃ r g', demo_inject = Ok (r, g')
    ∧ demo_devices ≠ [] ∧ demo_ips ≠ [] ∧ demo_cards ≠ [] ∧ demo_addrs ≠ []
    ∧ 1 ≤ length (inject_fraud_rings.rings r)
        ≤ inject_fraud_rings.n_rings (demo_ring 0.5)
    ∧ ∃ ts0, column demo_tx "ts" = Ok ts0
        ∧ length (inject_fraud_rings.rings r) ≤ length ts0.
Proof.
  eexists _, _. split; [vm_compute; reflexivity|].
  eapply (inject_requirements (demo_ring 0.5) demo_people demo_tx demo_devices
            demo_ips demo_cards demo_addrs (seed 2)).
  vm_compute. reflexivity.
Defined.

(** ** A configuration without people *)

Definition demo_sim_nobody : generate_bronze.SimConfig := {|
  generate_bronze.sim_seed := 7;
  generate_bronze.n_people := 0;
  generate_bronze.n_merchants := 2;
  generate_bronze.n_transactions := 4;
|}.

Lemma generate_without_entities_witness :
  0 < generate_bronze.n_transactions demo_sim_nobody
  ∧ (generate_bronze.n_people demo_sim_nobody = 0
     ∨ generate_bronze.n_merchants demo_sim_nobody = 0)
  ∧ generate_bronze.main demo_sim_nobody empty_dir (seed 0) = Raise IndexError.
Proof.
  split; [vm_compute; lia|]. split; [left; reflexivity|].
  apply (generate_without_entities demo_sim_nobody empty_dir (seed 0));
    [vm_compute; lia|left; reflexivity].
Defined.
